(** * The animation sequencer of [premitiveAnimation/Source1.cpp]

    A shallow embedding of the per-frame driver [Render], the window
    procedure [MsgProc], the start-up code of [wWinMain] and the vertex
    buffers of [InitGeometry], followed by the properties of the sequencer:
    freezing of completed actors, the reset round trip, the hold latch, the
    trail buffer and its emission test, the clock reads of a frame, the draw
    order and the device log of a frame.

    The C++ [float] and [double] values are IEEE-754 binary32 and binary64
    numbers, embedded with the Standard Library's executable specification
    [SpecFloat] (round to nearest, ties to even); every operation is rounded
    to the type the C++ conversions give it, as SSE2 code does.  The Direct3D
    device is a log of the calls made on it; [timeGetTime] reads an oracle. *)

From Stdlib Require Import ZArith Bool List Lia.
From Stdlib Require Import Floats.SpecFloat.
From stdpp Require Import base list.

Local Open Scope Z_scope.

(** ** IEEE-754 arithmetic *)

(** Both C++ floating types live in [spec_float]; the two abbreviations
    record which format a value is held in. *)
Abbreviation float := spec_float (only parsing).
Abbreviation double := spec_float (only parsing).

(** Operations of the binary32 format ([float]). *)
Module B32.
Definition prec : Z := 24.
Definition emax : Z := 128.
Definition of_Z (z : Z) : float := binary_normalize prec emax z 0 false.
Definition add : float -> float -> float := SFadd prec emax.
Definition sub : float -> float -> float := SFsub prec emax.
Definition mul : float -> float -> float := SFmul prec emax.
Definition div : float -> float -> float := SFdiv prec emax.
Definition sqrt : float -> float := SFsqrt prec emax.
Definition opp : float -> float := SFopp.
(** The value of a literal [n/d f] with [n] and [d] exactly representable. *)
Definition lit (n d : Z) : float := div (of_Z n) (of_Z d).
End B32.

(** Operations of the binary64 format ([double]). *)
Module B64.
Definition prec : Z := 53.
Definition emax : Z := 1024.
Definition of_Z (z : Z) : double := binary_normalize prec emax z 0 false.
Definition add : double -> double -> double := SFadd prec emax.
Definition sub : double -> double -> double := SFsub prec emax.
Definition mul : double -> double -> double := SFmul prec emax.
Definition div : double -> double -> double := SFdiv prec emax.
Definition opp : double -> double := SFopp.
(** The value of a decimal literal [n/d] with [n] and [d] exactly
    representable: the correctly rounded quotient is the double nearest to
    the decimal. *)
Definition lit (n d : Z) : double := div (of_Z n) (of_Z d).
End B64.

(** Comparisons do not depend on the format. [x >= y] is [y <= x]. *)
Definition fle (x y : spec_float) : bool := SFleb x y.
Definition flt (x y : spec_float) : bool := SFltb x y.
Definition fge (x y : spec_float) : bool := SFleb y x.
Definition fgt (x y : spec_float) : bool := SFltb y x.

(** Implicit conversion [float -> double] (exact) and the rounding
    conversion [double -> float]. *)
Definition to_double (x : float) : double :=
  match x with
  | S754_finite s m e => binary_round B64.prec B64.emax s m e
  | _ => x
  end.

Definition to_float (x : double) : float :=
  match x with
  | S754_finite s m e => binary_round B32.prec B32.emax s m e
  | _ => x
  end.

(** 32-bit integers: [DWORD] is unsigned, [int] is two's complement. *)
Definition wrapU32 (z : Z) : Z := z mod 2 ^ 32.
Definition wrapS32 (z : Z) : Z := (z + 2 ^ 31) mod 2 ^ 32 - 2 ^ 31.
Definition INT_MIN : Z := - 2 ^ 31.

(** The integer part of a finite number, rounded toward zero. *)
Definition ftrunc (x : spec_float) : option Z :=
  match x with
  | S754_zero _ => Some 0
  | S754_finite s m e =>
      let a := match e with
               | Z0 => Zpos m
               | Zpos p => Zpos m * 2 ^ Zpos p
               | Zneg p => Zpos m / 2 ^ Zpos p
               end in
      Some (if s then - a else a)
  | _ => None
  end.

(** The cast [(int)x].  C++ leaves it undefined when the integer part does
    not fit; the SSE conversion instructions then produce [INT_MIN]. *)
Definition to_int (x : spec_float) : Z :=
  match ftrunc x with
  | Some z => if (INT_MIN <=? z) && (z <? 2 ^ 31) then z else INT_MIN
  | None => INT_MIN
  end.

(** [abs] on [int]. *)
Definition abs_int (z : Z) : Z := wrapS32 (Z.abs z).

(** ** Constants of the program *)

(** [D3DX_PI] is [((FLOAT) 3.141592654f)] in the DirectX SDK's
    [d3dx9math.h]: the binary32 number [0x40490FDB]. *)
Definition D3DX_PI : float := S754_finite false 13176795 (-22).

Definition indexMax : Z := 1000.

(** ** The Direct3D device, seen as a log of calls *)

(** World transforms are kept as the D3DX expressions that build them. *)
Inductive matrix :=
  | Translation (x y z : float)
  | RotationX (angle : float)
  | RotationY (angle : float)
  | RotationZ (angle : float)
  | MatMul (a b : matrix).

Inductive vertex_buffer := g_pVB | g_pVB2.

Inductive d3d_call :=
  | Clear
  | BeginScene
  | SetupLights
  | SetupMatrices (aspect : float)
  | SetStreamSource (vb : vertex_buffer)
  | SetFVF
  | SetTransform (world : matrix)
  | DrawPrimitive (start count : Z)
  | EndScene
  | Present.

(** ** Global variables *)

(** One row of [squarePos]: x, y and the rotation about Z. *)
Definition square : Type := float * float * float.

#[global] Instance float_inhabited : Inhabited spec_float :=
  populate (S754_zero false).

Record globals := Globals {
  I1 : float;
  I2 : float;
  I3 : float;
  K1 : float;
  k2X : float;
  k3X : float;
  k2Y : float;
  k3Y : float;
  e1 : float;
  e234 : float;
  p1 : float;
  p2 : float;
  i1_r : float;
  i2_r : float;
  i3_r : float;
  k1_r : float;
  k2_r : float;
  k3_r : float;
  e1_r : float;
  e2_r : float;
  e3_r : float;
  e4_r : float;
  p1_r : float;
  p2_r : float;
  pretime : float;
  squarePos : list square;
  index : Z;
  compFlag : list bool;
  endTime : float;
  endGet : bool;
  g_aspect : float
}.

Definition set_I1 (v : float) (g : globals) : globals :=
  match g with Globals _ x1 x2 x3 x4 x5 x6 x7 x8 x9 x10 x11 x12 x13 x14 x15 x16 x17 x18 x19 x20 x21 x22 x23 x24 x25 x26 x27 x28 x29 x30 =>
    Globals v x1 x2 x3 x4 x5 x6 x7 x8 x9 x10 x11 x12 x13 x14 x15 x16 x17 x18 x19 x20 x21 x22 x23 x24 x25 x26 x27 x28 x29 x30 end.
Definition set_I2 (v : float) (g : globals) : globals :=
  match g with Globals x0 _ x2 x3 x4 x5 x6 x7 x8 x9 x10 x11 x12 x13 x14 x15 x16 x17 x18 x19 x20 x21 x22 x23 x24 x25 x26 x27 x28 x29 x30 =>
    Globals x0 v x2 x3 x4 x5 x6 x7 x8 x9 x10 x11 x12 x13 x14 x15 x16 x17 x18 x19 x20 x21 x22 x23 x24 x25 x26 x27 x28 x29 x30 end.
Definition set_I3 (v : float) (g : globals) : globals :=
  match g with Globals x0 x1 _ x3 x4 x5 x6 x7 x8 x9 x10 x11 x12 x13 x14 x15 x16 x17 x18 x19 x20 x21 x22 x23 x24 x25 x26 x27 x28 x29 x30 =>
    Globals x0 x1 v x3 x4 x5 x6 x7 x8 x9 x10 x11 x12 x13 x14 x15 x16 x17 x18 x19 x20 x21 x22 x23 x24 x25 x26 x27 x28 x29 x30 end.
Definition set_K1 (v : float) (g : globals) : globals :=
  match g with Globals x0 x1 x2 _ x4 x5 x6 x7 x8 x9 x10 x11 x12 x13 x14 x15 x16 x17 x18 x19 x20 x21 x22 x23 x24 x25 x26 x27 x28 x29 x30 =>
    Globals x0 x1 x2 v x4 x5 x6 x7 x8 x9 x10 x11 x12 x13 x14 x15 x16 x17 x18 x19 x20 x21 x22 x23 x24 x25 x26 x27 x28 x29 x30 end.
Definition set_k2X (v : float) (g : globals) : globals :=
  match g with Globals x0 x1 x2 x3 _ x5 x6 x7 x8 x9 x10 x11 x12 x13 x14 x15 x16 x17 x18 x19 x20 x21 x22 x23 x24 x25 x26 x27 x28 x29 x30 =>
    Globals x0 x1 x2 x3 v x5 x6 x7 x8 x9 x10 x11 x12 x13 x14 x15 x16 x17 x18 x19 x20 x21 x22 x23 x24 x25 x26 x27 x28 x29 x30 end.
Definition set_k3X (v : float) (g : globals) : globals :=
  match g with Globals x0 x1 x2 x3 x4 _ x6 x7 x8 x9 x10 x11 x12 x13 x14 x15 x16 x17 x18 x19 x20 x21 x22 x23 x24 x25 x26 x27 x28 x29 x30 =>
    Globals x0 x1 x2 x3 x4 v x6 x7 x8 x9 x10 x11 x12 x13 x14 x15 x16 x17 x18 x19 x20 x21 x22 x23 x24 x25 x26 x27 x28 x29 x30 end.
Definition set_k2Y (v : float) (g : globals) : globals :=
  match g with Globals x0 x1 x2 x3 x4 x5 _ x7 x8 x9 x10 x11 x12 x13 x14 x15 x16 x17 x18 x19 x20 x21 x22 x23 x24 x25 x26 x27 x28 x29 x30 =>
    Globals x0 x1 x2 x3 x4 x5 v x7 x8 x9 x10 x11 x12 x13 x14 x15 x16 x17 x18 x19 x20 x21 x22 x23 x24 x25 x26 x27 x28 x29 x30 end.
Definition set_k3Y (v : float) (g : globals) : globals :=
  match g with Globals x0 x1 x2 x3 x4 x5 x6 _ x8 x9 x10 x11 x12 x13 x14 x15 x16 x17 x18 x19 x20 x21 x22 x23 x24 x25 x26 x27 x28 x29 x30 =>
    Globals x0 x1 x2 x3 x4 x5 x6 v x8 x9 x10 x11 x12 x13 x14 x15 x16 x17 x18 x19 x20 x21 x22 x23 x24 x25 x26 x27 x28 x29 x30 end.
Definition set_e1 (v : float) (g : globals) : globals :=
  match g with Globals x0 x1 x2 x3 x4 x5 x6 x7 _ x9 x10 x11 x12 x13 x14 x15 x16 x17 x18 x19 x20 x21 x22 x23 x24 x25 x26 x27 x28 x29 x30 =>
    Globals x0 x1 x2 x3 x4 x5 x6 x7 v x9 x10 x11 x12 x13 x14 x15 x16 x17 x18 x19 x20 x21 x22 x23 x24 x25 x26 x27 x28 x29 x30 end.
Definition set_e234 (v : float) (g : globals) : globals :=
  match g with Globals x0 x1 x2 x3 x4 x5 x6 x7 x8 _ x10 x11 x12 x13 x14 x15 x16 x17 x18 x19 x20 x21 x22 x23 x24 x25 x26 x27 x28 x29 x30 =>
    Globals x0 x1 x2 x3 x4 x5 x6 x7 x8 v x10 x11 x12 x13 x14 x15 x16 x17 x18 x19 x20 x21 x22 x23 x24 x25 x26 x27 x28 x29 x30 end.
Definition set_p1 (v : float) (g : globals) : globals :=
  match g with Globals x0 x1 x2 x3 x4 x5 x6 x7 x8 x9 _ x11 x12 x13 x14 x15 x16 x17 x18 x19 x20 x21 x22 x23 x24 x25 x26 x27 x28 x29 x30 =>
    Globals x0 x1 x2 x3 x4 x5 x6 x7 x8 x9 v x11 x12 x13 x14 x15 x16 x17 x18 x19 x20 x21 x22 x23 x24 x25 x26 x27 x28 x29 x30 end.
Definition set_p2 (v : float) (g : globals) : globals :=
  match g with Globals x0 x1 x2 x3 x4 x5 x6 x7 x8 x9 x10 _ x12 x13 x14 x15 x16 x17 x18 x19 x20 x21 x22 x23 x24 x25 x26 x27 x28 x29 x30 =>
    Globals x0 x1 x2 x3 x4 x5 x6 x7 x8 x9 x10 v x12 x13 x14 x15 x16 x17 x18 x19 x20 x21 x22 x23 x24 x25 x26 x27 x28 x29 x30 end.
Definition set_i1_r (v : float) (g : globals) : globals :=
  match g with Globals x0 x1 x2 x3 x4 x5 x6 x7 x8 x9 x10 x11 _ x13 x14 x15 x16 x17 x18 x19 x20 x21 x22 x23 x24 x25 x26 x27 x28 x29 x30 =>
    Globals x0 x1 x2 x3 x4 x5 x6 x7 x8 x9 x10 x11 v x13 x14 x15 x16 x17 x18 x19 x20 x21 x22 x23 x24 x25 x26 x27 x28 x29 x30 end.
Definition set_i2_r (v : float) (g : globals) : globals :=
  match g with Globals x0 x1 x2 x3 x4 x5 x6 x7 x8 x9 x10 x11 x12 _ x14 x15 x16 x17 x18 x19 x20 x21 x22 x23 x24 x25 x26 x27 x28 x29 x30 =>
    Globals x0 x1 x2 x3 x4 x5 x6 x7 x8 x9 x10 x11 x12 v x14 x15 x16 x17 x18 x19 x20 x21 x22 x23 x24 x25 x26 x27 x28 x29 x30 end.
Definition set_i3_r (v : float) (g : globals) : globals :=
  match g with Globals x0 x1 x2 x3 x4 x5 x6 x7 x8 x9 x10 x11 x12 x13 _ x15 x16 x17 x18 x19 x20 x21 x22 x23 x24 x25 x26 x27 x28 x29 x30 =>
    Globals x0 x1 x2 x3 x4 x5 x6 x7 x8 x9 x10 x11 x12 x13 v x15 x16 x17 x18 x19 x20 x21 x22 x23 x24 x25 x26 x27 x28 x29 x30 end.
Definition set_k1_r (v : float) (g : globals) : globals :=
  match g with Globals x0 x1 x2 x3 x4 x5 x6 x7 x8 x9 x10 x11 x12 x13 x14 _ x16 x17 x18 x19 x20 x21 x22 x23 x24 x25 x26 x27 x28 x29 x30 =>
    Globals x0 x1 x2 x3 x4 x5 x6 x7 x8 x9 x10 x11 x12 x13 x14 v x16 x17 x18 x19 x20 x21 x22 x23 x24 x25 x26 x27 x28 x29 x30 end.
Definition set_k2_r (v : float) (g : globals) : globals :=
  match g with Globals x0 x1 x2 x3 x4 x5 x6 x7 x8 x9 x10 x11 x12 x13 x14 x15 _ x17 x18 x19 x20 x21 x22 x23 x24 x25 x26 x27 x28 x29 x30 =>
    Globals x0 x1 x2 x3 x4 x5 x6 x7 x8 x9 x10 x11 x12 x13 x14 x15 v x17 x18 x19 x20 x21 x22 x23 x24 x25 x26 x27 x28 x29 x30 end.
Definition set_k3_r (v : float) (g : globals) : globals :=
  match g with Globals x0 x1 x2 x3 x4 x5 x6 x7 x8 x9 x10 x11 x12 x13 x14 x15 x16 _ x18 x19 x20 x21 x22 x23 x24 x25 x26 x27 x28 x29 x30 =>
    Globals x0 x1 x2 x3 x4 x5 x6 x7 x8 x9 x10 x11 x12 x13 x14 x15 x16 v x18 x19 x20 x21 x22 x23 x24 x25 x26 x27 x28 x29 x30 end.
Definition set_e1_r (v : float) (g : globals) : globals :=
  match g with Globals x0 x1 x2 x3 x4 x5 x6 x7 x8 x9 x10 x11 x12 x13 x14 x15 x16 x17 _ x19 x20 x21 x22 x23 x24 x25 x26 x27 x28 x29 x30 =>
    Globals x0 x1 x2 x3 x4 x5 x6 x7 x8 x9 x10 x11 x12 x13 x14 x15 x16 x17 v x19 x20 x21 x22 x23 x24 x25 x26 x27 x28 x29 x30 end.
Definition set_e2_r (v : float) (g : globals) : globals :=
  match g with Globals x0 x1 x2 x3 x4 x5 x6 x7 x8 x9 x10 x11 x12 x13 x14 x15 x16 x17 x18 _ x20 x21 x22 x23 x24 x25 x26 x27 x28 x29 x30 =>
    Globals x0 x1 x2 x3 x4 x5 x6 x7 x8 x9 x10 x11 x12 x13 x14 x15 x16 x17 x18 v x20 x21 x22 x23 x24 x25 x26 x27 x28 x29 x30 end.
Definition set_e3_r (v : float) (g : globals) : globals :=
  match g with Globals x0 x1 x2 x3 x4 x5 x6 x7 x8 x9 x10 x11 x12 x13 x14 x15 x16 x17 x18 x19 _ x21 x22 x23 x24 x25 x26 x27 x28 x29 x30 =>
    Globals x0 x1 x2 x3 x4 x5 x6 x7 x8 x9 x10 x11 x12 x13 x14 x15 x16 x17 x18 x19 v x21 x22 x23 x24 x25 x26 x27 x28 x29 x30 end.
Definition set_e4_r (v : float) (g : globals) : globals :=
  match g with Globals x0 x1 x2 x3 x4 x5 x6 x7 x8 x9 x10 x11 x12 x13 x14 x15 x16 x17 x18 x19 x20 _ x22 x23 x24 x25 x26 x27 x28 x29 x30 =>
    Globals x0 x1 x2 x3 x4 x5 x6 x7 x8 x9 x10 x11 x12 x13 x14 x15 x16 x17 x18 x19 x20 v x22 x23 x24 x25 x26 x27 x28 x29 x30 end.
Definition set_p1_r (v : float) (g : globals) : globals :=
  match g with Globals x0 x1 x2 x3 x4 x5 x6 x7 x8 x9 x10 x11 x12 x13 x14 x15 x16 x17 x18 x19 x20 x21 _ x23 x24 x25 x26 x27 x28 x29 x30 =>
    Globals x0 x1 x2 x3 x4 x5 x6 x7 x8 x9 x10 x11 x12 x13 x14 x15 x16 x17 x18 x19 x20 x21 v x23 x24 x25 x26 x27 x28 x29 x30 end.
Definition set_p2_r (v : float) (g : globals) : globals :=
  match g with Globals x0 x1 x2 x3 x4 x5 x6 x7 x8 x9 x10 x11 x12 x13 x14 x15 x16 x17 x18 x19 x20 x21 x22 _ x24 x25 x26 x27 x28 x29 x30 =>
    Globals x0 x1 x2 x3 x4 x5 x6 x7 x8 x9 x10 x11 x12 x13 x14 x15 x16 x17 x18 x19 x20 x21 x22 v x24 x25 x26 x27 x28 x29 x30 end.
Definition set_pretime (v : float) (g : globals) : globals :=
  match g with Globals x0 x1 x2 x3 x4 x5 x6 x7 x8 x9 x10 x11 x12 x13 x14 x15 x16 x17 x18 x19 x20 x21 x22 x23 _ x25 x26 x27 x28 x29 x30 =>
    Globals x0 x1 x2 x3 x4 x5 x6 x7 x8 x9 x10 x11 x12 x13 x14 x15 x16 x17 x18 x19 x20 x21 x22 x23 v x25 x26 x27 x28 x29 x30 end.
Definition set_squarePos (v : list square) (g : globals) : globals :=
  match g with Globals x0 x1 x2 x3 x4 x5 x6 x7 x8 x9 x10 x11 x12 x13 x14 x15 x16 x17 x18 x19 x20 x21 x22 x23 x24 _ x26 x27 x28 x29 x30 =>
    Globals x0 x1 x2 x3 x4 x5 x6 x7 x8 x9 x10 x11 x12 x13 x14 x15 x16 x17 x18 x19 x20 x21 x22 x23 x24 v x26 x27 x28 x29 x30 end.
Definition set_index (v : Z) (g : globals) : globals :=
  match g with Globals x0 x1 x2 x3 x4 x5 x6 x7 x8 x9 x10 x11 x12 x13 x14 x15 x16 x17 x18 x19 x20 x21 x22 x23 x24 x25 _ x27 x28 x29 x30 =>
    Globals x0 x1 x2 x3 x4 x5 x6 x7 x8 x9 x10 x11 x12 x13 x14 x15 x16 x17 x18 x19 x20 x21 x22 x23 x24 x25 v x27 x28 x29 x30 end.
Definition set_compFlag (v : list bool) (g : globals) : globals :=
  match g with Globals x0 x1 x2 x3 x4 x5 x6 x7 x8 x9 x10 x11 x12 x13 x14 x15 x16 x17 x18 x19 x20 x21 x22 x23 x24 x25 x26 _ x28 x29 x30 =>
    Globals x0 x1 x2 x3 x4 x5 x6 x7 x8 x9 x10 x11 x12 x13 x14 x15 x16 x17 x18 x19 x20 x21 x22 x23 x24 x25 x26 v x28 x29 x30 end.
Definition set_endTime (v : float) (g : globals) : globals :=
  match g with Globals x0 x1 x2 x3 x4 x5 x6 x7 x8 x9 x10 x11 x12 x13 x14 x15 x16 x17 x18 x19 x20 x21 x22 x23 x24 x25 x26 x27 _ x29 x30 =>
    Globals x0 x1 x2 x3 x4 x5 x6 x7 x8 x9 x10 x11 x12 x13 x14 x15 x16 x17 x18 x19 x20 x21 x22 x23 x24 x25 x26 x27 v x29 x30 end.
Definition set_endGet (v : bool) (g : globals) : globals :=
  match g with Globals x0 x1 x2 x3 x4 x5 x6 x7 x8 x9 x10 x11 x12 x13 x14 x15 x16 x17 x18 x19 x20 x21 x22 x23 x24 x25 x26 x27 x28 _ x30 =>
    Globals x0 x1 x2 x3 x4 x5 x6 x7 x8 x9 x10 x11 x12 x13 x14 x15 x16 x17 x18 x19 x20 x21 x22 x23 x24 x25 x26 x27 x28 v x30 end.
Definition set_g_aspect (v : float) (g : globals) : globals :=
  match g with Globals x0 x1 x2 x3 x4 x5 x6 x7 x8 x9 x10 x11 x12 x13 x14 x15 x16 x17 x18 x19 x20 x21 x22 x23 x24 x25 x26 x27 x28 x29 _ =>
    Globals x0 x1 x2 x3 x4 x5 x6 x7 x8 x9 x10 x11 x12 x13 x14 x15 x16 x17 x18 x19 x20 x21 x22 x23 x24 x25 x26 x27 x28 x29 v end.

(** ** The frame monad *)

(** What a frame receives from outside: the successive readings of
    [timeGetTime] (the [k]-th call of the frame returns [clock k], as a
    [DWORD]) and whether [BeginScene] succeeds. *)
Record env := Env { clock : nat -> Z; begin_ok : bool }.

(** The state threaded through a frame: the globals, the number of clock
    reads made so far in the frame and the device log. *)
Record machine := Machine {
  vars : globals;
  ticks : nat;
  calls : list d3d_call
}.

Definition M (A : Type) : Type := env -> machine -> A * machine.

Definition ret {A} (a : A) : M A := fun _ m => (a, m).

Definition bind {A B} (c : M A) (k : A -> M B) : M B :=
  fun e m => let (a, m') := c e m in k a e m'.

Declare Scope frame_scope.
Delimit Scope frame_scope with frame.
Notation "x <- c ;; k" := (bind c (fun x => k))
  (at level 100, c at next level, k at level 200, right associativity) : frame_scope.
Notation "c ;; k" := (bind c (fun _ => k))
  (at level 100, k at level 200, right associativity) : frame_scope.
Local Open Scope frame_scope.

Definition get : M globals := fun _ m => (vars m, m).

Definition modify (f : globals -> globals) : M unit :=
  fun _ m => (tt, Machine (f (vars m)) (ticks m) (calls m)).

Definition call (c : d3d_call) : M unit :=
  fun _ m => (tt, Machine (vars m) (ticks m) (calls m ++ [c])).

Definition timeGetTime : M Z :=
  fun e m => (wrapU32 (clock e (ticks m)),
              Machine (vars m) (S (ticks m)) (calls m)).

Definition BeginScene_succeeded : M bool := fun e m => (begin_ok e, m).

(** Conditionals of the frame. *)
Definition branch {A} (b : bool) (c1 c2 : M A) : M A :=
  fun e m => if b then c1 e m else c2 e m.

Definition when (b : bool) (c : M unit) : M unit := branch b c (ret tt).

Notation "'If' b 'then' c1 'else' c2" := (branch b c1 c2)
  (at level 10, b at level 200, c1 at level 200, c2 at level 200) : frame_scope.

(** [for (int i = 0; i < n; i++) body(i)], from [i] on. *)
Fixpoint for_loop (n : nat) (i : nat) (body : nat -> M unit) : M unit :=
  match n with
  | O => ret tt
  | S n' => body i ;; for_loop n' (S i) body
  end.

Definition exec {A} (c : M A) (e : env) (m : machine) : machine := snd (c e m).

(** ** Expressions shared by the actor blocks *)

Definition f0 : float := B32.of_Z 0.
Definition f1_5 : float := to_float (B64.lit 15 10).

(** [timeGetTime() / 250.0], a [double]. *)
Definition quarter (now : Z) : double := B64.div (B64.of_Z now) (B64.of_Z 250).

(** The spin angle [-(timeGetTime() / 250.0)] passed as a [FLOAT]. *)
Definition spin (now : Z) : float := to_float (B64.opp (quarter now)).

(** [(float)(timeGetTime() - pretime)]: the [DWORD] is converted to [float]
    and the difference is taken in [float]. *)
Definition elapsed (now : Z) (pre : float) : float := B32.sub (B32.of_Z now) pre.

(** [0.5*(float)(timeGetTime() - pretime) / 1000.0], a [double]. *)
Definition stride (now : Z) (pre : float) : double :=
  B64.div (B64.mul (B64.lit 1 2) (to_double (elapsed now pre))) (B64.of_Z 1000).

(** [x += d] and [x -= d] on a [float] with a [double] increment. *)
Definition add_assign (x : float) (d : double) : float :=
  to_float (B64.add (to_double x) d).
Definition sub_assign (x : float) (d : double) : float :=
  to_float (B64.sub (to_double x) d).

(** [abs((int)r + (int)(timeGetTime() / 250.0)) >= D3DX_PI / 2]: the sum and
    [abs] are taken on [int], the comparison on [float]. *)
Definition quarter_turn (r : float) (now : Z) : bool :=
  fge (B32.of_Z (abs_int (wrapS32 (to_int r + to_int (quarter now)))))
      (B32.div D3DX_PI (B32.of_Z 2)).

(** The same with [(int)r - (int)(...)], for the actor that spins the other
    way. *)
Definition quarter_turn_rev (r : float) (now : Z) : bool :=
  fge (B32.of_Z (abs_int (wrapS32 (to_int r - to_int (quarter now)))))
      (B32.div D3DX_PI (B32.of_Z 2)).

(** [-(float)(timeGetTime() / 250.0)] and [(float)(timeGetTime() / 250.0)]. *)
Definition phase_ref (now : Z) : float := B32.opp (to_float (quarter now)).
Definition phase_ref_rev (now : Z) : float := to_float (quarter now).

(** [squarePos[index][0..2] = ...; index++]. *)
Definition push_square (sq : square) (g : globals) : globals :=
  set_index (index g + 1)
    (set_squarePos (<[Z.to_nat (index g) := sq]> (squarePos g)) g).

(** [compFlag[i]]; the program only reads the twelve flags of the array, and
    the model reads [false] beyond the end of the list. *)
Definition flag_at (flags : list bool) (i : nat) : bool :=
  default false (flags !! i).

(** [compFlag[i] = b]. *)
Definition set_flag (i : nat) (b : bool) (g : globals) : globals :=
  set_compFlag (<[i := b]> (compFlag g)) g.

(** [SetTransform(D3DTS_WORLD, &w); DrawPrimitive(D3DPT_TRIANGLESTRIP, 0, n)]. *)
Definition draw (w : matrix) (n : Z) : M unit :=
  call (SetTransform w) ;; call (DrawPrimitive 0 n).

(** The twelve actors, by the index of their completion flag. *)
Inductive actor := A0 | A1 | A2 | A3 | A4 | A5 | A6 | A7 | A8 | A9 | A10 | A11.

Definition actor_id (a : actor) : nat :=
  match a with
  | A0 => 0 | A1 => 1 | A2 => 2 | A3 => 3 | A4 => 4 | A5 => 5
  | A6 => 6 | A7 => 7 | A8 => 8 | A9 => 9 | A10 => 10 | A11 => 11
  end%nat.

(** The phase reference of an actor's trail, read and written. *)
Definition phase (a : actor) (g : globals) : float :=
  match a with
  | A0 => i1_r g | A1 => i2_r g | A2 => i3_r g | A3 => k1_r g
  | A4 => k2_r g | A5 => k3_r g | A6 => e1_r g
  | A7 => e2_r g | A8 => e3_r g | A9 => e4_r g
  | A10 => p1_r g | A11 => p2_r g
  end.

Definition set_phase (a : actor) (v : float) : globals -> globals :=
  match a with
  | A0 => set_i1_r v | A1 => set_i2_r v | A2 => set_i3_r v | A3 => set_k1_r v
  | A4 => set_k2_r v | A5 => set_k3_r v | A6 => set_e1_r v
  | A7 => set_e2_r v | A8 => set_e3_r v | A9 => set_e4_r v
  | A10 => set_p1_r v | A11 => set_p2_r v
  end.

(** The test of an actor and the reference it stores: actor 5 spins the
    other way and has the signs reversed. *)
Definition crosses (a : actor) (r : float) (now : Z) : bool :=
  match a with
  | A5 => quarter_turn_rev r now
  | _ => quarter_turn r now
  end.

Definition stamp (a : actor) (now : Z) : float :=
  match a with
  | A5 => phase_ref_rev now
  | _ => phase_ref now
  end.

(** The trail emission that ends each actor's moving branch (lines 409-415
    and its eleven copies): when the test succeeds and the trail has room,
    the square [sq] is recorded and the phase reference is set from a new
    clock reading. *)
Definition emit (a : actor) (sq : globals -> square) : M unit :=
  t <- timeGetTime ;;
  g <- get ;;
  when (crosses a (phase a g) t && (index g <? indexMax)) (
    modify (push_square (sq g)) ;;
    t <- timeGetTime ;;
    modify (set_phase a (stamp a t))).

(** The terminal conditions of the twelve actors, as written in the [if]s. *)
Definition I1_moving (g : globals) : bool :=
  fle (to_double (I1 g)) (B64.opp (B64.lit 19 10)).
Definition I2_moving (g : globals) : bool :=
  fge (to_double (I2 g)) (B64.opp (B64.lit 15 10)).
Definition I3_moving (g : globals) : bool :=
  fle (to_double (I3 g)) (B64.opp (B64.lit 19 10)).
Definition K1_moving (g : globals) : bool :=
  fge (to_double (K1 g)) (B64.opp (B64.lit 17 10)).
Definition k2_moving (g : globals) : bool := fle (k2X g) (B32.of_Z 0).
Definition k3_moving (g : globals) : bool := fle (k3X g) (B32.of_Z 0).
Definition e1_moving (g : globals) : bool :=
  fge (to_double (e1 g)) (B64.opp (B64.lit 15 10)).
Definition e234_moving (g : globals) : bool :=
  fle (to_double (e234 g)) (B64.lit 18 10).
Definition p1_moving (g : globals) : bool :=
  fge (to_double (p1 g)) (B64.opp (B64.lit 17 10)).

Section Sequencer.

(** [cos] and [sin] of the C runtime at a [float] argument (the C++
    overloads of [<math.h>], which return [float]). *)
Variables cosf sinf : float -> float.

Definition p2_moving (g : globals) : bool :=
  fge (to_double (cosf (p2 g))) (B64.opp (B64.lit 1 100)).

(** [0.85*cos(p2) + 2.3] and [0.85*sin(p2) + 0.75], stored into a [float]. *)
Definition p2_x (a : float) : float :=
  to_float (B64.add (B64.mul (B64.lit 85 100) (to_double (cosf a))) (B64.lit 23 10)).
Definition p2_y (a : float) : float :=
  to_float (B64.add (B64.mul (B64.lit 85 100) (to_double (sinf a))) (B64.lit 75 100)).

(** ** The twelve actor blocks of [Render] *)

(** Lines 401-417. *)
Definition actor_I1 : M unit :=
  g <- get ;;
  If I1_moving g then
    t <- timeGetTime ;;
    let rotateMat := RotationY (spin t) in
    let moveMat := Translation (I1 g) f1_5 f0 in
    t <- timeGetTime ;;
    modify (set_I1 (add_assign (I1 g) (stride t (pretime g)))) ;;
    draw (MatMul rotateMat moveMat) 18 ;;
    emit A0 (fun g => (I1 g, f1_5, f0))
  else when (negb (flag_at (compFlag g) 0)) (modify (set_flag 0 true)).

(** Lines 419-435. *)
Definition actor_I2 : M unit :=
  g <- get ;;
  If I2_moving g then
    t <- timeGetTime ;;
    let rotateMat := RotationX (spin t) in
    let moveMat := Translation (to_float (B64.opp (B64.lit 25 10))) (I2 g) f0 in
    t <- timeGetTime ;;
    modify (set_I2 (sub_assign (I2 g) (stride t (pretime g)))) ;;
    draw (MatMul rotateMat moveMat) 18 ;;
    emit A1 (fun g => (to_float (B64.opp (B64.lit 25 10)), I2 g, f0))
  else when (negb (flag_at (compFlag g) 1)) (modify (set_flag 1 true)).

(** Lines 437-453. *)
Definition actor_I3 : M unit :=
  g <- get ;;
  If I3_moving g then
    t <- timeGetTime ;;
    let rotateMat := RotationY (spin t) in
    let moveMat := Translation (I3 g) (to_float (B64.opp (B64.lit 15 10))) f0 in
    t <- timeGetTime ;;
    modify (set_I3 (add_assign (I3 g) (stride t (pretime g)))) ;;
    draw (MatMul rotateMat moveMat) 18 ;;
    emit A2 (fun g => (I3 g, to_float (B64.opp (B64.lit 15 10)), f0))
  else when (negb (flag_at (compFlag g) 2)) (modify (set_flag 2 true)).

(** Lines 455-471. *)
Definition actor_K1 : M unit :=
  g <- get ;;
  If K1_moving g then
    t <- timeGetTime ;;
    let rotateMat := RotationX (spin t) in
    let moveMat := Translation (to_float (B64.opp (B64.lit 13 10))) (K1 g) f0 in
    t <- timeGetTime ;;
    modify (set_K1 (sub_assign (K1 g) (stride t (pretime g)))) ;;
    draw (MatMul rotateMat moveMat) 18 ;;
    emit A3 (fun g => (to_float (B64.opp (B64.lit 13 10)), K1 g, f0))
  else when (negb (flag_at (compFlag g) 3)) (modify (set_flag 3 true)).

(** Lines 474-492: the diagonal going up at 45 degrees. *)
Definition actor_k2 : M unit :=
  g <- get ;;
  If k2_moving g then
    let rotateMat2 := RotationZ (B32.div D3DX_PI (B32.of_Z 4)) in
    t <- timeGetTime ;;
    let rotateMat := RotationY (spin t) in
    let moveMat := Translation (k2X g) (k2Y g) f0 in
    let root2 := B64.mul (to_double (B32.sqrt (B32.of_Z 2))) (B64.of_Z 1000) in
    t <- timeGetTime ;;
    modify (set_k2Y (add_assign (k2Y g)
      (B64.div (B64.mul (B64.lit 1 2) (to_double (elapsed t (pretime g)))) root2))) ;;
    t <- timeGetTime ;;
    modify (set_k2X (add_assign (k2X g)
      (B64.div (B64.mul (B64.lit 1 2) (to_double (elapsed t (pretime g)))) root2))) ;;
    draw (MatMul (MatMul rotateMat rotateMat2) moveMat) 18 ;;
    emit A4 (fun g => (k2X g, k2Y g, B32.div D3DX_PI (B32.of_Z 4)))
  else when (negb (flag_at (compFlag g) 4)) (modify (set_flag 4 true)).

(** Lines 494-512: the diagonal going down at 60 degrees, spinning the
    other way. *)
Definition actor_k3 : M unit :=
  g <- get ;;
  If k3_moving g then
    let rotateMat2 := RotationZ (B32.div (B32.opp D3DX_PI) (B32.of_Z 3)) in
    t <- timeGetTime ;;
    let rotateMat := RotationY (to_float (quarter t)) in
    let moveMat := Translation (k3X g) (k3Y g) f0 in
    t <- timeGetTime ;;
    modify (set_k3Y (sub_assign (k3Y g)
      (B64.div (B64.mul (B64.mul (to_double (B32.sqrt (B32.of_Z 3))) (B64.lit 1 2))
                        (to_double (elapsed t (pretime g))))
               (B64.of_Z 2000)))) ;;
    t <- timeGetTime ;;
    modify (set_k3X (add_assign (k3X g)
      (B64.div (B64.mul (B64.lit 1 2) (to_double (elapsed t (pretime g))))
               (B64.of_Z 2000)))) ;;
    draw (MatMul (MatMul rotateMat rotateMat2) moveMat) 18 ;;
    emit A5 (fun g => (k3X g, k3Y g, B32.div (B32.opp D3DX_PI) (B32.of_Z 3)))
  else when (negb (flag_at (compFlag g) 5)) (modify (set_flag 5 true)).

(** Lines 514-530. *)
Definition actor_e1 : M unit :=
  g <- get ;;
  If e1_moving g then
    t <- timeGetTime ;;
    let rotateMat := RotationX (spin t) in
    let moveMat := Translation (to_float (B64.lit 1 2)) (e1 g) f0 in
    t <- timeGetTime ;;
    modify (set_e1 (sub_assign (e1 g) (stride t (pretime g)))) ;;
    draw (MatMul rotateMat moveMat) 18 ;;
    emit A6 (fun g => (to_float (B64.lit 1 2), e1 g, f0))
  else when (negb (flag_at (compFlag g) 6)) (modify (set_flag 6 true)).

(** Lines 532-578: three actors on the one scalar [e234]. *)
Definition actor_e234 : M unit :=
  g <- get ;;
  If e234_moving g then
    t <- timeGetTime ;;
    draw (MatMul (RotationY (spin t)) (Translation (e234 g) f1_5 f0)) 18 ;;
    emit A7 (fun g => (e234 g, f1_5, f0)) ;;
    g <- get ;;
    t <- timeGetTime ;;
    draw (MatMul (RotationY (spin t)) (Translation (e234 g) f0 f0)) 18 ;;
    emit A8 (fun g => (e234 g, f0, f0)) ;;
    g <- get ;;
    t <- timeGetTime ;;
    let rotateMat := RotationY (spin t) in
    let moveMat := Translation (e234 g) (to_float (B64.opp (B64.lit 15 10))) f0 in
    t <- timeGetTime ;;
    modify (set_e234 (add_assign (e234 g) (stride t (pretime g)))) ;;
    draw (MatMul rotateMat moveMat) 18 ;;
    emit A9 (fun g => (e234 g, to_float (B64.opp (B64.lit 15 10)), f0))
  else
    modify (set_flag 7 true) ;; modify (set_flag 8 true) ;; modify (set_flag 9 true).

(** Lines 580-596. *)
Definition actor_p1 : M unit :=
  g <- get ;;
  If p1_moving g then
    t <- timeGetTime ;;
    let rotateMat := RotationX (spin t) in
    let moveMat := Translation (to_float (B64.lit 23 10)) (p1 g) f0 in
    t <- timeGetTime ;;
    modify (set_p1 (sub_assign (p1 g) (stride t (pretime g)))) ;;
    draw (MatMul rotateMat moveMat) 18 ;;
    emit A10 (fun g => (to_float (B64.lit 23 10), p1 g, f0))
  else when (negb (flag_at (compFlag g) 10)) (modify (set_flag 10 true)).

(** Lines 598-615: the arc, parameterised by the angle [p2]. *)
Definition actor_p2 : M unit :=
  g <- get ;;
  If p2_moving g then
    let rotateMat := RotationZ (p2 g) in
    t <- timeGetTime ;;
    let rotateMat2 := RotationX (spin t) in
    let moveMat := Translation (p2_x (p2 g)) (p2_y (p2 g)) f0 in
    t <- timeGetTime ;;
    modify (set_p2 (sub_assign (p2 g) (stride t (pretime g)))) ;;
    draw (MatMul (MatMul rotateMat2 rotateMat) moveMat) 18 ;;
    emit A11 (fun g => (p2_x (p2 g), p2_y (p2 g), p2 g))
  else when (negb (flag_at (compFlag g) 11)) (modify (set_flag 11 true)).

(** ** [Render] *)

(** Lines 343-383: the quads at the starting positions.  Of the nine
    placements written in the source, four are commented out. *)
Definition static_quads : M unit :=
  draw (Translation (B32.of_Z (-3)) f1_5 f0) 4 ;;
  draw (Translation (B32.of_Z (-3)) (to_float (B64.opp (B64.lit 15 10))) f0) 4 ;;
  draw (Translation (to_float (B64.opp (B64.lit 13 10))) f1_5 f0) 4 ;;
  draw (Translation (to_float (B64.lit 1 2)) f1_5 f0) 4 ;;
  draw (Translation (to_float (B64.lit 23 10)) f1_5 f0) 4.

(** One iteration of the loop of lines 385-391. *)
Definition draw_square (i : nat) : M unit :=
  g <- get ;;
  let '(x, y, a) := squarePos g !!! i in
  draw (MatMul (RotationZ a) (Translation x y f0)) 4.

Definition trail : M unit :=
  g <- get ;;
  for_loop (Z.to_nat (index g)) 0 draw_square.

(** Lines 620-624: the flags are scanned in order up to the first one that
    is not set. *)
Fixpoint count_flags (n i : nat) (flags : list bool) : Z :=
  match n with
  | O => 0
  | S n' => if negb (flag_at flags i) then 0 else 1 + count_flags n' (S i) flags
  end.

(** Lines 630-663. *)
Definition reset (g : globals) : globals :=
  {| I1 := B32.of_Z (-3);
     I2 := f1_5;
     I3 := B32.of_Z (-3);
     K1 := f1_5;
     k2X := to_float (B64.opp (B64.lit 13 10));
     k3X := to_float (B64.opp (B64.lit 11 10));
     k2Y := B32.of_Z 0;
     k3Y := to_float (B64.lit 2 10);
     e1 := f1_5;
     e234 := to_float (B64.lit 1 2);
     p1 := f1_5;
     p2 := B32.div D3DX_PI (B32.of_Z 2);
     i1_r := B32.of_Z 0; i2_r := B32.of_Z 0; i3_r := B32.of_Z 0;
     k1_r := B32.of_Z 0; k2_r := B32.of_Z 0; k3_r := B32.of_Z 0;
     e1_r := B32.of_Z 0; e2_r := B32.of_Z 0; e3_r := B32.of_Z 0;
     e4_r := B32.of_Z 0; p1_r := B32.of_Z 0; p2_r := B32.of_Z 0;
     pretime := pretime g;
     squarePos := foldl (fun a i => <[i := (f0, f0, f0)]> a) (squarePos g) (seq 0 1000);
     index := 0;
     compFlag := foldl (fun a i => <[i := false]> a) (compFlag g) (seq 0 12);
     endTime := endTime g;
     endGet := false;
     g_aspect := g_aspect g |}.

(** Lines 620-665.  The result tells whether the reset of lines 630-663
    ran; the C++ function returns nothing. *)
Definition gate : M bool :=
  g <- get ;;
  let count := count_flags 12 0 (compFlag g) in
  If 12 <=? count then
    when (negb (endGet g)) (
      t <- timeGetTime ;;
      modify (set_endTime (B32.of_Z t)) ;;
      modify (set_endGet true)) ;;
    t <- timeGetTime ;;
    g <- get ;;
    If fgt (B32.sub (B32.of_Z t) (endTime g)) (B32.of_Z (1000 * 5)) then
      modify reset ;; ret true
    else ret false
  else ret false.

(** The twelve blocks in source order. *)
Definition actors : M unit :=
  actor_I1 ;; actor_I2 ;; actor_I3 ;; actor_K1 ;; actor_k2 ;; actor_k3 ;;
  actor_e1 ;; actor_e234 ;; actor_p1 ;; actor_p2.

Definition Render : M bool :=
  call Clear ;;
  call BeginScene ;;
  ok <- BeginScene_succeeded ;;
  r <- (If ok then
          call SetupLights ;;
          g <- get ;;
          call (SetupMatrices (g_aspect g)) ;;
          call (SetStreamSource g_pVB2) ;;
          static_quads ;;
          trail ;;
          call (SetStreamSource g_pVB) ;;
          call SetFVF ;;
          actors ;;
          t <- timeGetTime ;;
          modify (set_pretime (B32.of_Z t)) ;;
          r <- gate ;;
          call EndScene ;;
          ret r
        else ret false) ;;
  call Present ;;
  ret r.

(** One frame from the globals [g]: the globals after it, whether it reset
    the sequencer, the device calls it made and the clock reads it used. *)
Definition frame_start (g : globals) : machine := Machine g 0 [].
Definition Render_globals (e : env) (g : globals) : globals :=
  vars (exec Render e (frame_start g)).
Definition Render_resets (e : env) (g : globals) : bool :=
  fst (Render e (frame_start g)).
Definition Render_calls (e : env) (g : globals) : list d3d_call :=
  calls (exec Render e (frame_start g)).
Definition Render_ticks (e : env) (g : globals) : nat :=
  ticks (exec Render e (frame_start g)).

(** ** [MsgProc] and [wWinMain] *)

Definition WM_DESTROY : Z := 2.
Definition WM_SIZE : Z := 5.

(** Lines 682-700.  [WM_DESTROY] releases the device objects and posts the
    quit message; neither touches the globals of the sequencer. *)
Definition MsgProc (msg lParam : Z) (g : globals) : globals :=
  if msg =? WM_DESTROY then g
  else if msg =? WM_SIZE then
    let width := B32.of_Z (Z.land lParam 65535) in
    let height := B32.of_Z (Z.land (Z.shiftr lParam 16) 65535) in
    set_g_aspect (B32.div width height) g
  else g.

(** The globals when the message loop is entered: the initialisers of
    lines 50 and 288-320, zero for the variables without one, and the two
    assignments of lines 711-714, [t0] being the reading of [timeGetTime]
    there. *)
Definition initial_globals (t0 : Z) : globals :=
  {| I1 := B32.of_Z (-3);
     I2 := f1_5;
     I3 := B32.of_Z (-3);
     K1 := f1_5;
     k2X := to_float (B64.opp (B64.lit 13 10));
     k3X := to_float (B64.opp (B64.lit 11 10));
     k2Y := B32.of_Z 0;
     k3Y := to_float (B64.lit 2 10);
     e1 := f1_5;
     e234 := to_float (B64.lit 1 2);
     p1 := f1_5;
     p2 := B32.div D3DX_PI (B32.of_Z 2);
     i1_r := B32.of_Z 0; i2_r := B32.of_Z 0; i3_r := B32.of_Z 0;
     k1_r := B32.of_Z 0; k2_r := B32.of_Z 0; k3_r := B32.of_Z 0;
     e1_r := B32.of_Z 0; e2_r := B32.of_Z 0; e3_r := B32.of_Z 0;
     e4_r := B32.of_Z 0; p1_r := B32.of_Z 0; p2_r := B32.of_Z 0;
     pretime := B32.of_Z (wrapU32 t0);
     squarePos := replicate 1000 (f0, f0, f0);
     index := 0;
     compFlag := foldl (fun a i => <[i := false]> a) (replicate 12 false) (seq 0 12);
     endTime := f0;
     endGet := false;
     g_aspect := B32.lit 16 10 |}.

(** The message loop of lines 745-754 takes a pending message if there is
    one and renders a frame otherwise. *)
Inductive input :=
  | Message (msg lParam : Z)
  | Frame (e : env).

Definition step (g : globals) (i : input) : globals :=
  match i with
  | Message msg lParam => MsgProc msg lParam g
  | Frame e => Render_globals e g
  end.

Definition run (g : globals) (inputs : list input) : globals := foldl step g inputs.

(** The states of the globals the program can be in. *)
Inductive reachable : globals -> Prop :=
  | reachable_start t0 : reachable (initial_globals t0)
  | reachable_step g i : reachable g -> reachable (step g i).

(** ** Observations on the sequencer *)

Definition all_actors : list actor :=
  [A0; A1; A2; A3; A4; A5; A6; A7; A8; A9; A10; A11].

(** [compFlag[i]]. *)
Definition completed (a : actor) (g : globals) : bool :=
  flag_at (compFlag g) (actor_id a).

(** The variables that place an actor: one coordinate, two for the
    diagonals, the shared [e234] for actors 7 to 9 and the angle [p2] for
    the arc. *)
Definition position (a : actor) (g : globals) : list float :=
  match a with
  | A0 => [I1 g] | A1 => [I2 g] | A2 => [I3 g] | A3 => [K1 g]
  | A4 => [k2X g; k2Y g] | A5 => [k3X g; k3Y g] | A6 => [e1 g]
  | A7 | A8 | A9 => [e234 g]
  | A10 => [p1 g] | A11 => [p2 g]
  end.

(** The condition under which the actor's block still moves it. *)
Definition moving (a : actor) (g : globals) : bool :=
  match a with
  | A0 => I1_moving g | A1 => I2_moving g | A2 => I3_moving g
  | A3 => K1_moving g | A4 => k2_moving g | A5 => k3_moving g
  | A6 => e1_moving g
  | A7 | A8 | A9 => e234_moving g
  | A10 => p1_moving g | A11 => p2_moving g
  end.

(** The state of the sequencer proper: actors, completion gate, trail and
    latch.  Left out are [pretime] (the clock of the previous frame),
    [g_aspect] (the camera) and [endTime], which is read only while
    [endGet] is set. *)
Definition sequencer_state (g : globals) :=
  (map (fun a => position a g) all_actors,
   map (fun a => phase a g) all_actors,
   compFlag g, squarePos g, index g, endGet g).

End Sequencer.

(** ** A sample C runtime, for concrete runs *)

(** The argument is reduced to [[-pi, pi]] by subtracting the nearest
    multiple of [2 pi]; cosine and sine are then the Taylor polynomials of
    degree 20 and 21, evaluated in [double] by Horner's rule and rounded to
    [float]. *)
Definition two_pi : double := B64.lit 6283185307179586 1000000000000000.

Definition reduce (x : double) : double :=
  let q := B64.div x two_pi in
  let half := if flt q (B64.of_Z 0) then B64.opp (B64.lit 1 2) else B64.lit 1 2 in
  match ftrunc (B64.add q half) with
  | Some k => B64.sub x (B64.mul (B64.of_Z k) two_pi)
  | None => x
  end.

Definition horner (y : double) (ks : list Z) : double :=
  fold_right (fun k acc => B64.sub (B64.of_Z 1) (B64.mul (B64.div y (B64.of_Z k)) acc))
    (B64.of_Z 1) ks.

Definition cos_sample (x : float) : float :=
  let r := reduce (to_double x) in
  to_float (horner (B64.mul r r) [2; 12; 30; 56; 90; 132; 182; 240; 306; 380]).

Definition sin_sample (x : float) : float :=
  let r := reduce (to_double x) in
  to_float (B64.mul r
    (horner (B64.mul r r) [6; 20; 42; 72; 110; 156; 210; 272; 342; 420])).

(** A frame in which every clock read returns [now] and [BeginScene]
    succeeds. *)
Definition at_time (now : Z) : env := Env (fun _ => now) true.

(** Runs of the program with the sample runtime, started with the clock
    at 0. *)
Definition sample_run (inputs : list input) : globals :=
  run cos_sample sin_sample (initial_globals 0) inputs.

(** Frames 16 ms apart, right after actor 0 has passed its stop. *)
Definition first_arrival : globals :=
  sample_run [Frame (at_time 2200); Frame (at_time 2216)].

(** One frame seven seconds after the start carries every actor past its
    stop; the next one sets the twelve flags and latches. *)
Definition one_jump : globals := sample_run [Frame (at_time 7000)].
Definition all_arrived : globals :=
  sample_run [Frame (at_time 7000); Frame (at_time 7000)].

(** The same on a machine that has been up for [2 ^ 31] ms, where
    consecutive [float]s are 256 ms apart: the frame read 7168 ms after the
    start carries every actor past its stop, and the next one, read 127 ms
    later, sets the twelve flags and latches. *)
Definition uptime : Z := 2 ^ 31.
Definition late_jump : globals :=
  run cos_sample sin_sample (initial_globals uptime)
    [Frame (at_time (uptime + 7168))].
Definition late_hold : globals :=
  run cos_sample sin_sample (initial_globals uptime)
    [Frame (at_time (uptime + 7168)); Frame (at_time (uptime + 7295))].

(** The clock is a [DWORD] and wraps after [2 ^ 32] ms.  The first frame
    read after the wrap sees a large negative elapsed time, which throws
    every actor far behind its start; all but the last keep moving from
    then on, and with frames 500 ms apart each of them records an entry in
    every frame: after 91 frames the trail is full. *)
Definition after_wrap (n : nat) : list input :=
  map (fun k => Frame (at_time (500 * Z.of_nat (S k)))) (seq 0 n).
Definition full_trail : globals :=
  run cos_sample sin_sample (initial_globals (2 ^ 32 - 500)) (after_wrap 91).

(** The square that actor 0 records. *)
Definition I1_square (g : globals) : square := (I1 g, f1_5, f0).

(** A frame whose first clock read returns 2200 and the later ones 2700. *)
Definition late_second_read : env :=
  Env (fun k => if (k =? 0)%nat then 2200 else 2700) true.

(** A frame whose first 51 reads return 5. *)
Definition fifty_one_reads : env :=
  Env (fun k => if (k <? 51)%nat then 5 else 7) true.

(** ** Hoare triples over the frame monad *)

(** [triple e P c Q]: run in the environment [e] from a machine satisfying
    [P], the computation [c] returns a value and a machine satisfying [Q]. *)
Definition triple {A} (e : env) (P : machine -> Prop) (c : M A)
    (Q : A -> machine -> Prop) : Prop :=
  forall m, P m -> Q (fst (c e m)) (snd (c e m)).

(** A property of the globals that [c] preserves. *)
Definition stable {A} (e : env) (S : globals -> Prop) (c : M A) : Prop :=
  triple e (fun m => S (vars m)) c (fun _ m => S (vars m)).

(** A computation that leaves the globals and the clock alone. *)
Definition silent {A} (c : M A) : Prop :=
  forall e m, vars (snd (c e m)) = vars m /\ ticks (snd (c e m)) = ticks m.

Section Invariants.

Variable cosf : float -> float.

(** What the flag of a completed actor records: its terminal condition has
    failed, at the position and phase it now has. *)
Definition frozen_at (a : actor) (p : list float) (r : float) (g : globals) : Prop :=
  completed a g = true /\ moving cosf a g = false /\
  position a g = p /\ phase a g = r.

(** A completed actor no longer satisfies the condition of its block. *)
Definition settled (g : globals) : Prop :=
  forall a, completed a g = true -> moving cosf a g = false.

(** The arrays have the sizes of their declarations and the write cursor
    of the trail lies within the trail. *)
Definition well_formed (g : globals) : Prop :=
  length (compFlag g) = 12%nat /\ length (squarePos g) = 1000%nat /\
  0 <= index g <= indexMax.

(** Actors 7, 8 and 9 carry the same flag. *)
Definition e234_flags_agree (g : globals) : Prop :=
  completed A7 g = completed A8 g /\ completed A8 g = completed A9 g.

End Invariants.

(** The device calls of the static quads and of the recorded trail. *)
Definition static_calls : list d3d_call :=
  [ SetTransform (Translation (B32.of_Z (-3)) f1_5 f0); DrawPrimitive 0 4;
    SetTransform (Translation (B32.of_Z (-3)) (to_float (B64.opp (B64.lit 15 10))) f0);
    DrawPrimitive 0 4;
    SetTransform (Translation (to_float (B64.opp (B64.lit 13 10))) f1_5 f0);
    DrawPrimitive 0 4;
    SetTransform (Translation (to_float (B64.lit 1 2)) f1_5 f0); DrawPrimitive 0 4;
    SetTransform (Translation (to_float (B64.lit 23 10)) f1_5 f0); DrawPrimitive 0 4 ].

Definition square_calls (sq : square) : list d3d_call :=
  let '(x, y, a) := sq in
  [ SetTransform (MatMul (RotationZ a) (Translation x y f0)); DrawPrimitive 0 4 ].

Definition trail_calls (g : globals) : list d3d_call :=
  flat_map (fun i => square_calls (squarePos g !!! i)) (seq 0 (Z.to_nat (index g))).

(** A draw of the flat quad: four primitives of the strip. *)
Definition is_quad_draw (c : d3d_call) : bool :=
  match c with
  | DrawPrimitive _ 4 => true
  | _ => false
  end.

(** The calls of an actor block: world transforms and draws of the cuboid. *)
Definition cuboid_call (c : d3d_call) : Prop :=
  match c with
  | SetTransform _ | DrawPrimitive 0 18 => True
  | _ => False
  end.

(** A computation that only adds calls satisfying [P] to the device log. *)
Definition appends {A} (P : d3d_call -> Prop) (c : M A) : Prop :=
  forall e m, exists l, calls (snd (c e m)) = calls m ++ l /\ Forall P l.

(** The same, naming the calls added: those made from an empty log. *)
Definition logs {A} (P : d3d_call -> Prop) (c : M A) : Prop :=
  forall e g t l,
    calls (snd (c e (Machine g t l))) = l ++ calls (snd (c e (Machine g t []))) /\
    Forall P (calls (snd (c e (Machine g t [])))).

(** A computation that reads at most the next [n] readings of the clock:
    in two environments that agree on them (and on [BeginScene]) it returns
    the same result, having advanced the count of reads by at most [n]. *)
Definition reads_within {A} (n : nat) (c : M A) : Prop :=
  forall e e' m,
    begin_ok e = begin_ok e' ->
    (forall k, (ticks m <= k < ticks m + n)%nat -> clock e k = clock e' k) ->
    c e m = c e' m /\ (ticks m <= ticks (snd (c e m)) <= ticks m + n)%nat.

(** A positive finite number. *)
Definition is_positive_finite (x : spec_float) : bool :=
  match x with
  | S754_finite false _ _ => true
  | _ => false
  end.

(** ** Invariants used by the proofs *)

(** A full trail stays as it is through the actor blocks. *)
Definition trail_full_at (sq : list square) (g : globals) : Prop :=
  index g = indexMax /\ squarePos g = sq.

(** The invariant that carries the agreement of the three flags. *)
Definition e234_inv (g : globals) : Prop := well_formed g /\ e234_flags_agree g.

(** The latch of the hold and the time it holds. *)
Definition latch_is (b : bool) (v : float) (g : globals) : Prop :=
  endGet g = b /\ endTime g = v.

(** The [float] nearest to -1.9, which is above -1.9. *)
Definition I1_stop : float := to_float (B64.opp (B64.lit 19 10)).

(** The first two actors at the start, and after the first has passed its
    stop. *)
Definition at_start (g : globals) : Prop :=
  I1 g = B32.of_Z (-3) /\ I2 g = f1_5 /\ pretime g = B32.of_Z 0 /\
  flag_at (compFlag g) 0 = false /\ flag_at (compFlag g) 1 = false.

Definition arrived (flag0 : bool) (g : globals) : Prop :=
  I1 g = I1_stop /\ flag_at (compFlag g) 0 = flag0 /\
  flag_at (compFlag g) 1 = false.

Definition arriving (g : globals) : Prop :=
  arrived false g /\ I2_moving g = true /\ length (compFlag g) = 12%nat.

(** ** Observations on the device log *)

(** The calls a frame makes before its actor blocks. *)
Definition opening_calls (g : globals) : list d3d_call :=
  [Clear; BeginScene; SetupLights; SetupMatrices (g_aspect g);
   SetStreamSource g_pVB2]
  ++ static_calls ++ trail_calls g ++ [SetStreamSource g_pVB; SetFVF].

(** A draw of the cuboid: eighteen primitives of the strip. *)
Definition is_cuboid_draw (c : d3d_call) : bool :=
  match c with
  | DrawPrimitive _ 18 => true
  | _ => false
  end.

(** The calls that delimit a frame. *)
Definition is_scene_call (c : d3d_call) : bool :=
  match c with
  | Clear | BeginScene | EndScene | Present => true
  | _ => false
  end.

(** The number of cuboid draws in a log. *)
Definition cuboids (l : list d3d_call) : nat := length (filter is_cuboid_draw l).

Section Movers.

Variable cosf : float -> float.

(** What a block does for the actors [l] it owns: it draws one cuboid for
    each of them that is moving and leaves the conditions of the others as
    they are. *)
Definition draws_movers (l : list actor) (c : M unit) : Prop :=
  forall e m,
    cuboids (calls (snd (c e m))) =
      (cuboids (calls m) +
       sum_list_with (fun a => Nat.b2n (moving cosf a (vars m))) l)%nat /\
    forall b, ~ In b l ->
      moving cosf b (vars (snd (c e m))) = moving cosf b (vars m).

End Movers.

(** The trail has grown by at most [k] entries beyond its first [i0], which
    are those of [sq0]. *)
Definition trail_extends (sq0 : list square) (i0 k : Z) (g : globals) : Prop :=
  0 <= i0 /\ i0 <= index g <= i0 + k /\
  take (Z.to_nat i0) (squarePos g) = take (Z.to_nat i0) sq0.

(** While the latch is set, the flag of the actor [a] is set. *)
Definition latched_complete (a : actor) (g : globals) : Prop :=
  endGet g = true -> completed a g = true.

(** The place of an actor's block among the ten blocks of [Render]. *)
Definition block_of (a : actor) : nat :=
  match a with
  | A0 => 0 | A1 => 1 | A2 => 2 | A3 => 3 | A4 => 4 | A5 => 5 | A6 => 6
  | A7 | A8 | A9 => 7
  | A10 => 8 | A11 => 9
  end%nat.

Section Stopping.

Variable cosf : float -> float.

(** The actor [a] has stopped, and its flag is set once the first [i]
    blocks include its own. *)
Definition stopped_before (a : actor) (i : nat) (g : globals) : Prop :=
  well_formed g /\ moving cosf a g = false /\
  ((block_of a <? i)%nat = true -> completed a g = true).

End Stopping.

Section Stopped.

Variable cosf : float -> float.

(** The actor [a] has stopped at the position [p] with the phase
    reference [r]. *)
Definition stopped_at (a : actor) (p : list float) (r : float) (g : globals) : Prop :=
  moving cosf a g = false /\ position a g = p /\ phase a g = r.

End Stopped.

(** An input of the message loop that is a [WM_SIZE] message. *)
Definition is_resize (i : input) : bool :=
  match i with
  | Message msg _ => msg =? WM_SIZE
  | Frame _ => false
  end.

(** The draws of a device log, each with the vertex buffer that is bound
    when it is made: [src] at the start of the log, then the one of the last
    [SetStreamSource]. *)
Fixpoint draws_of (src : option vertex_buffer) (l : list d3d_call)
    : list (option vertex_buffer * Z * Z) :=
  match l with
  | [] => []
  | SetStreamSource vb :: l' => draws_of (Some vb) l'
  | DrawPrimitive start count :: l' => (src, start, count) :: draws_of src l'
  | _ :: l' => draws_of src l'
  end.

(** ** [InitGeometry] *)

Inductive HRESULT := S_OK | E_FAIL.

(** Which of the four device calls of [InitGeometry] succeed. *)
Record geometry_calls := GeometryCalls {
  create_vb : bool;
  lock_vb : bool;
  create_vb2 : bool;
  lock_vb2 : bool
}.

Definition vec3 : Type := float * float * float.

(** A vertex buffer: [50 * 2 * sizeof(CUSTOMVERTEX)] bytes hold 100
    vertices; a vertex holds what was last written to it, if anything was. *)
Abbreviation buffer := (list (option vec3)).
Definition new_buffer : buffer := replicate (50 * 2) None.

(** The two globals [g_pVB] and [g_pVB2]: [None] is [NULL]. *)
Record geometry := Geometry {
  vb : option buffer;
  vb2 : option buffer
}.

(** [float len = 0.1f]. *)
Definition len : float := B32.lit 1 10.

(** [pVertices[i].position = v], for the assignments in source order. *)
Definition write_vertices (ws : list (nat * vec3)) (b : buffer) : buffer :=
  foldl (fun b w => <[fst w := Some (snd w)]> b) b ws.

(** Lines 116-140. *)
Definition cuboid_vertices : list (nat * vec3) :=
  let l := len in let n := B32.opp len in let z := B32.of_Z 0 in
  [ (0, (n, n, n)); (1, (n, l, n)); (2, (l, n, n)); (3, (l, l, n));
    (4, (l, n, l)); (5, (l, l, l)); (6, (n, n, l)); (7, (n, l, l));
    (8, (n, n, n)); (9, (n, l, n)); (10, (l, l, n)); (11, (l, l, l));
    (12, (n, l, l)); (13, (n, l, n)); (14, (n, n, n)); (15, (l, n, n));
    (16, (l, n, l)); (17, (n, n, l)); (18, (n, n, n));
    (19, (n, n, z)); (20, (n, l, z)); (21, (l, l, z)); (22, (l, n, z));
    (23, (n, n, z)) ]%nat.

(** Lines 160-164. *)
Definition quad_vertices : list (nat * vec3) :=
  let l := len in let n := B32.opp len in let z := B32.of_Z 0 in
  [ (0, (n, n, z)); (1, (n, l, z)); (2, (l, l, z)); (3, (l, n, z));
    (4, (n, n, z)) ]%nat.

(** Lines 99-169, from the start-up state in which both pointers are
    [NULL]. *)
Definition InitGeometry (r : geometry_calls) : HRESULT * geometry :=
  if negb (create_vb r) then (E_FAIL, Geometry None None)
  else if negb (lock_vb r) then (E_FAIL, Geometry (Some new_buffer) None)
  else
    let b := write_vertices cuboid_vertices new_buffer in
    if negb (create_vb2 r) then (E_FAIL, Geometry (Some b) None)
    else if negb (lock_vb2 r) then (E_FAIL, Geometry (Some b) (Some new_buffer))
    else (S_OK, Geometry (Some b) (Some (write_vertices quad_vertices new_buffer))).

(** The buffer a [vertex_buffer] of the device log stands for. *)
Definition buffer_of (geo : geometry) (v : vertex_buffer) : option buffer :=
  match v with
  | g_pVB => vb geo
  | g_pVB2 => vb2 geo
  end.

(** Whether [InitGeometry] has written the vertex [i] of a buffer. *)
Definition written (b : option buffer) (i : nat) : bool :=
  match b with
  | Some l => match l !! i with Some (Some _) => true | _ => false end
  | None => false
  end.

(** Direct3D's rule for [D3DPT_TRIANGLESTRIP]: a draw of [count]
    primitives from [start] reads the [count + 2] vertices from [start]
    on. *)
Definition strip_vertices (start count : Z) : list nat :=
  seq (Z.to_nat start) (Z.to_nat count + 2).

(** ** More concrete inputs *)

(** A frame in which every clock read returns [now] and [BeginScene]
    fails. *)
Definition lost_device (now : Z) : env := Env (fun _ => now) false.

(** The [lParam] of a [WM_SIZE] message for a client area of 1264 by
    761. *)
Definition sized_1264_761 : Z := 761 * 65536 + 1264.

(** All four device calls of [InitGeometry] succeed. *)
Definition geometry_ok : geometry_calls := GeometryCalls true true true true.

Section Running.

Variable cosf : float -> float.

(** The flag of the actor [a] is unset, and its block, if it is not among
    the first [i], will move it. *)
Definition running_from (a : actor) (i : nat) (g : globals) : Prop :=
  completed a g = false /\
  ((i <=? block_of a)%nat = true -> moving cosf a g = true).

End Running.

(** * Properties *)

(** ** Rules of the triples *)

Lemma triple_ret {A} e (P : machine -> Prop) (a : A) (Q : A -> machine -> Prop) :
  (forall m, P m -> Q a m) -> triple e P (ret a) Q.
Proof. intros H m Hm. apply H, Hm. Qed.

Lemma triple_bind {A B} e P (c : M A) (k : A -> M B) R Q :
  triple e P c R -> (forall a, triple e (R a) (k a) Q) ->
  triple e P (bind c k) Q.
Proof.
  intros Hc Hk m Hm. unfold bind. specialize (Hc m Hm).
  destruct (c e m) as [a m']. apply (Hk a m' Hc).
Qed.

Lemma triple_branch {A} e P (b : bool) (c1 c2 : M A) Q :
  (b = true -> triple e P c1 Q) -> (b = false -> triple e P c2 Q) ->
  triple e P (branch b c1 c2) Q.
Proof.
  intros H1 H2 m Hm. unfold branch.
  destruct b; [apply H1 | apply H2]; auto.
Qed.

Lemma triple_weaken {A} e (P P' : machine -> Prop) (c : M A)
    (Q Q' : A -> machine -> Prop) :
  triple e P' c Q' -> (forall m, P m -> P' m) ->
  (forall a m, Q' a m -> Q a m) -> triple e P c Q.
Proof. intros H HP HQ m Hm. apply HQ, H, HP, Hm. Qed.

Lemma stable_bind {A B} e S (c : M A) (k : A -> M B) :
  stable e S c -> (forall a, stable e S (k a)) -> stable e S (bind c k).
Proof. intros Hc Hk. eapply triple_bind; [exact Hc | exact Hk]. Qed.

Lemma silent_stable {A} e S (c : M A) : silent c -> stable e S c.
Proof. intros H m Hm. destruct (H e m) as [-> _]. exact Hm. Qed.

Lemma silent_bind {A B} (c : M A) (k : A -> M B) :
  silent c -> (forall a, silent (k a)) -> silent (bind c k).
Proof.
  intros Hc Hk e m. unfold bind.
  destruct (Hc e m) as [Hv Ht]. destruct (c e m) as [a m']. simpl in *.
  destruct (Hk a e m') as [Hv' Ht']. split; congruence.
Qed.

Lemma silent_call c : silent (call c).
Proof. intros e m. split; reflexivity. Qed.

Lemma silent_get : silent get.
Proof. intros e m. split; reflexivity. Qed.

Lemma silent_ret {A} (a : A) : silent (ret a).
Proof. intros e m. split; reflexivity. Qed.

Lemma silent_draw w n : silent (draw w n).
Proof. apply silent_bind; intros; apply silent_call. Qed.

Lemma silent_static_quads : silent static_quads.
Proof.
  unfold static_quads.
  repeat (apply silent_bind; [apply silent_draw | intros _]).
  apply silent_draw.
Qed.

Lemma silent_for_loop n i body :
  (forall j, silent (body j)) -> silent (for_loop n i body).
Proof.
  intros Hb. revert i. induction n as [|n IH]; intros i; simpl.
  - apply silent_ret.
  - apply silent_bind; [apply Hb | intros _; apply IH].
Qed.

Lemma silent_draw_square i : silent (draw_square i).
Proof.
  apply silent_bind; [apply silent_get | intros g].
  destruct (squarePos g !!! i) as [[x y] a]. apply silent_draw.
Qed.

Lemma silent_trail : silent trail.
Proof.
  apply silent_bind; [apply silent_get | intros g].
  apply silent_for_loop, silent_draw_square.
Qed.

(** ** Completion flags *)

Lemma flag_at_set_true (l : list bool) (i j : nat) :
  flag_at l j = true -> flag_at (<[i := true]> l) j = true.
Proof.
  unfold flag_at. intros H. destruct (decide (i = j)) as [->|Hne].
  - destruct (l !! j) as [b|] eqn:E; [|discriminate].
    rewrite list_lookup_insert_eq; [reflexivity|].
    apply lookup_lt_is_Some. eauto.
  - rewrite list_lookup_insert_ne by assumption. exact H.
Qed.

Lemma flag_at_set_other (l : list bool) (i j : nat) (b : bool) :
  i <> j -> flag_at (<[i := b]> l) j = flag_at l j.
Proof. intros H. unfold flag_at. rewrite list_lookup_insert_ne; auto. Qed.

Lemma flag_at_set_here (l : list bool) (i : nat) (b : bool) :
  (i < length l)%nat -> flag_at (<[i := b]> l) i = b.
Proof. intros H. unfold flag_at. rewrite list_lookup_insert_eq; auto. Qed.

Lemma flag_at_clear (l : list bool) (i : nat) : flag_at (<[i := false]> l) i = false.
Proof.
  unfold flag_at. destruct (decide (i < length l)%nat).
  - rewrite list_lookup_insert_eq by assumption. reflexivity.
  - rewrite lookup_ge_None_2; [reflexivity|]. rewrite length_insert. lia.
Qed.

Lemma flag_at_clear_flags (l : list bool) (i : nat) :
  (i < 12)%nat ->
  flag_at (foldl (fun a i => <[i := false]> a) l (seq 0 12)) i = false.
Proof.
  intros Hi. cbn [foldl seq].
  do 12 (destruct i as [|i];
         [repeat (rewrite flag_at_set_other by discriminate); apply flag_at_clear|]).
  lia.
Qed.

(** ** Symbolic execution of the blocks *)

Ltac step_block :=
  cbv beta iota zeta delta
    [exec bind ret get modify call draw when branch timeGetTime fst snd
     vars ticks calls
     actor_I1 actor_I2 actor_I3 actor_K1 actor_k2 actor_k3 actor_e1 actor_e234
     actor_p1 actor_p2 emit crosses stamp set_phase gate reset push_square
     set_flag
     completed moving position phase actor_id frozen_at well_formed
     e234_flags_agree
     I1_moving I2_moving I3_moving K1_moving k2_moving k3_moving e1_moving
     e234_moving p1_moving p2_moving
     set_I1 set_I2 set_I3 set_K1 set_k2X set_k3X set_k2Y set_k3Y set_e1 set_e234
     set_p1 set_p2 set_i1_r set_i2_r set_i3_r set_k1_r set_k2_r set_k3_r set_e1_r
     set_e2_r set_e3_r set_e4_r set_p1_r set_p2_r set_pretime set_squarePos
     set_index set_compFlag set_endTime set_endGet set_g_aspect
     I1 I2 I3 K1 k2X k3X k2Y k3Y e1 e234 p1 p2 i1_r i2_r i3_r k1_r k2_r k3_r e1_r
     e2_r e3_r e4_r p1_r p2_r pretime squarePos index compFlag endTime endGet
     g_aspect] in *.

Ltac split_ifs :=
  repeat (step_block;
          match goal with
          | |- context [if ?b then _ else _] => destruct b eqn:?
          end).

(** Opens a goal [triple e P c Q] on a block [c]: one goal per path. *)
Ltac run_block :=
  let m := fresh "m" in
  let H := fresh "Hpre" in
  unfold stable, triple; intros m H;
  destruct m as [[] ? ?]; split_ifs; step_block.

Ltac flag_facts :=
  repeat match goal with
         | H : _ /\ _ |- _ => destruct H
         | H : negb _ = true |- _ => apply negb_true_iff in H
         | H : negb _ = false |- _ => apply negb_false_iff in H
         | H : _ && _ = true |- _ => apply andb_true_iff in H
         | H : (_ <? _) = true |- _ => apply Z.ltb_lt in H
         | H : (_ <? _) = false |- _ => apply Z.ltb_ge in H
         | H : (_ <=? _) = true |- _ => apply Z.leb_le in H
         | H : (_ <=? _) = false |- _ => apply Z.leb_gt in H
         end.

Ltac flag_goal :=
  repeat match goal with
         | |- context [flag_at (<[?i := ?b]> ?l) ?j] =>
             rewrite (flag_at_set_other l i j b) by discriminate
         | |- context [flag_at (<[?i := ?b]> ?l) ?i] =>
             rewrite (flag_at_set_here l i b) by (rewrite ?length_insert; lia)
         | |- _ => rewrite flag_at_clear_flags by (simpl; lia)
         end.

Section FrameRules.

Variables cosf sinf : float -> float.

Local Abbreviation actor_p2 := (actor_p2 cosf sinf).
Local Abbreviation actors := (actors cosf sinf).
Local Abbreviation Render := (Render cosf sinf).
Local Abbreviation Render_globals := (Render_globals cosf sinf).
Local Abbreviation Render_resets := (Render_resets cosf sinf).
Local Abbreviation Render_calls := (Render_calls cosf sinf).
Local Abbreviation Render_ticks := (Render_ticks cosf sinf).
Local Abbreviation moving := (moving cosf).
Local Abbreviation step := (step cosf sinf).
Local Abbreviation run := (run cosf sinf).
Local Abbreviation reachable := (reachable cosf sinf).
Local Abbreviation frozen_at := (frozen_at cosf).
Local Abbreviation settled := (settled cosf).

(** The rule of a frame: from what its actor blocks, the update of
    [pretime] and the gate establish.  The conclusion may speak of the result
    of the gate and of the number of clock reads; a frame whose [BeginScene]
    fails changes nothing and reads no clock. *)
Lemma Render_triple e (S S' : globals -> Prop) (Q : bool -> globals -> nat -> Prop) :
  triple e (fun m => S (vars m)) actors (fun _ m => S' (vars m)) ->
  (forall t g, S' g -> S' (set_pretime t g)) ->
  triple e (fun m => S' (vars m)) gate (fun r m => Q r (vars m) (ticks m)) ->
  (begin_ok e = false -> forall g n, S g -> Q false g n) ->
  triple e (fun m => S (vars m)) Render (fun r m => Q r (vars m) (ticks m)).
Proof.
  intros Hact Hpre Hgate Hskip. unfold Render.
  eapply triple_bind; [apply (silent_stable e S), silent_call | intros ?].
  eapply triple_bind; [apply (silent_stable e S), silent_call | intros ?].
  eapply triple_bind with (R := fun ok m => ok = begin_ok e /\ S (vars m));
    [intros m Hm; split; [reflexivity | exact Hm] | intros ok].
  eapply triple_bind with (R := fun r m => Q r (vars m) (ticks m)).
  - apply triple_branch; intros Hok.
    + eapply triple_weaken with (P' := fun m => S (vars m))
        (Q' := fun r m => Q r (vars m) (ticks m)); [| tauto | auto].
      eapply triple_bind; [apply (silent_stable e S), silent_call | intros ?].
      eapply triple_bind; [apply (silent_stable e S), silent_get | intros g].
      eapply triple_bind; [apply (silent_stable e S), silent_call | intros ?].
      eapply triple_bind; [apply (silent_stable e S), silent_call | intros ?].
      eapply triple_bind; [apply (silent_stable e S), silent_static_quads | intros ?].
      eapply triple_bind; [apply (silent_stable e S), silent_trail | intros ?].
      eapply triple_bind; [apply (silent_stable e S), silent_call | intros ?].
      eapply triple_bind; [apply (silent_stable e S), silent_call | intros ?].
      eapply triple_bind; [exact Hact | intros ?].
      eapply triple_bind with (R := fun _ m => S' (vars m));
        [intros m Hm; exact Hm | intros t].
      eapply triple_bind with (R := fun _ m => S' (vars m));
        [intros m Hm; apply Hpre, Hm | intros ?].
      eapply triple_bind; [exact Hgate | intros r].
      eapply triple_bind with (R := fun _ m => Q r (vars m) (ticks m));
        [intros m Hm; exact Hm | intros ?].
      apply triple_ret. auto.
    + apply triple_ret. intros m [Heq Hm]. apply Hskip; congruence.
  - intros r.
    eapply triple_bind with (R := fun _ m => Q r (vars m) (ticks m));
      [intros m Hm; exact Hm | intros ?].
    apply triple_ret. auto.
Qed.

Lemma Render_rule e (S : globals -> Prop) (Q : bool -> globals -> nat -> Prop) :
  stable e S actors ->
  (forall t g, S g -> S (set_pretime t g)) ->
  triple e (fun m => S (vars m)) gate (fun r m => Q r (vars m) (ticks m)) ->
  (begin_ok e = false -> forall g n, S g -> Q false g n) ->
  triple e (fun m => S (vars m)) Render (fun r m => Q r (vars m) (ticks m)).
Proof. apply Render_triple. Qed.

Lemma Render_rule_globals e (S : globals -> Prop) (Q : bool -> globals -> Prop) g :
  stable e S actors ->
  (forall t g, S g -> S (set_pretime t g)) ->
  triple e (fun m => S (vars m)) gate (fun r m => Q r (vars m)) ->
  (forall g, S g -> Q false g) ->
  S g -> Q (Render_resets e g) (Render_globals e g).
Proof.
  intros Hact Hpre Hgate Hskip Hg.
  exact (Render_rule e S (fun r g _ => Q r g) Hact Hpre Hgate
           (fun _ g _ => Hskip g) (frame_start g) Hg).
Qed.

(** The twelve blocks preserve what each of them preserves. *)
Lemma stable_actors e (S : globals -> Prop) :
  stable e S actor_I1 -> stable e S actor_I2 -> stable e S actor_I3 ->
  stable e S actor_K1 -> stable e S actor_k2 -> stable e S actor_k3 ->
  stable e S actor_e1 -> stable e S actor_e234 -> stable e S actor_p1 ->
  stable e S actor_p2 -> stable e S actors.
Proof.
  intros. unfold actors.
  repeat (apply stable_bind; [assumption | intros ?]). assumption.
Qed.

End FrameRules.

Arguments Render_triple {cosf sinf}.
Arguments Render_rule {cosf sinf}.
Arguments Render_rule_globals {cosf sinf}.
Arguments stable_actors {cosf sinf}.

(** ** Frozen actors *)

Section Frozen.

Variables cosf sinf : float -> float.

Local Abbreviation actor_p2 := (actor_p2 cosf sinf).
Local Abbreviation actors := (actors cosf sinf).
Local Abbreviation Render := (Render cosf sinf).
Local Abbreviation Render_globals := (Render_globals cosf sinf).
Local Abbreviation Render_resets := (Render_resets cosf sinf).
Local Abbreviation Render_calls := (Render_calls cosf sinf).
Local Abbreviation Render_ticks := (Render_ticks cosf sinf).
Local Abbreviation moving := (moving cosf).
Local Abbreviation step := (step cosf sinf).
Local Abbreviation run := (run cosf sinf).
Local Abbreviation reachable := (reachable cosf sinf).
Local Abbreviation frozen_at := (frozen_at cosf).
Local Abbreviation settled := (settled cosf).

Lemma frozen_at_actors e a p r : stable e (frozen_at a p r) actors.
Proof.
  apply stable_actors; destruct a; run_block; step_block;
    flag_facts; subst; repeat split;
    solve [ congruence | repeat apply flag_at_set_true; assumption ].
Qed.

Lemma frozen_at_pretime a p r t g :
  frozen_at a p r g -> frozen_at a p r (set_pretime t g).
Proof. destruct g, a; step_block; auto. Qed.

Lemma frozen_at_gate e a p r :
  triple e (fun m => frozen_at a p r (vars m)) gate
    (fun res m => res = false -> frozen_at a p r (vars m)).
Proof.
  destruct a; run_block; step_block;
    intros; try discriminate; assumption.
Qed.

(** The invariant behind the freeze: a flag is only ever set by the
    [else] of a failed terminal condition, and the variables the condition
    reads are written nowhere else. *)
Lemma settled_actor_blocks e a :
  stable e (fun g => completed a g = true -> moving a g = false) actors.
Proof.
  apply stable_actors; destruct a; run_block; step_block;
    flag_facts; intros; flag_goal;
    repeat match goal with
           | H : flag_at (<[_ := _]> _) _ = true |- _ =>
               rewrite flag_at_set_other in H by discriminate
           | Hp : ?A -> _, H : ?A |- _ => specialize (Hp H)
           end;
    solve [ congruence | auto ].
Qed.

Lemma settled_actors e : stable e settled actors.
Proof.
  intros m Hm a. exact (settled_actor_blocks e a m (Hm a)).
Qed.

Lemma settled_pretime t g : settled g -> settled (set_pretime t g).
Proof. intros H a. specialize (H a). destruct g, a; step_block; auto. Qed.

Lemma settled_gate e :
  triple e (fun m => settled (vars m)) gate (fun _ m => settled (vars m)).
Proof.
  intros m Hm a. specialize (Hm a). revert m Hm.
  destruct a; run_block; step_block; intros; flag_facts;
    try (rewrite flag_at_clear_flags in * by (simpl; lia); discriminate);
    auto.
Qed.

Lemma settled_Render e g : settled g -> settled (Render_globals e g).
Proof.
  apply (Render_rule_globals e settled (fun _ => settled)).
  - apply settled_actors.
  - apply settled_pretime.
  - apply settled_gate.
  - auto.
Qed.

Lemma settled_MsgProc msg lParam g : settled g -> settled (MsgProc msg lParam g).
Proof.
  intros H a. specialize (H a). unfold MsgProc.
  destruct (msg =? WM_DESTROY); [exact H|].
  destruct (msg =? WM_SIZE); [|exact H].
  destruct g, a; step_block; auto.
Qed.

Lemma settled_initial t0 : settled (initial_globals t0).
Proof. intros a. destruct a; vm_compute; discriminate. Qed.

Lemma settled_reachable g : reachable g -> settled g.
Proof.
  induction 1 as [t0 | g i Hg IH].
  - apply settled_initial.
  - destruct i as [msg lParam | e]; simpl.
    + apply settled_MsgProc, IH.
    + apply settled_Render, IH.
Qed.

Lemma reachable_run g inputs : reachable g -> reachable (run g inputs).
Proof.
  revert g. induction inputs as [|i inputs IH]; intros g Hg; simpl.
  - exact Hg.
  - apply IH. constructor. exact Hg.
Qed.

Lemma frozen_at_Render e a p r g :
  frozen_at a p r g -> Render_resets e g = false ->
  frozen_at a p r (Render_globals e g).
Proof.
  intros Hpre Hno.
  exact (Render_rule_globals e _ _ g
           (frozen_at_actors e a p r) (frozen_at_pretime a p r)
           (frozen_at_gate e a p r) (fun g H _ => H) Hpre Hno).
Qed.

(** C1.  On every state the program reaches, an actor whose completion
    flag is set keeps its position variables and its phase reference through
    any frame that does not perform the reset, and its flag is still set
    after that frame, so that the same holds for the frames that follow. *)
Theorem completed_actor_stays_frozen g e a :
  reachable g ->
  completed a g = true ->
  Render_resets e g = false ->
  position a (Render_globals e g) = position a g /\
  phase a (Render_globals e g) = phase a g /\
  completed a (Render_globals e g) = true.
Proof.
  intros Hreach Hdone Hno.
  pose proof (settled_reachable g Hreach a Hdone) as Hstop.
  assert (Hpre : frozen_at a (position a g) (phase a g) g)
    by (repeat split; assumption).
  destruct (frozen_at_Render e a _ _ g Hpre Hno) as (Hc & _ & Hp & Hr).
  repeat split; assumption.
Qed.

End Frozen.

Arguments reachable_run {cosf sinf}.
Arguments frozen_at_Render {cosf sinf}.
Arguments settled_reachable {cosf sinf}.

(** ** The arrays and the write cursor *)

Lemma length_foldl_insert {A} (x : A) (ks : list nat) (l : list A) :
  length (foldl (fun a i => <[i := x]> a) l ks) = length l.
Proof.
  revert l. induction ks as [|k ks IH]; intros l; simpl; [reflexivity|].
  rewrite IH. apply length_insert.
Qed.

Lemma lookup_foldl_insert {A} (x : A) (n k : nat) (l : list A) (j : nat) :
  foldl (fun a i => <[i := x]> a) l (seq k n) !! j =
  if decide ((k <= j < k + n)%nat /\ (j < length l)%nat) then Some x else l !! j.
Proof.
  revert k l. induction n as [|n IH]; intros k l; simpl.
  - case_decide; [lia | reflexivity].
  - rewrite IH, length_insert, list_lookup_insert.
    repeat case_decide; try reflexivity; lia.
Qed.

(** The two clearing loops of the reset, on arrays of the declared sizes. *)
Lemma clear_loop {A} (x : A) (n : nat) (l : list A) :
  length l = n -> foldl (fun a i => <[i := x]> a) l (seq 0 n) = replicate n x.
Proof.
  intros Hl. apply list_eq. intros j.
  rewrite lookup_foldl_insert. case_decide as Hj.
  - symmetry. apply lookup_replicate_2. lia.
  - rewrite !lookup_ge_None_2; [reflexivity | rewrite length_replicate; lia | lia].
Qed.

Section Trail.

Variables cosf sinf : float -> float.

Local Abbreviation actor_p2 := (actor_p2 cosf sinf).
Local Abbreviation actors := (actors cosf sinf).
Local Abbreviation Render := (Render cosf sinf).
Local Abbreviation Render_globals := (Render_globals cosf sinf).
Local Abbreviation Render_resets := (Render_resets cosf sinf).
Local Abbreviation Render_calls := (Render_calls cosf sinf).
Local Abbreviation Render_ticks := (Render_ticks cosf sinf).
Local Abbreviation moving := (moving cosf).
Local Abbreviation step := (step cosf sinf).
Local Abbreviation run := (run cosf sinf).
Local Abbreviation reachable := (reachable cosf sinf).
Local Abbreviation frozen_at := (frozen_at cosf).
Local Abbreviation settled := (settled cosf).

Lemma well_formed_actors e : stable e well_formed actors.
Proof.
  apply stable_actors; run_block; unfold indexMax in *; flag_facts;
    rewrite ?length_insert; repeat split; solve [assumption | lia].
Qed.

Lemma well_formed_pretime t g : well_formed g -> well_formed (set_pretime t g).
Proof. destruct g; step_block; auto. Qed.

Lemma well_formed_gate e :
  triple e (fun m => well_formed (vars m)) gate (fun _ m => well_formed (vars m)).
Proof.
  run_block; unfold indexMax in *; flag_facts;
    rewrite ?length_foldl_insert; repeat split; solve [assumption | lia].
Qed.

Lemma well_formed_Render e g : well_formed g -> well_formed (Render_globals e g).
Proof.
  apply (Render_rule_globals e well_formed (fun _ => well_formed)).
  - apply well_formed_actors.
  - apply well_formed_pretime.
  - apply well_formed_gate.
  - auto.
Qed.

Lemma well_formed_MsgProc msg lParam g :
  well_formed g -> well_formed (MsgProc msg lParam g).
Proof.
  intros H. unfold MsgProc.
  destruct (msg =? WM_DESTROY); [exact H|].
  destruct (msg =? WM_SIZE); [|exact H].
  destruct g; step_block; auto.
Qed.

Lemma well_formed_initial t0 : well_formed (initial_globals t0).
Proof. repeat split; vm_compute; congruence. Qed.

Lemma well_formed_reachable g : reachable g -> well_formed g.
Proof.
  induction 1 as [t0 | g i Hg IH].
  - apply well_formed_initial.
  - destruct i as [msg lParam | e]; simpl.
    + apply well_formed_MsgProc, IH.
    + apply well_formed_Render, IH.
Qed.

Lemma trail_full_actors e sq : stable e (trail_full_at sq) actors.
Proof.
  apply stable_actors; run_block; unfold trail_full_at, indexMax in *;
    step_block; flag_facts; solve [auto | lia].
Qed.

Lemma trail_full_pretime sq t g :
  trail_full_at sq g -> trail_full_at sq (set_pretime t g).
Proof. destruct g; unfold trail_full_at; step_block; auto. Qed.

Lemma trail_full_gate e sq :
  triple e (fun m => trail_full_at sq (vars m)) gate
    (fun res m => res = false -> trail_full_at sq (vars m)).
Proof.
  run_block; unfold trail_full_at, indexMax in *; step_block;
    intros; try discriminate; assumption.
Qed.

(** C7.  On every state the program reaches the write cursor of the trail
    lies between 0 and the capacity 1000; and a frame that starts with the
    cursor at 1000 and does not reset leaves every entry of the trail and the
    cursor as they were: what the blocks would have recorded is dropped. *)
Theorem trail_cursor_within_capacity g e :
  reachable g ->
  0 <= index g <= indexMax /\
  (index g = indexMax ->
   Render_resets e g = false ->
   squarePos (Render_globals e g) = squarePos g /\
   index (Render_globals e g) = indexMax).
Proof.
  intros Hreach. split.
  - apply (well_formed_reachable g Hreach).
  - intros Hfull Hno.
    assert (Hpre : trail_full_at (squarePos g) g) by (split; auto).
    pose proof (Render_rule_globals e _ _ g
                  (trail_full_actors e _) (trail_full_pretime _)
                  (trail_full_gate e _) (fun g H _ => H) Hpre Hno) as [Hi Hs].
    split; assumption.
Qed.

End Trail.

Arguments well_formed_reachable {cosf sinf}.

(** ** The completion gate *)

Section Gate.

Variables cosf sinf : float -> float.

Local Abbreviation actor_p2 := (actor_p2 cosf sinf).
Local Abbreviation actors := (actors cosf sinf).
Local Abbreviation Render := (Render cosf sinf).
Local Abbreviation Render_globals := (Render_globals cosf sinf).
Local Abbreviation Render_resets := (Render_resets cosf sinf).
Local Abbreviation Render_calls := (Render_calls cosf sinf).
Local Abbreviation Render_ticks := (Render_ticks cosf sinf).
Local Abbreviation moving := (moving cosf).
Local Abbreviation step := (step cosf sinf).
Local Abbreviation run := (run cosf sinf).
Local Abbreviation reachable := (reachable cosf sinf).
Local Abbreviation frozen_at := (frozen_at cosf).
Local Abbreviation settled := (settled cosf).

(** *** The three flags of [e234] *)

Lemma e234_inv_actors e : stable e e234_inv actors.
Proof.
  apply stable_actors; run_block; unfold e234_inv in *; step_block; unfold indexMax in *;
    flag_facts; rewrite ?length_insert; flag_goal;
    repeat split; solve [assumption | lia | reflexivity].
Qed.

Lemma e234_inv_pretime t g : e234_inv g -> e234_inv (set_pretime t g).
Proof. destruct g; unfold e234_inv; step_block; auto. Qed.

Lemma e234_inv_gate e :
  triple e (fun m => e234_inv (vars m)) gate (fun _ m => e234_inv (vars m)).
Proof.
  run_block; unfold e234_inv in *; step_block; unfold indexMax in *; flag_facts;
    rewrite ?length_foldl_insert; flag_goal;
    repeat split; solve [assumption | lia].
Qed.

Lemma e234_inv_reachable g : reachable g -> e234_inv g.
Proof.
  induction 1 as [t0 | g i Hg IH].
  - repeat split; vm_compute; congruence.
  - destruct i as [msg lParam | e]; simpl.
    + unfold MsgProc.
      destruct (msg =? WM_DESTROY); [exact IH|].
      destruct (msg =? WM_SIZE); [|exact IH].
      destruct g; unfold e234_inv in *; step_block; auto.
    + exact (Render_rule_globals e e234_inv (fun _ => e234_inv) g
               (e234_inv_actors e) e234_inv_pretime (e234_inv_gate e)
               (fun _ H => H) IH).
Qed.

(** C10.  Actors 7, 8 and 9 share the scalar [e234] and its terminal
    condition.  On every reachable state their three flags are equal, before
    and after any frame, so they flip on the same frame; a flag that is set
    stays set through a frame that does not reset; and whenever the condition
    [e234 <= 1.8] fails, the block assigns all three flags without looking at
    them, which sets all three when the array has its twelve cells. *)
Theorem e234_flags_move_together g e :
  reachable g ->
  e234_flags_agree g /\
  e234_flags_agree (Render_globals e g) /\
  (forall a, In a [A7; A8; A9] ->
     completed a g = true -> Render_resets e g = false ->
     completed a (Render_globals e g) = true) /\
  (forall g0 n c, e234_moving g0 = false ->
     vars (exec actor_e234 e (Machine g0 n c)) =
       set_flag 9 true (set_flag 8 true (set_flag 7 true g0)) /\
     (length (compFlag g0) = 12%nat ->
      forall a, In a [A7; A8; A9] ->
        completed a (vars (exec actor_e234 e (Machine g0 n c))) = true)).
Proof.
  intros Hreach. split; [|split; [|split]].
  - apply (e234_inv_reachable g Hreach).
  - apply (e234_inv_reachable (step g (Frame e))). constructor. exact Hreach.
  - intros a _ Hdone Hno.
    pose proof (settled_reachable g Hreach a Hdone) as Hstop.
    assert (Hpre : frozen_at a (position a g) (phase a g) g)
      by (repeat split; assumption).
    apply (frozen_at_Render e a _ _ g Hpre Hno).
  - intros [] n c Hstop. step_block. rewrite Hstop. split; [reflexivity|].
    intros Hlen a Ha. simpl in Ha.
    destruct Ha as [<- | [<- | [<- | []]]]; step_block; flag_goal; reflexivity.
Qed.

(** *** The reset *)

Lemma reset_gate e t0 :
  triple e (fun m => well_formed (vars m)) gate
    (fun res m => res = true ->
       sequencer_state (vars m) = sequencer_state (initial_globals t0)).
Proof.
  run_block; intros; try discriminate;
    destruct Hpre as (Hflags & Hsquares & _);
    unfold sequencer_state, initial_globals, all_actors; cbn [map]; step_block;
    rewrite !clear_loop by (try assumption; apply length_replicate);
    reflexivity.
Qed.

(** C2.  A frame that performs the reset leaves the sequencer in the state
    it has when the program starts: the positions and phase references at
    their initial constants, the twelve flags false, the thousand trail
    entries zero, the write cursor 0 and the latch open.  Since this holds on
    every state reached from the start, a cycle that runs, holds and resets
    returns to the state it began in. *)
Theorem reset_restores_initial_state g e t0 :
  reachable g ->
  Render_resets e g = true ->
  sequencer_state (Render_globals e g) = sequencer_state (initial_globals t0) /\
  sequencer_state (Render_globals e g) =
    ([ [B32.of_Z (-3)]; [f1_5]; [B32.of_Z (-3)]; [f1_5];
       [to_float (B64.opp (B64.lit 13 10)); B32.of_Z 0];
       [to_float (B64.opp (B64.lit 11 10)); to_float (B64.lit 2 10)];
       [f1_5];
       [to_float (B64.lit 1 2)]; [to_float (B64.lit 1 2)]; [to_float (B64.lit 1 2)];
       [f1_5]; [B32.div D3DX_PI (B32.of_Z 2)] ],
     replicate 12 (B32.of_Z 0),
     replicate 12 false,
     replicate 1000 (f0, f0, f0),
     0, false).
Proof.
  intros Hreach Hres.
  assert (H : sequencer_state (Render_globals e g) =
              sequencer_state (initial_globals t0)).
  { revert Hres.
    apply (Render_rule_globals e well_formed
             (fun r g' => r = true ->
                sequencer_state g' = sequencer_state (initial_globals t0)) g).
    - apply well_formed_actors.
    - apply well_formed_pretime.
    - apply reset_gate.
    - discriminate.
    - apply (well_formed_reachable g Hreach). }
  split; [exact H|]. rewrite H. reflexivity.
Qed.

End Gate.

(** ** The draw order of a frame *)

Lemma appends_bind {A B} P (c : M A) (k : A -> M B) :
  appends P c -> (forall a, appends P (k a)) -> appends P (bind c k).
Proof.
  intros Hc Hk e m. unfold bind.
  destruct (Hc e m) as (l1 & E1 & F1). destruct (c e m) as [a m']. simpl in *.
  destruct (Hk a e m') as (l2 & E2 & F2).
  exists (l1 ++ l2). split.
  - rewrite E2, E1, app_assoc. reflexivity.
  - apply Forall_app. split; assumption.
Qed.

Lemma logs_appends {A} P (c : M A) : logs P c -> appends P c.
Proof. intros H e [g t l]. eexists. exact (H e g t l). Qed.

Ltac block_logs :=
  let e := fresh "e" in
  let t := fresh "t" in
  let l := fresh "l" in
  apply logs_appends; intros e [] t l;
  split_ifs; step_block; cbn [app];
  (split; [ rewrite <- ?app_assoc, ?app_nil_r; reflexivity
          | repeat (apply List.Forall_cons; [exact I|]); apply List.Forall_nil ]).

Lemma static_quads_run e m :
  static_quads e m = (tt, Machine (vars m) (ticks m) (calls m ++ static_calls)).
Proof.
  destruct m as [g t c].
  cbv [static_quads draw call bind vars ticks calls].
  rewrite <- !app_assoc. reflexivity.
Qed.

Lemma draw_squares_run e n i m :
  for_loop n i draw_square e m =
  (tt, Machine (vars m) (ticks m)
         (calls m ++ flat_map (fun j => square_calls (squarePos (vars m) !!! j))
                              (seq i n))).
Proof.
  revert i m. induction n as [|n IH]; intros i [g t c]; simpl.
  - rewrite app_nil_r. reflexivity.
  - unfold bind at 1. unfold draw_square at 1.
    cbv [bind get vars ticks calls].
    destruct (squarePos g !!! i) as [[x y] a] eqn:E.
    cbv [draw call bind vars ticks calls].
    rewrite IH. cbv [vars ticks calls square_calls].
    rewrite <- !app_assoc. reflexivity.
Qed.

Lemma trail_run e m :
  trail e m = (tt, Machine (vars m) (ticks m) (calls m ++ trail_calls (vars m))).
Proof. unfold trail, bind, get. apply draw_squares_run. Qed.

Lemma gate_calls e m : calls (snd (gate e m)) = calls m.
Proof. destruct m as [[] ? ?]. split_ifs; step_block; reflexivity. Qed.

Ltac unfold_Render := unfold Render.
Ltac unfold_actors := unfold actors.

Section DrawOrder.

Variables cosf sinf : float -> float.

Local Abbreviation actor_p2 := (actor_p2 cosf sinf).
Local Abbreviation actors := (actors cosf sinf).
Local Abbreviation Render := (Render cosf sinf).
Local Abbreviation Render_globals := (Render_globals cosf sinf).
Local Abbreviation Render_resets := (Render_resets cosf sinf).
Local Abbreviation Render_calls := (Render_calls cosf sinf).
Local Abbreviation Render_ticks := (Render_ticks cosf sinf).
Local Abbreviation moving := (moving cosf).
Local Abbreviation step := (step cosf sinf).
Local Abbreviation run := (run cosf sinf).
Local Abbreviation reachable := (reachable cosf sinf).
Local Abbreviation frozen_at := (frozen_at cosf).
Local Abbreviation settled := (settled cosf).

Lemma appends_actors P :
  appends P actor_I1 -> appends P actor_I2 -> appends P actor_I3 ->
  appends P actor_K1 -> appends P actor_k2 -> appends P actor_k3 ->
  appends P actor_e1 -> appends P actor_e234 -> appends P actor_p1 ->
  appends P actor_p2 -> appends P actors.
Proof.
  intros. unfold_actors.
  repeat (apply appends_bind; [assumption | intros ?]). assumption.
Qed.

Lemma actors_append : appends cuboid_call actors.
Proof. apply appends_actors; block_logs. Qed.

(** C6 (as the code has it).  A frame whose [BeginScene] succeeds makes, in
    this order: the set-up calls, the ten calls that draw the five static
    quads, the calls that draw the recorded trail entries, and then the rest,
    in which no flat quad is drawn.  This holds from every state of the
    globals, whatever the flags and the latch are. *)
Theorem static_quads_drawn_first e g :
  begin_ok e = true ->
  exists rest,
    Render_calls e g =
      [Clear; BeginScene; SetupLights; SetupMatrices (g_aspect g);
       SetStreamSource g_pVB2]
      ++ static_calls ++ trail_calls g
      ++ [SetStreamSource g_pVB; SetFVF] ++ rest /\
    length (filter is_quad_draw static_calls) = 5%nat /\
    Forall (fun c => is_quad_draw c = false) rest.
Proof.
  intros Hok.
  unfold Render_calls, exec, frame_start. unfold_Render.
  cbv [bind call BeginScene_succeeded branch get ret vars ticks calls].
  rewrite Hok, static_quads_run. cbv [vars ticks calls].
  rewrite trail_run. cbv [vars ticks calls].
  match goal with
  | |- context [actors e ?m] =>
      destruct (actors_append e m) as (l & Hl & Fl);
      destruct (actors e m) as [[] m1]
  end.
  cbv [timeGetTime modify vars ticks calls snd] in *.
  match goal with
  | |- context [gate e ?m] =>
      pose proof (gate_calls e m) as Hg; destruct (gate e m) as [r m2]
  end.
  cbv [vars ticks calls snd] in *.
  exists (l ++ [EndScene; Present]). split; [|split].
  - rewrite Hg, Hl. simpl. rewrite <- !app_assoc. reflexivity.
  - reflexivity.
  - apply Forall_app. split.
    + eapply Forall_impl; [exact Fl|].
      intros [] Hc; try reflexivity; try contradiction.
      simpl in Hc. destruct start; try contradiction.
      destruct count as [|p|p]; try contradiction.
      repeat (destruct p as [p|p|]; try contradiction); reflexivity.
    + repeat constructor.
Qed.

End DrawOrder.

(** ** The clock reads of a frame *)

Lemma reads_within_ret {A} (a : A) : reads_within 0 (ret a).
Proof. intros e e' m _ _. split; [reflexivity | simpl; lia]. Qed.

Lemma reads_within_get : reads_within 0 get.
Proof. intros e e' m _ _. split; [reflexivity | simpl; lia]. Qed.

Lemma reads_within_modify f : reads_within 0 (modify f).
Proof. intros e e' m _ _. split; [reflexivity | simpl; lia]. Qed.

Lemma reads_within_call c : reads_within 0 (call c).
Proof. intros e e' m _ _. split; [reflexivity | simpl; lia]. Qed.

Lemma reads_within_begin : reads_within 0 BeginScene_succeeded.
Proof.
  intros e e' m Hb _. unfold BeginScene_succeeded. rewrite Hb.
  split; [reflexivity | simpl; lia].
Qed.

Lemma reads_within_tick : reads_within 1 timeGetTime.
Proof.
  intros e e' m _ Hc. unfold timeGetTime. rewrite (Hc (ticks m)) by lia.
  split; [reflexivity | simpl; lia].
Qed.

Lemma reads_within_bind {A B} n1 n2 (c : M A) (k : A -> M B) :
  reads_within n1 c -> (forall a, reads_within n2 (k a)) ->
  reads_within (n1 + n2) (bind c k).
Proof.
  intros Hc Hk e e' m Hb Hcl. unfold bind.
  destruct (Hc e e' m Hb) as [E1 T1]; [intros; apply Hcl; lia|].
  rewrite <- E1. destruct (c e m) as [a m1]. simpl in T1.
  destruct (Hk a e e' m1 Hb) as [E2 T2]; [intros; apply Hcl; lia|].
  split; [exact E2 | lia].
Qed.

Lemma reads_within_branch {A} n1 n2 (b : bool) (c1 c2 : M A) :
  reads_within n1 c1 -> reads_within n2 c2 ->
  reads_within (Nat.max n1 n2) (branch b c1 c2).
Proof.
  intros H1 H2 e e' m Hb Hcl. unfold branch. destruct b.
  - destruct (H1 e e' m Hb) as [E T]; [intros; apply Hcl; lia|]. split; [exact E | lia].
  - destruct (H2 e e' m Hb) as [E T]; [intros; apply Hcl; lia|]. split; [exact E | lia].
Qed.

Lemma reads_within_le {A} n n' (c : M A) :
  reads_within n c -> (n <= n')%nat -> reads_within n' c.
Proof.
  intros H Hle e e' m Hb Hcl.
  destruct (H e e' m Hb) as [E T]; [intros; apply Hcl; lia|]. split; [exact E | lia].
Qed.

Lemma reads_within_for_loop n i body :
  (forall j, reads_within 0 (body j)) -> reads_within 0 (for_loop n i body).
Proof.
  intros Hb. revert i. induction n as [|n IH]; intros i; simpl.
  - apply reads_within_ret.
  - apply (reads_within_bind 0 0); [apply Hb | intros _; apply IH].
Qed.

(** Follows the structure of a computation, adding up its clock reads. *)
Ltac count_reads :=
  repeat (cbv beta zeta;
    lazymatch goal with
    | |- reads_within _ (bind _ _) => eapply reads_within_bind; [|intros ?]
    | |- reads_within _ (branch _ _ _) => eapply reads_within_branch
    | |- reads_within _ (when _ _) => unfold when
    | |- reads_within _ (draw _ _) => unfold draw
    | |- reads_within _ (emit _ _) => unfold emit
    | |- reads_within _ timeGetTime => apply reads_within_tick
    | |- reads_within _ get => apply reads_within_get
    | |- reads_within _ (modify _) => apply reads_within_modify
    | |- reads_within _ (call _) => apply reads_within_call
    | |- reads_within _ (ret _) => apply reads_within_ret
    | |- reads_within _ BeginScene_succeeded => apply reads_within_begin
    end).

Ltac reads_at_most :=
  eapply reads_within_le; [count_reads | simpl; lia].

Lemma reads_actor_I1 : reads_within 4 actor_I1.
Proof. unfold actor_I1. reads_at_most. Qed.
Lemma reads_actor_I2 : reads_within 4 actor_I2.
Proof. unfold actor_I2. reads_at_most. Qed.
Lemma reads_actor_I3 : reads_within 4 actor_I3.
Proof. unfold actor_I3. reads_at_most. Qed.
Lemma reads_actor_K1 : reads_within 4 actor_K1.
Proof. unfold actor_K1. reads_at_most. Qed.
Lemma reads_actor_k2 : reads_within 5 actor_k2.
Proof. unfold actor_k2. reads_at_most. Qed.
Lemma reads_actor_k3 : reads_within 5 actor_k3.
Proof. unfold actor_k3. reads_at_most. Qed.
Lemma reads_actor_e1 : reads_within 4 actor_e1.
Proof. unfold actor_e1. reads_at_most. Qed.
Lemma reads_actor_e234 : reads_within 10 actor_e234.
Proof. unfold actor_e234. reads_at_most. Qed.
Lemma reads_actor_p1 : reads_within 4 actor_p1.
Proof. unfold actor_p1. reads_at_most. Qed.
Lemma reads_gate : reads_within 2 gate.
Proof. unfold gate. reads_at_most. Qed.

Lemma reads_static_quads : reads_within 0 static_quads.
Proof. unfold static_quads. reads_at_most. Qed.

Lemma reads_trail : reads_within 0 trail.
Proof.
  unfold trail. apply (reads_within_bind 0 0); [apply reads_within_get | intros g].
  apply reads_within_for_loop. intros j. unfold draw_square.
  apply (reads_within_bind 0 0); [apply reads_within_get | intros g'].
  destruct (squarePos g' !!! j) as [[x y] a]. reads_at_most.
Qed.

Ltac unfold_actor_p2 := unfold actor_p2.

Section ClockReads.

Variables cosf sinf : float -> float.

Local Abbreviation actor_p2 := (actor_p2 cosf sinf).
Local Abbreviation actors := (actors cosf sinf).
Local Abbreviation Render := (Render cosf sinf).
Local Abbreviation Render_globals := (Render_globals cosf sinf).
Local Abbreviation Render_resets := (Render_resets cosf sinf).
Local Abbreviation Render_calls := (Render_calls cosf sinf).
Local Abbreviation Render_ticks := (Render_ticks cosf sinf).
Local Abbreviation moving := (moving cosf).
Local Abbreviation step := (step cosf sinf).
Local Abbreviation run := (run cosf sinf).
Local Abbreviation reachable := (reachable cosf sinf).
Local Abbreviation frozen_at := (frozen_at cosf).
Local Abbreviation settled := (settled cosf).

Lemma reads_actor_p2 : reads_within 4 actor_p2.
Proof. unfold_actor_p2. reads_at_most. Qed.

Lemma reads_actors : reads_within 48 actors.
Proof.
  unfold_actors.
  eapply reads_within_le.
  - eapply reads_within_bind; [apply reads_actor_I1 | intros ?].
    eapply reads_within_bind; [apply reads_actor_I2 | intros ?].
    eapply reads_within_bind; [apply reads_actor_I3 | intros ?].
    eapply reads_within_bind; [apply reads_actor_K1 | intros ?].
    eapply reads_within_bind; [apply reads_actor_k2 | intros ?].
    eapply reads_within_bind; [apply reads_actor_k3 | intros ?].
    eapply reads_within_bind; [apply reads_actor_e1 | intros ?].
    eapply reads_within_bind; [apply reads_actor_e234 | intros ?].
    eapply reads_within_bind; [apply reads_actor_p1 | intros ?].
    apply reads_actor_p2.
  - simpl. lia.
Qed.

Lemma reads_Render : reads_within 51 Render.
Proof.
  unfold_Render.
  eapply reads_within_le.
  - repeat (cbv beta zeta;
      lazymatch goal with
      | |- reads_within _ (bind static_quads _) =>
          eapply reads_within_bind; [apply reads_static_quads | intros ?]
      | |- reads_within _ (bind trail _) =>
          eapply reads_within_bind; [apply reads_trail | intros ?]
      | |- reads_within _ (bind actors _) =>
          eapply reads_within_bind; [apply reads_actors | intros ?]
      | |- reads_within _ (bind gate _) =>
          eapply reads_within_bind; [apply reads_gate | intros ?]
      | |- reads_within _ (bind _ _) => eapply reads_within_bind; [|intros ?]
      | |- reads_within _ (branch _ _ _) => eapply reads_within_branch
      | |- reads_within _ timeGetTime => apply reads_within_tick
      | |- reads_within _ get => apply reads_within_get
      | |- reads_within _ (modify _) => apply reads_within_modify
      | |- reads_within _ (call _) => apply reads_within_call
      | |- reads_within _ (ret _) => apply reads_within_ret
      | |- reads_within _ BeginScene_succeeded => apply reads_within_begin
      end).
  - simpl. lia.
Qed.

(** C9 (as the code has it).  A frame reads the clock anew at every use, up
    to 51 times.  What the frame does is a function of the globals it starts
    from and of those readings: frames run from the same globals in two
    environments that agree on the first 51 readings and on [BeginScene]
    return the same result, globals, device calls and number of reads.  In
    particular one [now] determines the frame when every reading equals it. *)
Theorem frame_depends_on_its_clock_readings e e' g :
  begin_ok e = begin_ok e' ->
  (forall k, (k < 51)%nat -> clock e k = clock e' k) ->
  Render e (frame_start g) = Render e' (frame_start g) /\
  (Render_ticks e g <= 51)%nat.
Proof.
  intros Hb Hc.
  destruct (reads_Render e e' (frame_start g) Hb) as [E T].
  - intros k Hk. apply Hc. simpl in Hk. lia.
  - split; [exact E | apply T].
Qed.

End ClockReads.

(** ** Rounding in [SpecFloat] *)

(** The number of binary digits of a positive number. *)
Lemma digits2_pos_bounds p :
  2 ^ (Zpos (digits2_pos p) - 1) <= Zpos p < 2 ^ Zpos (digits2_pos p).
Proof.
  induction p as [p IH | p IH |]; simpl digits2_pos.
  - rewrite Pos2Z.inj_succ.
    replace (Z.succ (Zpos (digits2_pos p)) - 1) with (Z.succ (Zpos (digits2_pos p) - 1)) by lia.
    rewrite !Z.pow_succ_r by lia. lia.
  - rewrite Pos2Z.inj_succ.
    replace (Z.succ (Zpos (digits2_pos p)) - 1) with (Z.succ (Zpos (digits2_pos p) - 1)) by lia.
    rewrite !Z.pow_succ_r by lia. lia.
  - simpl. lia.
Qed.

Lemma digits2_pos_unique p k :
  2 ^ (k - 1) <= Zpos p < 2 ^ k -> Zpos (digits2_pos p) = k.
Proof.
  intros [Hlo Hhi]. pose proof (digits2_pos_bounds p) as [Blo Bhi].
  set (d := Zpos (digits2_pos p)) in *.
  assert (Hd : 0 < d) by (unfold d; lia).
  assert (Hk : 0 < k).
  { destruct (Z.le_gt_cases k 0) as [Hle|]; [|assumption].
    assert (2 ^ k <= 2 ^ 0) by (apply Z.pow_le_mono_r; lia).
    simpl in *. lia. }
  destruct (Z.lt_trichotomy d k) as [Hlt | [Heq | Hgt]]; [|assumption|].
  - assert (2 ^ d <= 2 ^ (k - 1)) by (apply Z.pow_le_mono_r; lia). lia.
  - assert (2 ^ k <= 2 ^ (d - 1)) by (apply Z.pow_le_mono_r; lia). lia.
Qed.

Lemma iter_xO_mul p n : Zpos (Pos.iter xO p n) = Zpos p * 2 ^ Zpos n.
Proof.
  revert p. induction n as [n IH | n IH |]; intros p; simpl Pos.iter.
  - rewrite Pos2Z.inj_xO, !IH.
    replace (Zpos n~1) with (Zpos n + Zpos n + 1) by lia.
    rewrite !Z.pow_add_r by lia. lia.
  - rewrite !IH. replace (Zpos n~0) with (Zpos n + Zpos n) by lia.
    rewrite Z.pow_add_r by lia. lia.
  - lia.
Qed.

(** Shifting right: the mantissa is halved at each step, and the round bit
    is the last bit shifted out. *)
Lemma shr_1_m mrs : 0 <= shr_m mrs -> shr_m (shr_1 mrs) = shr_m mrs / 2.
Proof.
  destruct mrs as [m r s]. simpl. intros Hm.
  destruct m as [|[p|p|]|p]; cbn [shr_m]; try lia; try reflexivity.
  - apply Z.div_unique with 1; lia.
  - apply Z.div_unique with 0; lia.
Qed.

Lemma shr_1_r mrs : 0 <= shr_m mrs -> shr_r (shr_1 mrs) = Z.odd (shr_m mrs).
Proof.
  destruct mrs as [m r s]. simpl. intros Hm.
  destruct m as [|[p|p|]|p]; simpl; try reflexivity; lia.
Qed.

Lemma iter_pos_nat {A} (f : A -> A) p x :
  SpecFloat.iter_pos f p x = Nat.iter (Pos.to_nat p) f x.
Proof.
  revert x. induction p as [p IH | p IH |]; intros x; simpl SpecFloat.iter_pos.
  - rewrite !IH, Pos2Nat.inj_xI.
    replace (S (2 * Pos.to_nat p))%nat with (S (Pos.to_nat p + Pos.to_nat p)) by lia.
    rewrite Nat.iter_succ_r, Nat.iter_add. reflexivity.
  - rewrite !IH, Pos2Nat.inj_xO.
    replace (2 * Pos.to_nat p)%nat with (Pos.to_nat p + Pos.to_nat p)%nat by lia.
    rewrite Nat.iter_add. reflexivity.
  - reflexivity.
Qed.

Lemma iter_shr_m n mrs :
  0 <= shr_m mrs ->
  shr_m (Nat.iter n shr_1 mrs) = shr_m mrs / 2 ^ Z.of_nat n.
Proof.
  intros Hm. induction n as [|n IH].
  - simpl. rewrite Z.div_1_r. reflexivity.
  - rewrite Nat.iter_succ, shr_1_m.
    + rewrite IH, Nat2Z.inj_succ, Z.pow_succ_r by lia.
      rewrite Z.div_div by lia. f_equal. lia.
    + rewrite IH. apply Z.div_pos; lia.
Qed.

Lemma iter_shr_r n mrs :
  0 <= shr_m mrs ->
  shr_r (Nat.iter (S n) shr_1 mrs) = Z.odd (shr_m mrs / 2 ^ Z.of_nat n).
Proof.
  intros Hm. rewrite Nat.iter_succ, shr_1_r.
  - rewrite iter_shr_m by assumption. reflexivity.
  - rewrite iter_shr_m by assumption. apply Z.div_pos; lia.
Qed.

Lemma shr_m_of_loc m l : shr_m (shr_record_of_loc m l) = m.
Proof. destruct l as [|[]]; reflexivity. Qed.

(** Rounding to nearest moves the mantissa up by at most one, and only when
    the round bit is set. *)
Lemma round_nearest_even_cases mrs :
  let m' := round_nearest_even (shr_m mrs) (loc_of_shr_record mrs) in
  m' = shr_m mrs \/ (m' = shr_m mrs + 1 /\ shr_r mrs = true).
Proof.
  destruct mrs as [m [] []]; simpl; auto.
  destruct (Z.even m); auto.
Qed.

Section Rounding.

Variables prec emax : Z.
Hypothesis prec_pos : 0 < prec.
Hypothesis prec_lt_emax : prec < emax.

Local Abbreviation emin := (SpecFloat.emin prec emax).
Local Abbreviation fexp := (SpecFloat.fexp prec emax).

(** The shift applied to a mantissa of [prec + n] digits in the normal
    range. *)
Lemma shr_fexp_normal m e l :
  let n := Zpos (digits2_pos m) - prec in
  0 <= n -> emin <= e + n ->
  shr_fexp prec emax (Zpos m) e l =
    (Nat.iter (Z.to_nat n) shr_1 (shr_record_of_loc (Zpos m) l), e + n).
Proof.
  intros n Hn He. unfold shr_fexp, shr.
  assert (E : fexp (Zdigits2 (Zpos m) + e) - e = n).
  { unfold SpecFloat.fexp, Zdigits2. fold emin. unfold n in *. lia. }
  rewrite E. destruct n as [|p|p] eqn:En; [rewrite Z.add_0_r; reflexivity| |lia].
  rewrite iter_pos_nat. reflexivity.
Qed.

Lemma normal_mantissa_range m n :
  Zpos (digits2_pos m) = prec + n -> 0 <= n ->
  2 ^ (prec - 1) <= Zpos m / 2 ^ n < 2 ^ prec.
Proof.
  intros Hd Hn. pose proof (digits2_pos_bounds m) as [Hlo Hhi].
  rewrite Hd in Hlo, Hhi.
  replace (prec + n - 1) with (n + (prec - 1)) in Hlo by lia.
  replace (prec + n) with (n + prec) in Hhi by lia.
  rewrite Z.pow_add_r in Hlo, Hhi by lia.
  assert (0 < 2 ^ n) by (apply Z.pow_pos_nonneg; lia).
  split.
  - apply Z.div_le_lower_bound; lia.
  - apply Z.div_lt_upper_bound; lia.
Qed.

(** Rounding a mantissa of [prec + n] digits in the normal range: the
    result is finite, its mantissa is the truncated one or its successor, and
    it is the successor only if the last bit dropped is set. *)
Lemma binary_round_aux_normal s m e l :
  let n := Zpos (digits2_pos m) - prec in
  0 <= n -> emin <= e + n -> e + n + 1 <= emax - prec ->
  exists m' e',
    binary_round_aux prec emax s (Zpos m) e l = S754_finite s m' e' /\
    Zpos (digits2_pos m') = prec /\
    ((Zpos m' = Zpos m / 2 ^ n /\ e' = e + n) \/
     ((Zpos m' = Zpos m / 2 ^ n + 1 /\ e' = e + n \/
       2 * Zpos m' = Zpos m / 2 ^ n + 1 /\ e' = e + n + 1) /\
      (0 < n -> Z.odd (Zpos m / 2 ^ (n - 1)) = true) /\
      (l = loc_Exact -> 0 < n))).
Proof.
  intros n Hn He Hmax.
  pose proof (normal_mantissa_range m n ltac:(unfold n; lia) Hn) as Hrange.
  unfold binary_round_aux. rewrite (shr_fexp_normal m e l Hn He). fold n.
  set (mrs := Nat.iter (Z.to_nat n) shr_1 (shr_record_of_loc (Zpos m) l)).
  assert (Hm1 : shr_m mrs = Zpos m / 2 ^ n).
  { unfold mrs. rewrite iter_shr_m, shr_m_of_loc, Z2Nat.id by (rewrite ?shr_m_of_loc; lia).
    reflexivity. }
  assert (Hbit : shr_r mrs = true -> 0 < n -> Z.odd (Zpos m / 2 ^ (n - 1)) = true).
  { intros Hr Hpos. unfold mrs in Hr.
    replace (Z.to_nat n) with (S (Z.to_nat (n - 1))) in Hr by lia.
    rewrite iter_shr_r, shr_m_of_loc, Z2Nat.id in Hr by (rewrite ?shr_m_of_loc; lia).
    exact Hr. }
  assert (Hexact : shr_r mrs = true -> l = loc_Exact -> 0 < n).
  { intros Hr Hl. destruct (Z.eq_dec n 0) as [Hz|]; [|lia].
    unfold mrs in Hr. rewrite Hz, Hl in Hr. discriminate Hr. }
  pose proof (round_nearest_even_cases mrs) as Hround. cbv zeta in Hround.
  set (m1 := round_nearest_even (shr_m mrs) (loc_of_shr_record mrs)) in *.
  rewrite Hm1 in Hround.
  assert (Hm1pos : 0 < m1) by (pose proof (Z.pow_pos_nonneg 2 (prec - 1)); lia).
  destruct m1 as [|q|q] eqn:Eq; try lia.
  destruct (Z.eq_dec (Zpos q) (2 ^ prec)) as [Hcarry | Hnocarry].
  - (* the mantissa rounded up to [2 ^ prec] *)
    assert (Hd : Zpos (digits2_pos q) = prec + 1).
    { apply digits2_pos_unique. rewrite Hcarry.
      replace (prec + 1 - 1) with prec by lia.
      rewrite Z.pow_add_r by lia. change (2 ^ 1) with 2.
      pose proof (Z.pow_pos_nonneg 2 prec). lia. }
    rewrite (shr_fexp_normal q (e + n) loc_Exact) by (rewrite Hd; lia).
    rewrite Hd. replace (prec + 1 - prec) with 1 by lia.
    change (Z.to_nat 1) with 1%nat. rewrite Nat.iter_succ. cbn [Nat.iter nat_rect].
    rewrite shr_1_m by (simpl; lia). cbn [shr_record_of_loc shr_m].
    assert (Hhalf : Zpos q / 2 = 2 ^ (prec - 1)).
    { rewrite Hcarry. replace prec with (1 + (prec - 1)) at 1 by lia.
      rewrite Z.pow_add_r by lia. change (2 ^ 1) with 2.
      rewrite Z.mul_comm, Z.div_mul by lia. reflexivity. }
    pose proof (Z.pow_pos_nonneg 2 (prec - 1) ltac:(lia) ltac:(lia)) as Hpos.
    destruct (Zpos q / 2) as [|h|h] eqn:Eh; try lia.
    replace (e + n + 1 <=? emax - prec) with true by (symmetry; apply Z.leb_le; lia).
    exists h, (e + n + 1). split; [reflexivity|].
    split; [apply digits2_pos_unique; rewrite Hhalf;
            split; [lia | apply Z.pow_lt_mono_r; lia]|].
    right.
    assert (Hup : Zpos q = Zpos m / 2 ^ n + 1) by lia.
    assert (Hr : shr_r mrs = true) by (destruct Hround as [|[_ Hr]]; [lia | exact Hr]).
    split; [right; split; [|reflexivity] | split; [apply Hbit, Hr | apply Hexact, Hr]].
    rewrite <- Hup, Hcarry, Hhalf. replace prec with (1 + (prec - 1)) at 2 by lia.
    rewrite Z.pow_add_r by lia. reflexivity.
  - (* no carry *)
    assert (Hd : Zpos (digits2_pos q) = prec).
    { apply digits2_pos_unique. lia. }
    rewrite (shr_fexp_normal q (e + n) loc_Exact) by (rewrite Hd; lia).
    rewrite Hd. replace (prec - prec) with 0 by lia.
    change (Z.to_nat 0) with 0%nat. cbn [Nat.iter nat_rect shr_record_of_loc shr_m].
    replace (e + n + 0 <=? emax - prec) with true by (symmetry; apply Z.leb_le; lia).
    exists q, (e + n + 0). split; [reflexivity|]. split; [exact Hd|].
    destruct Hround as [Hsame | [Hup Hr]].
    + left. split; lia.
    + right. split; [left; split; lia | split; [apply Hbit, Hr | apply Hexact, Hr]].
Qed.

(** Integers below [2 ^ prec] convert exactly. *)
Lemma binary_normalize_exact z :
  0 < z < 2 ^ prec ->
  exists m e,
    binary_normalize prec emax z 0 false = S754_finite false m e /\
    Zpos (digits2_pos m) = prec /\
    e = Zdigits2 z - prec /\ Zpos m = z * 2 ^ (- e).
Proof.
  intros [Hpos Hlt]. destruct z as [|p|p]; try lia.
  unfold binary_normalize, binary_round, Zdigits2.
  pose proof (digits2_pos_bounds p) as [Dlo Dhi].
  set (d := Zpos (digits2_pos p)) in *.
  assert (Hd : 0 < d <= prec).
  { split; [unfold d; lia|].
    destruct (Z.le_gt_cases d prec) as [|Hgt]; [assumption|].
    assert (2 ^ prec <= 2 ^ (d - 1)) by (apply Z.pow_le_mono_r; lia). lia. }
  assert (E : fexp (d + 0) = d - prec).
  { unfold SpecFloat.fexp. fold emin. unfold SpecFloat.emin. lia. }
  rewrite E. unfold shl_align.
  assert (Haligned : exists mz,
             (match d - prec - 0 with
              | Zneg k => (Pos.iter xO p k, d - prec)
              | _ => (p, 0)
              end) = (mz, d - prec) /\
             Zpos mz = Zpos p * 2 ^ (prec - d)).
  { destruct (d - prec - 0) as [|k|k] eqn:Ek; try lia.
    - exists p. replace (d - prec) with 0 by lia.
      replace (prec - d) with 0 by lia. split; [reflexivity | simpl; lia].
    - exists (Pos.iter xO p k). split; [reflexivity|].
      rewrite iter_xO_mul. f_equal. f_equal. lia. }
  destruct Haligned as (mz & -> & Hmz).
  assert (Hdz : Zpos (digits2_pos mz) = prec).
  { apply digits2_pos_unique. rewrite Hmz.
    assert (P1 : 2 ^ (prec - 1) = 2 ^ (d - 1) * 2 ^ (prec - d))
      by (rewrite <- Z.pow_add_r by lia; f_equal; lia).
    assert (P2 : 2 ^ prec = 2 ^ d * 2 ^ (prec - d))
      by (rewrite <- Z.pow_add_r by lia; f_equal; lia).
    assert (0 < 2 ^ (prec - d)) by (apply Z.pow_pos_nonneg; lia).
    rewrite P1, P2. split.
    - apply Z.mul_le_mono_nonneg_r; lia.
    - apply Z.mul_lt_mono_pos_r; lia. }
  destruct (binary_round_aux_normal false mz (d - prec) loc_Exact)
    as (m' & e' & Hres & Hdig & Hcases);
    rewrite ?Hdz; unfold SpecFloat.emin; try lia.
  exists m', e'. split; [exact Hres|]. split; [exact Hdig|].
  rewrite Hdz in Hcases. replace (prec - prec) with 0 in Hcases by lia.
  rewrite Z.div_1_r in Hcases.
  destruct Hcases as [[Hm He] | [_ [_ Hbad]]]; [|specialize (Hbad eq_refl); lia].
  split; [lia|]. rewrite Hm, Hmz, He. f_equal. f_equal. lia.
Qed.

(** The quotient of two normal numbers: the mantissa is the integer
    quotient [q] of the scaled mantissas, rounded at its last one or two
    bits. *)
Lemma SFdiv_normal m1 e1 m2 e2 :
  Zpos (digits2_pos m1) = prec -> Zpos (digits2_pos m2) = prec ->
  emin <= e1 - e2 - prec -> e1 - e2 + 2 <= emax - prec ->
  let q := Zpos m1 * 2 ^ prec / Zpos m2 in
  exists m e n,
    SFdiv prec emax (S754_finite false m1 e1) (S754_finite false m2 e2) =
      S754_finite false m e /\
    Zpos (digits2_pos m) = prec /\
    0 <= n <= 1 /\ 2 ^ (prec + n - 1) <= q < 2 ^ (prec + n) /\
    ((Zpos m = q / 2 ^ n \/ Zpos m = q / 2 ^ n + 1) /\ e = e1 - e2 - prec + n \/
     2 * Zpos m = q / 2 ^ n + 1 /\ e = e1 - e2 - prec + n + 1).
Proof.
  intros Hd1 Hd2 Hlo Hhi q.
  pose proof (digits2_pos_bounds m1) as [L1 U1].
  pose proof (digits2_pos_bounds m2) as [L2 U2].
  rewrite Hd1 in L1, U1. rewrite Hd2 in L2, U2.
  assert (Hp : 0 < 2 ^ prec) by (apply Z.pow_pos_nonneg; lia).
  assert (Hp1 : 2 ^ prec = 2 * 2 ^ (prec - 1)).
  { replace prec with (1 + (prec - 1)) at 1 by lia.
    rewrite Z.pow_add_r by lia. reflexivity. }
  assert (Hq : 2 ^ (prec - 1) <= q < 2 * 2 ^ prec).
  { unfold q. split.
    - apply Z.div_le_lower_bound; [lia | nia].
    - apply Z.div_lt_upper_bound; [lia | nia]. }
  unfold SFdiv, SFdiv_core_binary, Zdigits2. rewrite Hd1, Hd2.
  assert (E : Z.min (fexp (prec + e1 - (prec + e2))) (e1 - e2) = e1 - e2 - prec).
  { unfold SpecFloat.fexp. fold emin. lia. }
  rewrite E. replace (e1 - e2 - (e1 - e2 - prec)) with prec by lia.
  assert (Hshift : match prec with
                   | Zpos _ => Z.shiftl (Zpos m1) prec
                   | Z0 => Zpos m1
                   | Zneg _ => 0
                   end = Zpos m1 * 2 ^ prec).
  { destruct prec; try lia. apply Z.shiftl_mul_pow2. lia. }
  rewrite Hshift.
  assert (Hdiv : fst (Z.div_eucl (Zpos m1 * 2 ^ prec) (Zpos m2)) = q) by reflexivity.
  destruct (Z.div_eucl (Zpos m1 * 2 ^ prec) (Zpos m2)) as [q' r]. simpl in Hdiv.
  subst q'. cbn [xorb].
  assert (Hqpos : 0 < q) by (pose proof (Z.pow_pos_nonneg 2 (prec - 1)); lia).
  destruct q as [|qp|qp] eqn:Eq; try lia.
  pose proof (digits2_pos_bounds qp) as [Lq Uq].
  assert (Hdq : Zpos (digits2_pos qp) = prec \/ Zpos (digits2_pos qp) = prec + 1).
  { destruct (Z.lt_ge_cases (Zpos qp) (2 ^ prec)) as [Hsmall | Hbig].
    - left. apply digits2_pos_unique. lia.
    - right. apply digits2_pos_unique.
      replace (prec + 1 - 1) with prec by lia.
      rewrite Z.pow_add_r by lia. change (2 ^ 1) with 2. lia. }
  set (n := Zpos (digits2_pos qp) - prec).
  assert (Hn : 0 <= n <= 1) by (unfold n; lia).
  destruct (binary_round_aux_normal false qp (e1 - e2 - prec)
              (new_location (Zpos m2) r))
    as (m & e & Hres & Hdig & Hcases); fold n; try lia.
  exists m, e, n. split; [exact Hres|]. split; [exact Hdig|]. split; [exact Hn|].
  fold n in Hcases. split.
  - replace (prec + n) with (Zpos (digits2_pos qp)) by (unfold n; lia).
    replace (prec + n - 1) with (Zpos (digits2_pos qp) - 1) by (unfold n; lia).
    lia.
  - destruct Hcases as [[Hm He] | [[[Hm He] | [Hm He]] _]]; auto.
Qed.

End Rounding.

(** Narrowing a normal [double] drops 29 bits of the mantissa. *)
Lemma to_float_normal m e :
  Zpos (digits2_pos m) = 53 -> -149 <= e + 29 -> e + 30 <= 104 ->
  exists m' e',
    to_float (S754_finite false m e) = S754_finite false m' e' /\
    ((Zpos m' = Zpos m / 2 ^ 29 /\ e' = e + 29) \/
     ((Zpos m' = Zpos m / 2 ^ 29 + 1 /\ e' = e + 29 \/
       2 * Zpos m' = Zpos m / 2 ^ 29 + 1 /\ e' = e + 30) /\
      Z.odd (Zpos m / 2 ^ 28) = true)).
Proof.
  intros Hd Hlo Hhi. unfold to_float, binary_round, shl_align.
  rewrite Hd.
  assert (E : fexp B32.prec B32.emax (53 + e) - e = 29).
  { unfold fexp, emin, B32.prec, B32.emax. lia. }
  rewrite E. cbv iota.
  destruct (binary_round_aux_normal B32.prec B32.emax ltac:(reflexivity) false m e loc_Exact)
    as (m' & e' & Hres & _ & Hcases);
    rewrite ?Hd; unfold emin, B32.prec, B32.emax; try lia.
  exists m', e'. split; [exact Hres|].
  rewrite Hd in Hcases. unfold B32.prec in Hcases.
  change (53 - 24) with 29 in Hcases. change (29 - 1) with 28 in Hcases.
  destruct Hcases as [[Hm He] | [Hup [Hodd _]]]; [left; split; lia|].
  right. split; [|apply Hodd; lia].
  destruct Hup as [[Hm He] | [Hm He]]; [left | right]; split; lia.
Qed.

(** The cast to [int] of a number whose integer part fits. *)
Lemma to_int_in_range x z :
  ftrunc x = Some z -> INT_MIN <= z < 2 ^ 31 -> to_int x = z.
Proof.
  intros Hx [Hlo Hhi]. unfold to_int. rewrite Hx.
  replace (INT_MIN <=? z) with true by (symmetry; apply Z.leb_le; assumption).
  replace (z <? 2 ^ 31) with true by (symmetry; apply Z.ltb_lt; assumption).
  reflexivity.
Qed.

Lemma ftrunc_below_one m e k :
  e < 0 -> k * 2 ^ (- e) <= Zpos m < (k + 1) * 2 ^ (- e) ->
  ftrunc (S754_finite false m e) = Some k.
Proof.
  intros He Hk. unfold ftrunc. destruct e as [|p|p]; try lia.
  f_equal. change (- Zneg p) with (Zpos p) in Hk.
  assert (0 < 2 ^ Zpos p) by (apply Z.pow_pos_nonneg; lia).
  symmetry. apply Z.div_unique with (Zpos m - k * 2 ^ Zpos p); lia.
Qed.

Lemma to_int_opp x :
  to_int x <> INT_MIN -> to_int (SFopp x) = - to_int x.
Proof.
  unfold to_int. destruct x as [s | s | | s m e]; simpl; try reflexivity; try congruence.
  set (a := match e with
            | 0 => Zpos m
            | Zpos p => Zpos m * 2 ^ Zpos p
            | Zneg p => Zpos m / 2 ^ Zpos p
            end).
  unfold INT_MIN.
  destruct s; simpl;
    repeat match goal with
           | |- context [?x <=? ?y] => destruct (Z.leb_spec x y)
           | |- context [?x <? ?y] => destruct (Z.ltb_spec x y)
           end; simpl; intros; try lia; congruence.
Qed.

Ltac eval_pows :=
  repeat match goal with
         | |- context [2 ^ ?k] =>
             let c := eval vm_compute in (2 ^ k) in change (2 ^ k) with c
         | H : context [2 ^ ?k] |- _ =>
             let c := eval vm_compute in (2 ^ k) in change (2 ^ k) with c in H
         end.

Ltac cases_upto x lo hi :=
  let rec go k :=
    destruct (Z.eq_dec x k) as [->|?];
    [| let k' := eval vm_compute in (k + 1) in
       let stop := eval vm_compute in (hi <? k') in
       lazymatch stop with
       | true => exfalso; lia
       | false => go k'
       end]
  in go lo.

(** [timeGetTime() / 250.0] is a normal [double] that lies between the
    integer quotient and its successor. *)
Lemma quarter_normal t :
  0 < t < 2 ^ 32 ->
  exists m e,
    quarter t = S754_finite false m e /\
    Zpos (digits2_pos m) = 53 /\ -60 <= e <= -28 /\
    t / 250 * 2 ^ (- e) <= Zpos m < (t / 250 + 1) * 2 ^ (- e).
Proof.
  intros Ht.
  destruct (binary_normalize_exact B64.prec B64.emax ltac:(reflexivity) ltac:(reflexivity) t)
    as (m1 & e1 & H1 & D1 & E1 & V1).
  { unfold B64.prec. split; [lia|].
    assert (2 ^ 32 < 2 ^ 53) by reflexivity. lia. }
  unfold quarter, B64.div, B64.of_Z. rewrite H1.
  change (binary_normalize B64.prec B64.emax 250 0 false)
    with (S754_finite false 8796093022208000 (-45)).
  assert (Hd : 1 <= Zdigits2 t <= 32).
  { destruct t as [|p|p]; try lia. unfold Zdigits2.
    pose proof (digits2_pos_bounds p) as [Lo Hi]. split; [lia|].
    destruct (Z.le_gt_cases (Zpos (digits2_pos p)) 32) as [|Hgt]; [assumption|].
    assert (2 ^ 32 <= 2 ^ (Zpos (digits2_pos p) - 1)) by (apply Z.pow_le_mono_r; lia).
    lia. }
  assert (Hb : 2 ^ (Zdigits2 t - 1) <= t < 2 ^ Zdigits2 t).
  { destruct t as [|p|p]; try lia. apply digits2_pos_bounds. }
  set (d := Zdigits2 t) in *. unfold B64.prec in *.
  destruct (SFdiv_normal B64.prec B64.emax ltac:(reflexivity) ltac:(reflexivity)
              m1 e1 8796093022208000 (-45))
    as (m & e & n & Hres & Hdig & Hn & Hq & Hcases);
    unfold emin, B64.prec, B64.emax; try assumption; try reflexivity; try lia.
  exists m, e. split; [exact Hres|]. split; [exact Hdig|].
  unfold B64.prec in *.
  pose proof (digits2_pos_bounds m) as Hm. rewrite Hdig in Hm.
  clear H1 Hres D1 Hdig.
  set (q := Zpos m1 * 2 ^ 53 / 8796093022208000) in *.
  assert (Hqdef : 8796093022208000 * q <= Zpos m1 * 2 ^ 53 < 8796093022208000 * (q + 1)).
  { unfold q. pose proof (Z.mul_div_le (Zpos m1 * 2 ^ 53) 8796093022208000 ltac:(lia)).
    pose proof (Z.mul_succ_div_gt (Zpos m1 * 2 ^ 53) 8796093022208000 ltac:(lia)).
    lia. }
  clearbody q.
  assert (Hk : 250 * (t / 250) <= t < 250 * (t / 250 + 1)).
  { pose proof (Z.mul_div_le t 250 ltac:(lia)).
    pose proof (Z.mul_succ_div_gt t 250 ltac:(lia)). lia. }
  set (k := t / 250) in *. clearbody k.
  assert (Hqn : 2 ^ n * (q / 2 ^ n) <= q < 2 ^ n * (q / 2 ^ n + 1)).
  { assert (0 < 2 ^ n) by (apply Z.pow_pos_nonneg; lia).
    pose proof (Z.mul_div_le q (2 ^ n) ltac:(lia)).
    pose proof (Z.mul_succ_div_gt q (2 ^ n) ltac:(lia)). lia. }
  set (qn := q / 2 ^ n) in *. clearbody qn.
  subst e1. clearbody d.
  cases_upto d 1 32; cases_upto n 0 1;
    (destruct Hcases as [[[Hv|Hv] He] | [Hv He]]; subst e; eval_pows; lia).
Qed.

Lemma quarter_to_int t : 0 <= t < 2 ^ 32 -> to_int (quarter t) = t / 250.
Proof.
  intros Ht. destruct (Z.eq_dec t 0) as [->|Hne]; [reflexivity|].
  destruct (quarter_normal t ltac:(lia)) as (m & e & -> & _ & He & Hm).
  apply to_int_in_range.
  - apply ftrunc_below_one; [lia | exact Hm].
  - unfold INT_MIN. change (2 ^ 31) with 2147483648 in *.
    change (2 ^ 32) with 4294967296 in *.
    Z.div_mod_to_equations. lia.
Qed.

Ltac eval_exponent :=
  match goal with
  | |- context [S754_finite false ?m ?e] =>
      let e' := eval vm_compute in e in progress change e with e'
  end.

(** Stored as a [float], the quotient is within one of the integer
    quotient, also where the [float]s are two apart. *)
Lemma quarter_float_to_int t :
  0 <= t < 2 ^ 32 ->
  t / 250 - 1 <= to_int (to_float (quarter t)) <= t / 250 + 1.
Proof.
  intros Ht. destruct (Z.eq_dec t 0) as [->|Hne]; [vm_compute; split; discriminate|].
  destruct (quarter_normal t ltac:(lia)) as (m & e & -> & Hd & He & Hm).
  destruct (to_float_normal m e Hd ltac:(lia) ltac:(lia)) as (m' & e' & -> & Hcases).
  assert (Hk : 0 <= t / 250 < 2 ^ 25).
  { change (2 ^ 25) with 33554432. change (2 ^ 32) with 4294967296 in Ht.
    Z.div_mod_to_equations. lia. }
  set (k := t / 250) in *. clearbody k. clear Ht Hne.
  assert (Hz : exists z, ftrunc (S754_finite false m' e') = Some z /\ k - 1 <= z <= k + 1).
  { cases_upto e (-60) (-28);
      (destruct Hcases as [[Hv He'] | [[[Hv He'] | [Hv He']] Hodd]]; subst e';
       eval_exponent; cbv beta iota delta [ftrunc];
       eexists; (split; [reflexivity|]);
       try (pose proof (Z.div2_odd (Zpos m / 2 ^ 28)) as Hbit;
            rewrite Hodd in Hbit; cbn [Z.b2z] in Hbit);
       eval_pows; Z.div_mod_to_equations; lia). }
  destruct Hz as (z & Hz & Hzk).
  rewrite (to_int_in_range _ z Hz); [exact Hzk|].
  unfold INT_MIN. change (2 ^ 31) with 2147483648.
  change (2 ^ 25) with 33554432 in Hk. lia.
Qed.

Lemma wrapU32_range z : 0 <= wrapU32 z < 2 ^ 32.
Proof. unfold wrapU32. apply Z.mod_pos_bound. reflexivity. Qed.

(** Right after a phase reference has been stored from the reading [t],
    the test of an actor fails for every reading in the same quarter. *)
Lemma no_second_crossing a t t' :
  0 <= t < 2 ^ 32 -> 0 <= t' < 2 ^ 32 -> t' / 250 = t / 250 ->
  crosses a (stamp a t) t' = false.
Proof.
  intros Ht Ht' Hsame.
  pose proof (quarter_to_int t' Ht') as Hq.
  pose proof (quarter_float_to_int t Ht) as Hr.
  rewrite Hsame in Hq.
  assert (Hk : 0 <= t / 250).
  { Z.div_mod_to_equations. lia. }
  set (k := t / 250) in *. clearbody k.
  set (r := to_int (to_float (quarter t))) in *.
  assert (Hopp : to_int (B32.opp (to_float (quarter t))) = - r).
  { apply to_int_opp. fold r. unfold INT_MIN. lia. }
  assert (Hcases : r = k - 1 \/ r = k \/ r = k + 1) by lia.
  destruct a; unfold crosses, stamp, quarter_turn, quarter_turn_rev,
    phase_ref, phase_ref_rev;
    rewrite ?Hopp, Hq; fold r;
    destruct Hcases as [-> | [-> | ->]];
    match goal with
    | |- context [wrapS32 ?x] =>
        first [ replace x with 0 by lia
              | replace x with 1 by lia
              | replace x with (-1) by lia ]
    end; reflexivity.
Qed.

(** ** Exact results *)

Section ExactRounding.

Variables prec emax : Z.
Hypothesis prec_pos : 0 < prec.
Hypothesis prec_lt_emax : prec < emax.

(** A mantissa that is a number [k] of at most [prec] digits followed by
    [- e] zeros rounds to [k] itself: to the mantissa of [prec] digits that
    starts with the digits of [k]. *)
Lemma binary_round_of_scaled s p e k :
  Zpos k < 2 ^ prec -> e <= 0 -> Zpos p = Zpos k * 2 ^ (- e) ->
  exists m,
    binary_round prec emax s p e =
      S754_finite s m (Zpos (digits2_pos k) - prec) /\
    Zpos m = Zpos k * 2 ^ (prec - Zpos (digits2_pos k)).
Proof.
  intros Hk He Hp.
  pose proof (digits2_pos_bounds k) as [Klo Khi].
  set (dk := Zpos (digits2_pos k)) in *.
  assert (Hdk : 0 < dk <= prec).
  { split; [unfold dk; lia|].
    destruct (Z.le_gt_cases dk prec) as [|Hgt]; [assumption|].
    assert (2 ^ prec <= 2 ^ (dk - 1)) by (apply Z.pow_le_mono_r; lia). lia. }
  assert (Hpow : 0 < 2 ^ (- e)) by (apply Z.pow_pos_nonneg; lia).
  assert (Hdp : Zpos (digits2_pos p) = dk - e).
  { apply digits2_pos_unique. rewrite Hp.
    replace (dk - e - 1) with (dk - 1 + - e) by lia.
    replace (dk - e) with (dk + - e) by lia.
    rewrite !Z.pow_add_r by lia. split.
    - apply Z.mul_le_mono_nonneg_r; lia.
    - apply Z.mul_lt_mono_pos_r; lia. }
  unfold binary_round. rewrite Hdp.
  assert (E : fexp prec emax (dk - e + e) = dk - prec).
  { unfold fexp, emin. lia. }
  rewrite E. unfold shl_align.
  assert (Haligned : exists mz ez,
             (match dk - prec - e with
              | Zneg d => (Pos.iter xO p d, dk - prec)
              | _ => (p, e)
              end) = (mz, ez) /\
             ez <= dk - prec /\
             Zpos mz = Zpos k * 2 ^ (prec - dk) * 2 ^ (dk - prec - ez)).
  { destruct (dk - prec - e) as [|d|d] eqn:Ed.
    - exists p, e. split; [reflexivity|]. split; [lia|].
      rewrite Hp, <- Z.mul_assoc, <- Z.pow_add_r by lia. f_equal. f_equal. lia.
    - exists p, e. split; [reflexivity|]. split; [lia|].
      rewrite Hp, <- Z.mul_assoc, <- Z.pow_add_r by lia. f_equal. f_equal. lia.
    - exists (Pos.iter xO p d), (dk - prec). split; [reflexivity|]. split; [lia|].
      rewrite iter_xO_mul, Hp, <- Z.mul_assoc, <- Z.pow_add_r by lia.
      replace (dk - prec - (dk - prec)) with 0 by lia.
      rewrite Z.mul_1_r. f_equal. f_equal. lia. }
  destruct Haligned as (mz & ez & -> & Hez & Hmz).
  set (n := dk - prec - ez) in *.
  assert (Hsc : 2 ^ (prec - 1) <= Zpos k * 2 ^ (prec - dk) < 2 ^ prec).
  { assert (P1 : 2 ^ (prec - 1) = 2 ^ (dk - 1) * 2 ^ (prec - dk))
      by (rewrite <- Z.pow_add_r by lia; f_equal; lia).
    assert (P2 : 2 ^ prec = 2 ^ dk * 2 ^ (prec - dk))
      by (rewrite <- Z.pow_add_r by lia; f_equal; lia).
    assert (0 < 2 ^ (prec - dk)) by (apply Z.pow_pos_nonneg; lia).
    rewrite P1, P2. split.
    - apply Z.mul_le_mono_nonneg_r; lia.
    - apply Z.mul_lt_mono_pos_r; lia. }
  set (c := Zpos k * 2 ^ (prec - dk)) in *.
  assert (Hn : 0 < 2 ^ n) by (apply Z.pow_pos_nonneg; lia).
  assert (Hdz : Zpos (digits2_pos mz) = prec + n).
  { apply digits2_pos_unique. rewrite Hmz.
    replace (prec + n - 1) with (prec - 1 + n) by lia.
    rewrite !Z.pow_add_r by lia. split.
    - apply Z.mul_le_mono_nonneg_r; lia.
    - apply Z.mul_lt_mono_pos_r; lia. }
  destruct (binary_round_aux_normal prec emax prec_pos s mz ez loc_Exact)
    as (m' & e' & Hres & _ & Hcases);
    rewrite ?Hdz; unfold emin; try lia.
  rewrite Hdz in Hcases. replace (prec + n - prec) with n in Hcases by lia.
  assert (Hquot : Zpos mz / 2 ^ n = c) by (rewrite Hmz; apply Z.div_mul; lia).
  rewrite Hquot in Hcases.
  destruct Hcases as [[Hm He'] | [_ [Hodd Hexact]]].
  - exists m'. rewrite Hres. split; [f_equal; lia | exact Hm].
  - exfalso. specialize (Hexact eq_refl). specialize (Hodd Hexact).
    assert (Heven : Zpos mz / 2 ^ (n - 1) = 2 * c).
    { rewrite Hmz. replace n with (1 + (n - 1)) at 1 by lia.
      rewrite Z.pow_add_r by lia. change (2 ^ 1) with 2.
      rewrite Z.mul_assoc, Z.div_mul by (apply Z.pow_nonzero; lia). lia. }
    rewrite Heven, Z.odd_mul in Hodd. discriminate Hodd.
Qed.

(** Scaling the mantissa by a power of two that the exponent takes back
    does not change the result. *)
Lemma binary_normalize_scaled z e :
  - 2 ^ prec < z < 2 ^ prec -> e <= 0 ->
  binary_normalize prec emax (z * 2 ^ (- e)) e false =
  binary_normalize prec emax z 0 false.
Proof.
  intros Hz He.
  assert (Hpow : 0 < 2 ^ (- e)) by (apply Z.pow_pos_nonneg; lia).
  destruct z as [|k|k].
  - reflexivity.
  - destruct (Zpos k * 2 ^ (- e)) as [|p|p] eqn:Ep; try lia.
    unfold binary_normalize.
    destruct (binary_round_of_scaled false p e k) as (m1 & -> & H1); try lia.
    destruct (binary_round_of_scaled false k 0 k) as (m2 & -> & H2); try lia.
    f_equal. lia.
  - destruct (Zneg k * 2 ^ (- e)) as [|p|p] eqn:Ep; try lia.
    unfold binary_normalize.
    destruct (binary_round_of_scaled true p e k) as (m1 & -> & H1); try lia.
    destruct (binary_round_of_scaled true k 0 k) as (m2 & -> & H2); try lia.
    f_equal. lia.
Qed.

(** The conversion of an integer of at most [prec] digits, with its sign. *)
Lemma binary_normalize_integer z :
  - 2 ^ prec < z < 2 ^ prec -> z <> 0 ->
  exists m,
    binary_normalize prec emax z 0 false =
      S754_finite (z <? 0) m (Zdigits2 z - prec) /\
    Zpos m = Z.abs z * 2 ^ (prec - Zdigits2 z).
Proof.
  intros Hz Hne. destruct z as [|k|k]; [congruence| |].
  - destruct (binary_round_of_scaled false k 0 k) as (m & H & Hm); try lia.
    exists m. split; [exact H | exact Hm].
  - destruct (binary_round_of_scaled true k 0 k) as (m & H & Hm); try lia.
    exists m. split; [exact H | exact Hm].
Qed.

(** The difference of two integers, when it has at most [prec] digits as
    they do, is computed exactly. *)
Lemma SFsub_integers a b :
  0 <= a < 2 ^ prec -> 0 <= b < 2 ^ prec ->
  SFsub prec emax (binary_normalize prec emax a 0 false)
                  (binary_normalize prec emax b 0 false) =
  binary_normalize prec emax (a - b) 0 false.
Proof.
  intros Ha Hb.
  destruct (Z.eq_dec a 0) as [-> | Hna]; destruct (Z.eq_dec b 0) as [-> | Hnb].
  - reflexivity.
  - destruct (binary_normalize_integer b) as (mb & Eb & Vb); try lia.
    destruct (binary_normalize_integer (0 - b)) as (mb' & Eb' & Vb'); try lia.
    rewrite Eb, Eb'. change (binary_normalize prec emax 0 0 false) with (S754_zero false).
    cbn [SFsub].
    replace (b <? 0) with false by (symmetry; apply Z.ltb_ge; lia).
    replace (0 - b <? 0) with true by (symmetry; apply Z.ltb_lt; lia).
    assert (Zdigits2 (0 - b) = Zdigits2 b) by (destruct b; try lia; reflexivity).
    assert (mb' = mb) by (apply Pos2Z.inj; rewrite Vb, Vb'; f_equal; [lia | congruence]).
    cbn [negb]. congruence.
  - rewrite Z.sub_0_r.
    destruct (binary_normalize_integer a) as (ma & Ea & Va); try lia.
    rewrite Ea. reflexivity.
  - destruct (binary_normalize_integer a) as (ma & Ea & Va); try lia.
    destruct (binary_normalize_integer b) as (mb & Eb & Vb); try lia.
    rewrite Ea, Eb.
    replace (a <? 0) with false by (symmetry; apply Z.ltb_ge; lia).
    replace (b <? 0) with false by (symmetry; apply Z.ltb_ge; lia).
    cbn [SFsub cond_Zopp].
    assert (Da : 0 < Zdigits2 a <= prec /\ 0 < Zdigits2 b <= prec).
    { destruct a as [|ka|ka], b as [|kb|kb]; try lia. unfold Zdigits2.
      pose proof (digits2_pos_bounds ka) as [La Ua].
      pose proof (digits2_pos_bounds kb) as [Lb Ub].
      repeat split; try lia.
      - destruct (Z.le_gt_cases (Zpos (digits2_pos ka)) prec) as [|Hgt]; [assumption|].
        assert (2 ^ prec <= 2 ^ (Zpos (digits2_pos ka) - 1))
          by (apply Z.pow_le_mono_r; lia). lia.
      - destruct (Z.le_gt_cases (Zpos (digits2_pos kb)) prec) as [|Hgt]; [assumption|].
        assert (2 ^ prec <= 2 ^ (Zpos (digits2_pos kb) - 1))
          by (apply Z.pow_le_mono_r; lia). lia. }
    set (ea := Zdigits2 a - prec) in *. set (eb := Zdigits2 b - prec) in *.
    set (ez := Z.min ea eb).
    assert (Hal : forall m x (ex : Z), 0 <= x -> ex <= 0 -> ez <= ex ->
              Zpos m = Z.abs x * 2 ^ (- ex) ->
              Zpos (fst (shl_align m ex ez)) = x * 2 ^ (- ez)).
    { intros m x ex Hx Hex Hle Hm. unfold shl_align.
      rewrite Z.abs_eq in Hm by lia.
      destruct (ez - ex) as [|d|d] eqn:Ed; cbn [fst].
      - rewrite Hm. f_equal. f_equal. lia.
      - lia.
      - rewrite iter_xO_mul, Hm, <- Z.mul_assoc, <- Z.pow_add_r by lia.
        f_equal. f_equal. lia. }
    rewrite (Hal ma a ea), (Hal mb b eb); try (unfold ez; lia);
      try (rewrite ?Va, ?Vb; f_equal; f_equal; unfold ea, eb; lia).
    rewrite <- Z.mul_sub_distr_r.
    apply binary_normalize_scaled; unfold ez; lia.
Qed.

End ExactRounding.

(** The test of the hold, [now - endTime > 1000 * 5] in [float], on clock
    readings that a [float] holds exactly. *)
Lemma hold_test_exact now latched :
  0 <= now < 2 ^ 24 -> 0 <= latched < 2 ^ 24 ->
  fgt (B32.sub (B32.of_Z now) (B32.of_Z latched)) (B32.of_Z (1000 * 5)) =
    (5000 <? now - latched).
Proof.
  intros Hn Hl. unfold B32.sub, B32.of_Z.
  rewrite (SFsub_integers B32.prec B32.emax) by (try reflexivity; assumption).
  set (d := now - latched).
  assert (Hd : - 2 ^ 24 < d < 2 ^ 24) by (unfold d; lia).
  clearbody d. clear now latched Hn Hl.
  change (binary_normalize B32.prec B32.emax (1000 * 5) 0 false)
    with (S754_finite false 10240000 (-11)).
  destruct (Z.eq_dec d 0) as [-> | Hne]; [reflexivity|].
  destruct (binary_normalize_integer B32.prec B32.emax ltac:(reflexivity)
              ltac:(reflexivity) d) as (m & -> & Hm); try assumption.
  unfold fgt, SFltb, SFcompare.
  destruct (Z.ltb_spec d 0) as [Hneg | Hpos].
  - symmetry. apply Z.ltb_ge. lia.
  - assert (Hdig : 2 ^ (Zdigits2 d - 1) <= d < 2 ^ Zdigits2 d /\ 0 < Zdigits2 d <= 24).
    { destruct d as [|k|k]; try lia. unfold Zdigits2.
      pose proof (digits2_pos_bounds k) as [Lo Hi]. split; [split; assumption|].
      split; [lia|].
      destruct (Z.le_gt_cases (Zpos (digits2_pos k)) 24) as [|Hgt]; [assumption|].
      assert (2 ^ 24 <= 2 ^ (Zpos (digits2_pos k) - 1))
        by (apply Z.pow_le_mono_r; lia). lia. }
    rewrite Z.abs_eq in Hm by lia. unfold B32.prec in *.
    set (n := Zdigits2 d) in *. clearbody n.
    destruct Hdig as [Hb Hn].
    change (Pos.compare_cont Eq 10240000 m) with (10240000 ?= m)%positive.
    rewrite (Pos2Z.inj_compare 10240000 m), Hm.
    cases_upto n 1 24; eval_pows;
      match goal with
      | |- context [-11 ?= ?x] =>
          let c := eval vm_compute in (-11 ?= x) in change (-11 ?= x) with c
      end; cbv iota;
      try destruct (Z.compare_spec 10240000 (d * 2048));
      destruct (Z.ltb_spec 5000 d); solve [reflexivity | lia].
Qed.

(** *** The hold latch *)

Section Latch.

Variables cosf sinf : float -> float.

Local Abbreviation actor_p2 := (actor_p2 cosf sinf).
Local Abbreviation actors := (actors cosf sinf).
Local Abbreviation Render := (Render cosf sinf).
Local Abbreviation Render_globals := (Render_globals cosf sinf).
Local Abbreviation Render_resets := (Render_resets cosf sinf).
Local Abbreviation Render_calls := (Render_calls cosf sinf).
Local Abbreviation Render_ticks := (Render_ticks cosf sinf).
Local Abbreviation moving := (moving cosf).
Local Abbreviation step := (step cosf sinf).
Local Abbreviation run := (run cosf sinf).
Local Abbreviation reachable := (reachable cosf sinf).
Local Abbreviation frozen_at := (frozen_at cosf).
Local Abbreviation settled := (settled cosf).

Lemma count_flags_le n i l : count_flags n i l <= Z.of_nat n.
Proof.
  revert i. induction n as [|n IH]; intros i; [simpl; lia|].
  cbn [count_flags]. destruct (negb (flag_at l i)); [lia|].
  specialize (IH (S i)). lia.
Qed.

Lemma count_flags_full n i l :
  Z.of_nat n <= count_flags n i l ->
  forall j, (i <= j < i + n)%nat -> flag_at l j = true.
Proof.
  revert i. induction n as [|n IH]; intros i H j Hj; [lia|].
  cbn [count_flags] in H. destruct (flag_at l i) eqn:E; simpl in H; [|lia].
  destruct (decide (j = i)) as [->|]; [exact E|].
  apply (IH (S i)); [|lia].
  pose proof (count_flags_le n (S i) l). lia.
Qed.

Lemma count_flags_complete g :
  12 <= count_flags 12 0 (compFlag g) -> forall a, completed a g = true.
Proof.
  intros H a. apply (count_flags_full 12 0); [exact H|].
  destruct a; simpl; lia.
Qed.

Lemma complete_count_flags g :
  (forall a, completed a g = true) -> 12 <= count_flags 12 0 (compFlag g).
Proof.
  intros H. cbn [count_flags].
  pose proof (H A0) as H0. pose proof (H A1) as H1. pose proof (H A2) as H2.
  pose proof (H A3) as H3. pose proof (H A4) as H4. pose proof (H A5) as H5.
  pose proof (H A6) as H6. pose proof (H A7) as H7. pose proof (H A8) as H8.
  pose proof (H A9) as H9. pose proof (H A10) as H10. pose proof (H A11) as H11.
  unfold completed, actor_id in *.
  rewrite H0, H1, H2, H3, H4, H5, H6, H7, H8, H9, H10, H11. simpl. lia.
Qed.

Lemma latch_actors e b v : stable e (latch_is b v) actors.
Proof.
  apply stable_actors; run_block; unfold latch_is in *; step_block; assumption.
Qed.

Lemma latch_pretime b v t g : latch_is b v g -> latch_is b v (set_pretime t g).
Proof. destruct g; unfold latch_is; step_block; auto. Qed.

Lemma everything_actors e : stable e (fun _ => True) actors.
Proof. intros m _. exact I. Qed.

Lemma latched_gate e v :
  triple e (fun m => latch_is true v (vars m)) gate
    (fun res m => endTime (vars m) = v /\ (res = false -> endGet (vars m) = true)).
Proof.
  run_block; unfold latch_is in *; step_block; flag_facts; subst;
    split; solve [reflexivity | congruence | discriminate | auto].
Qed.

Lemma latching_gate e v :
  triple e (fun m => latch_is false v (vars m)) gate
    (fun res m =>
       endGet (vars m) = true ->
       12 <= count_flags 12 0 (compFlag (vars m)) /\
       exists k, (k < ticks m)%nat /\
                 endTime (vars m) = B32.of_Z (wrapU32 (clock e k))).
Proof.
  run_block; unfold latch_is in *; step_block; flag_facts; subst; intros;
    try discriminate.
  split; [assumption|]. eexists. split; [|reflexivity]. lia.
Qed.

Lemma closing_gate e :
  triple e (fun _ => True) gate
    (fun res m =>
       res = false -> 12 <= count_flags 12 0 (compFlag (vars m)) ->
       endGet (vars m) = true).
Proof.
  run_block; step_block; flag_facts; intros; try discriminate;
    solve [reflexivity | lia | assumption | congruence].
Qed.

Lemma resetting_gate e :
  triple e (fun _ => True) gate
    (fun res m =>
       res = true ->
       exists k, (k < ticks m)%nat /\
         fgt (B32.sub (B32.of_Z (wrapU32 (clock e k))) (endTime (vars m)))
             (B32.of_Z (1000 * 5)) = true).
Proof.
  run_block; step_block; intros; try discriminate;
    eexists; (split; [|eassumption]); lia.
Qed.

(** A frame that resets has read the clock at a [now] that passes the test
    of the hold against the latched [endTime]. *)
Lemma reset_passes_hold_test e g :
  Render_resets e g = true ->
  exists k, (k < Render_ticks e g)%nat /\
    fgt (B32.sub (B32.of_Z (wrapU32 (clock e k))) (endTime (Render_globals e g)))
        (B32.of_Z (1000 * 5)) = true.
Proof.
  intros Hres.
  refine (Render_rule e (fun _ => True)
            (fun r g' n => r = true ->
               exists k, (k < n)%nat /\
                 fgt (B32.sub (B32.of_Z (wrapU32 (clock e k))) (endTime g'))
                     (B32.of_Z (1000 * 5)) = true)
            (everything_actors e) (fun _ _ _ => I) (resetting_gate e)
            _ (frame_start g) I Hres).
  discriminate.
Qed.

(** C3 (as the code has it).  Within a cycle the hold-start time is
    captured once.  While the latch [endGet] is set, a frame leaves [endTime]
    as it is, and the latch stays set until a frame resets.  A frame sets the
    latch only when all twelve flags are set, and [endTime] is then a clock
    reading of that very frame; a frame that ends with the twelve flags set
    and did not reset has the latch set.  A frame resets only if one of its
    clock readings [now] passes the test [now - endTime > 1000 * 5], which
    the program takes in [float]: when the latched reading and the readings
    of the frame are below [2 ^ 24], where [float] holds them exactly, more
    than 5000 ms separate them. *)
Theorem hold_start_latched_once :
  (forall e g,
     endGet g = true ->
     endTime (Render_globals e g) = endTime g /\
     (Render_resets e g = false -> endGet (Render_globals e g) = true)) /\
  (forall e g,
     endGet g = false -> endGet (Render_globals e g) = true ->
     (forall a, completed a (Render_globals e g) = true) /\
     exists k, (k < Render_ticks e g)%nat /\
       endTime (Render_globals e g) = B32.of_Z (wrapU32 (clock e k))) /\
  (forall e g,
     begin_ok e = true -> Render_resets e g = false ->
     (forall a, completed a (Render_globals e g) = true) ->
     endGet (Render_globals e g) = true) /\
  (forall e g,
     Render_resets e g = true ->
     exists k, (k < Render_ticks e g)%nat /\
       fgt (B32.sub (B32.of_Z (wrapU32 (clock e k)))
                    (endTime (Render_globals e g)))
           (B32.of_Z (1000 * 5)) = true) /\
  (forall e g latched,
     Render_resets e g = true ->
     endTime (Render_globals e g) = B32.of_Z latched ->
     0 <= latched < 2 ^ 24 ->
     (forall k, 0 <= clock e k < 2 ^ 24) ->
     exists k, (k < Render_ticks e g)%nat /\ 5000 < clock e k - latched).
Proof.
  split; [|split; [|split; [|split]]].
  - intros e g Hset.
    apply (Render_rule_globals e (latch_is true (endTime g))
             (fun r g' => endTime g' = endTime g /\ (r = false -> endGet g' = true)) g).
    + apply latch_actors.
    + apply latch_pretime.
    + apply latched_gate.
    + intros g' [H1 H2]. auto.
    + split; auto.
  - intros e g Hopen Hset.
    assert (H : 12 <= count_flags 12 0 (compFlag (Render_globals e g)) /\
                exists k, (k < Render_ticks e g)%nat /\
                  endTime (Render_globals e g) = B32.of_Z (wrapU32 (clock e k))).
    { refine (Render_rule e (latch_is false (endTime g))
                (fun r g' n => endGet g' = true ->
                   12 <= count_flags 12 0 (compFlag g') /\
                   exists k, (k < n)%nat /\
                     endTime g' = B32.of_Z (wrapU32 (clock e k)))
                (latch_actors e _ _) (latch_pretime _ _) (latching_gate e _)
                _ (frame_start g) _ Hset).
      - intros _ g' n [H1 _] H2. congruence.
      - split; auto. }
    destruct H as [Hc Hk]. split; [|exact Hk].
    apply count_flags_complete, Hc.
  - intros e g Hok Hno Hall.
    refine (Render_rule e (fun _ => True)
              (fun r g' _ => r = false ->
                 12 <= count_flags 12 0 (compFlag g') -> endGet g' = true)
              (everything_actors e) (fun _ _ _ => I) (closing_gate e)
              _ (frame_start g) I Hno _).
    + congruence.
    + apply complete_count_flags, Hall.
  - intros e g. apply reset_passes_hold_test.
  - intros e g latched Hres Hend Hl Hclock.
    destruct (reset_passes_hold_test e g Hres) as (k & Hk & Htest).
    exists k. split; [exact Hk|].
    unfold wrapU32 in Htest.
    rewrite Z.mod_small in Htest
      by (specialize (Hclock k); change (2 ^ 32) with 4294967296;
          change (2 ^ 24) with 16777216 in Hclock; lia).
    rewrite Hend, hold_test_exact in Htest by auto.
    apply Z.ltb_lt, Htest.
Qed.

End Latch.

(** ** The resize message *)

Lemma low_word_range z : 0 <= Z.land z 65535 < 65536.
Proof.
  change 65535 with (Z.ones 16). rewrite Z.land_ones by lia.
  apply Z.mod_pos_bound. lia.
Qed.

(** Every nonzero 16-bit size converts to a positive finite [float]. *)
Lemma word_size_positive w :
  0 < w < 65536 -> is_positive_finite (B32.of_Z w) = true.
Proof.
  intros Hw.
  destruct (binary_normalize_exact B32.prec B32.emax ltac:(reflexivity) ltac:(reflexivity) w)
    as (m & e & H & _).
  - unfold B32.prec. change (2 ^ 24) with 16777216. lia.
  - unfold B32.of_Z. rewrite H. reflexivity.
Qed.

(** C5 (as the code has it).  [WM_SIZE] stores the quotient of the two
    16-bit fields of [lParam] whatever they are: there is no guard.  When the
    height field is 0 the stored aspect ratio is [+infinity] for a nonzero
    width field and NaN for a zero one, whatever the prior value was. *)
Theorem resize_with_zero_height lParam g :
  Z.land (Z.shiftr lParam 16) 65535 = 0 ->
  g_aspect (MsgProc WM_SIZE lParam g) =
    if Z.land lParam 65535 =? 0 then S754_nan else S754_infinity false.
Proof.
  intros Hh. unfold MsgProc. change (WM_SIZE =? WM_DESTROY) with false.
  change (WM_SIZE =? WM_SIZE) with true. cbv iota. rewrite Hh.
  destruct g; step_block.
  pose proof (low_word_range lParam) as Hw.
  destruct (Z.land lParam 65535 =? 0) eqn:E.
  - apply Z.eqb_eq in E. rewrite E. reflexivity.
  - apply Z.eqb_neq in E.
    pose proof (word_size_positive (Z.land lParam 65535) ltac:(lia)) as Hp.
    destruct (B32.of_Z (Z.land lParam 65535)) as [| | |[] m x];
      try discriminate Hp. reflexivity.
Qed.

(** ** The trail emission *)

(** C8 (as the code has it).  The emission step of an actor, run when the
    clock reads [now] and then [now'] (its reads number [n] and [n + 1] in the
    frame): if the test succeeds and the write
    cursor is below the capacity, exactly one entry is appended (the square
    of the actor, at the cursor, which advances by one), the phase reference
    becomes the stamp of [now'], and with that reference the test fails for
    every reading in the same quarter of a second as [now'], so no second
    entry follows for this crossing.  If the test fails, or the trail is
    full, the step changes nothing. *)
Theorem trail_emission_once a sq e g n c :
  let now := wrapU32 (clock e n) in
  let now' := wrapU32 (clock e (S n)) in
  let g' := vars (exec (emit a sq) e (Machine g n c)) in
  (crosses a (phase a g) now = true -> index g < indexMax ->
     index g' = index g + 1 /\
     squarePos g' = <[Z.to_nat (index g) := sq g]> (squarePos g) /\
     phase a g' = stamp a now' /\
     forall t, 0 <= t < 2 ^ 32 -> t / 250 = now' / 250 ->
       crosses a (phase a g') t = false) /\
  (crosses a (phase a g) now = false -> g' = g) /\
  (indexMax <= index g -> g' = g).
Proof.
  cbv zeta.
  split; [|split].
  - intros Htest Hroom.
    assert (Hrun : vars (exec (emit a sq) e (Machine g n c)) =
                   set_phase a (stamp a (wrapU32 (clock e (S n))))
                     (push_square (sq g) g)).
    { cbv [exec emit bind timeGetTime get when branch modify ret vars ticks calls snd].
      rewrite Htest. apply Z.ltb_lt in Hroom. rewrite Hroom. reflexivity. }
    rewrite Hrun.
    assert (Hphase : phase a (set_phase a (stamp a (wrapU32 (clock e (S n))))
                                (push_square (sq g) g)) =
                     stamp a (wrapU32 (clock e (S n))))
      by (destruct g, a; reflexivity).
    split; [destruct g, a; reflexivity|].
    split; [destruct g, a; reflexivity|].
    split; [exact Hphase|].
    intros t' Ht' Hsame. rewrite Hphase.
    apply no_second_crossing; [apply wrapU32_range | exact Ht' | exact Hsame].
  - intros Htest.
    cbv [exec emit bind timeGetTime get when branch modify ret vars ticks calls snd].
    rewrite Htest. reflexivity.
  - intros Hfull.
    cbv [exec emit bind timeGetTime get when branch modify ret vars ticks calls snd].
    apply Z.ltb_ge in Hfull. rewrite Hfull, andb_false_r. reflexivity.
Qed.

(** ** The first actor's run *)

Lemma I1_start_moving :
  fle (to_double (B32.of_Z (-3))) (B64.opp (B64.lit 19 10)) = true.
Proof. vm_compute. reflexivity. Qed.

Lemma I1_after_2200 :
  add_assign (B32.of_Z (-3)) (stride (wrapU32 2200) (B32.of_Z 0)) = I1_stop.
Proof. vm_compute. reflexivity. Qed.

Lemma I1_stop_not_moving : fle (to_double I1_stop) (B64.opp (B64.lit 19 10)) = false.
Proof. vm_compute. reflexivity. Qed.

Lemma I2_start_moving : fge (to_double f1_5) (B64.opp (B64.lit 15 10)) = true.
Proof. vm_compute. reflexivity. Qed.

Lemma I2_after_2200_moving :
  fge (to_double (sub_assign f1_5 (stride (wrapU32 2200) (B32.of_Z 0))))
      (B64.opp (B64.lit 15 10)) = true.
Proof. vm_compute. reflexivity. Qed.

(** The gate does nothing while a flag is unset. *)
Lemma gate_idle e m i :
  (i < 12)%nat -> flag_at (compFlag (vars m)) i = false -> gate e m = (false, m).
Proof.
  intros Hi Hflag. unfold gate, bind, get, branch.
  destruct (12 <=? count_flags 12 0 (compFlag (vars m))) eqn:E; [|reflexivity].
  apply Z.leb_le in E.
  rewrite (count_flags_full 12 0 _ E i) in Hflag by lia. discriminate.
Qed.

Section FirstActor.

Variables cosf sinf : float -> float.

Local Abbreviation actor_p2 := (actor_p2 cosf sinf).
Local Abbreviation actors := (actors cosf sinf).
Local Abbreviation Render := (Render cosf sinf).
Local Abbreviation Render_globals := (Render_globals cosf sinf).
Local Abbreviation Render_resets := (Render_resets cosf sinf).
Local Abbreviation Render_calls := (Render_calls cosf sinf).
Local Abbreviation Render_ticks := (Render_ticks cosf sinf).
Local Abbreviation moving := (moving cosf).
Local Abbreviation step := (step cosf sinf).
Local Abbreviation run := (run cosf sinf).
Local Abbreviation reachable := (reachable cosf sinf).
Local Abbreviation frozen_at := (frozen_at cosf).
Local Abbreviation settled := (settled cosf).

Lemma actors_from e (S Sa Sb : globals -> Prop) :
  triple e (fun m => S (vars m)) actor_I1 (fun _ m => Sa (vars m)) ->
  triple e (fun m => Sa (vars m)) actor_I2 (fun _ m => Sb (vars m)) ->
  stable e Sb actor_I3 -> stable e Sb actor_K1 -> stable e Sb actor_k2 ->
  stable e Sb actor_k3 -> stable e Sb actor_e1 -> stable e Sb actor_e234 ->
  stable e Sb actor_p1 -> stable e Sb actor_p2 ->
  triple e (fun m => S (vars m)) actors (fun _ m => Sb (vars m)).
Proof.
  intros H1 H2 **. unfold_actors.
  eapply triple_bind; [exact H1 | intros ?].
  eapply triple_bind; [exact H2 | intros ?].
  repeat (apply stable_bind; [assumption | intros ?]). assumption.
Qed.

Ltac known_conditions :=
  repeat match goal with
         | H : _ /\ _ |- _ => destruct H
         end;
  subst;
  repeat match goal with
         | H : fle (to_double (B32.of_Z (-3))) _ = false |- _ =>
             rewrite I1_start_moving in H; discriminate H
         | H : fle (to_double I1_stop) _ = true |- _ =>
             rewrite I1_stop_not_moving in H; discriminate H
         | H : fge (to_double f1_5) _ = false |- _ =>
             rewrite I2_start_moving in H; discriminate H
         end.

Lemma first_frame_actors :
  triple (at_time 2200) (fun m => at_start (vars m)) actors
    (fun _ m => arrived false (vars m) /\ I2_moving (vars m) = true).
Proof.
  apply (actors_from (at_time 2200) at_start
    (fun g => I1 g = I1_stop /\ I2 g = f1_5 /\ pretime g = B32.of_Z 0 /\
              flag_at (compFlag g) 0 = false /\ flag_at (compFlag g) 1 = false)
    (fun g => arrived false g /\ I2_moving g = true));
    run_block; unfold at_start, arrived in *; step_block; known_conditions;
    cbv [at_time clock] in *; rewrite ?I1_after_2200, ?I2_after_2200_moving;
    flag_goal; repeat split; solve [assumption | reflexivity | congruence].
Qed.

Lemma second_frame_actors e :
  triple e (fun m => arriving (vars m)) actors
    (fun _ m => arrived true (vars m)).
Proof.
  apply (actors_from e arriving
    (fun g => arrived true g /\ I2_moving g = true)
    (arrived true));
    run_block; unfold arriving, arrived in *; step_block; known_conditions;
    flag_facts; flag_goal; repeat split;
    solve [assumption | reflexivity | congruence].
Qed.

Lemma arrived_pretime b t g : arrived b g -> arrived b (set_pretime t g).
Proof. destruct g; unfold arrived; step_block; auto. Qed.

Lemma arrived_gate e b :
  triple e (fun m => arrived b (vars m)) gate
    (fun r m => r = false /\ arrived b (vars m)).
Proof.
  intros m Hm. rewrite (gate_idle e m 1); [split; [reflexivity | exact Hm] | lia |].
  apply Hm.
Qed.

Lemma first_frame :
  let g1 := Render_globals (at_time 2200) (initial_globals 0) in
  arriving g1.
Proof.
  cbv zeta.
  assert (H : arrived false (Render_globals (at_time 2200) (initial_globals 0)) /\
              I2_moving (Render_globals (at_time 2200) (initial_globals 0)) = true).
  { refine (Render_triple (at_time 2200) at_start
              (fun g => arrived false g /\ I2_moving g = true)
              (fun _ g _ => arrived false g /\ I2_moving g = true)
              first_frame_actors _ _ _ (frame_start (initial_globals 0)) _).
    - intros t [] [H1 H2]. split; [apply arrived_pretime, H1 | exact H2].
    - intros m [H1 H2]. rewrite (gate_idle (at_time 2200) m 1); [split; assumption | lia |].
      apply H1.
    - discriminate.
    - repeat split; reflexivity. }
  destruct H as [H1 H2]. split; [exact H1 | split; [exact H2|]].
  apply (well_formed_Render cosf sinf). apply well_formed_initial.
Qed.

(** C4 (as the code has it).  Started with the clock at 0, one frame read
    at 2200 ms takes [I1] from -3 to the [float] nearest to -1.9, which is
    what [-3 + 0.5 * 2.2] rounds to and is just above -1.9; the flag of
    actor 0 is still unset after that frame, and every following frame whose
    [BeginScene] succeeds, being the first to find [I1 <= -1.9] false, sets
    it and leaves [I1] there. *)
Theorem actor0_completes_after_2200ms :
  let g1 := Render_globals (at_time 2200) (initial_globals 0) in
  I1 g1 = S754_finite true 15938355 (-23) /\
  I1 g1 = to_float (B64.add (B64.of_Z (-3)) (B64.mul (B64.lit 1 2) (B64.lit 22 10))) /\
  I1_moving g1 = false /\
  completed A0 g1 = false /\
  forall e, begin_ok e = true ->
    completed A0 (Render_globals e g1) = true /\
    I1 (Render_globals e g1) = I1 g1.
Proof.
  cbv zeta. pose proof first_frame as Hg1. cbv zeta in Hg1.
  set (g1 := Render_globals (at_time 2200) (initial_globals 0)) in *.
  destruct Hg1 as [[HI1 [Hf0 Hf1]] [HI2 Hlen]].
  split; [rewrite HI1; reflexivity|].
  split; [rewrite HI1; vm_compute; reflexivity|].
  split; [unfold I1_moving; rewrite HI1; apply I1_stop_not_moving|].
  split; [exact Hf0|].
  intros e Hok.
  assert (H : arrived true (Render_globals e g1)).
  { refine (proj2 (Render_triple e arriving (arrived true)
                     (fun r g _ => r = false /\ arrived true g)
                     (second_frame_actors e) (arrived_pretime true) (arrived_gate e true)
                     _ (frame_start g1) _)).
    - congruence.
    - repeat split; assumption. }
  destruct H as [H1 [H0 _]]. split; [exact H0 | congruence].
Qed.

End FirstActor.

(** * Concrete runs *)

Lemma sample_run_reachable inputs :
  reachable cos_sample sin_sample (sample_run inputs).
Proof. apply reachable_run. constructor. Qed.

Lemma full_trail_reachable : reachable cos_sample sin_sample full_trail.
Proof. apply reachable_run. constructor. Qed.

Lemma completed_actor_stays_frozen_witness :
  reachable cos_sample sin_sample first_arrival /\
  completed A0 first_arrival = true /\
  Render_resets cos_sample sin_sample (at_time 2232) first_arrival = false /\
  position A0 (Render_globals cos_sample sin_sample (at_time 2232) first_arrival) =
    position A0 first_arrival /\
  phase A0 (Render_globals cos_sample sin_sample (at_time 2232) first_arrival) =
    phase A0 first_arrival /\
  completed A0 (Render_globals cos_sample sin_sample (at_time 2232) first_arrival) = true.
Proof.
  assert (Hr : reachable cos_sample sin_sample first_arrival)
    by apply sample_run_reachable.
  assert (Hc : completed A0 first_arrival = true) by (vm_compute; reflexivity).
  assert (Hn : Render_resets cos_sample sin_sample (at_time 2232) first_arrival = false)
    by (vm_compute; reflexivity).
  exact (conj Hr (conj Hc (conj Hn
    (completed_actor_stays_frozen cos_sample sin_sample first_arrival
       (at_time 2232) A0 Hr Hc Hn)))).
Defined.

Lemma reset_restores_initial_state_witness :
  reachable cos_sample sin_sample all_arrived /\
  Render_resets cos_sample sin_sample (at_time 12001) all_arrived = true /\
  sequencer_state (Render_globals cos_sample sin_sample (at_time 12001) all_arrived) =
    sequencer_state (initial_globals 0).
Proof.
  assert (Hr : reachable cos_sample sin_sample all_arrived)
    by apply sample_run_reachable.
  assert (Hx : Render_resets cos_sample sin_sample (at_time 12001) all_arrived = true)
    by (vm_compute; reflexivity).
  exact (conj Hr (conj Hx
    (proj1 (reset_restores_initial_state cos_sample sin_sample all_arrived
              (at_time 12001) 0 Hr Hx)))).
Defined.

Lemma hold_start_latched_once_witness :
  (endGet all_arrived = true /\
   endTime (Render_globals cos_sample sin_sample (at_time 7016) all_arrived) =
     endTime all_arrived /\
   endGet (Render_globals cos_sample sin_sample (at_time 7016) all_arrived) = true) /\
  (endGet one_jump = false /\
   endGet (Render_globals cos_sample sin_sample (at_time 7000) one_jump) = true /\
   (forall a, completed a (Render_globals cos_sample sin_sample (at_time 7000) one_jump) = true) /\
   exists k, (k < Render_ticks cos_sample sin_sample (at_time 7000) one_jump)%nat /\
     endTime (Render_globals cos_sample sin_sample (at_time 7000) one_jump) =
       B32.of_Z (wrapU32 (clock (at_time 7000) k))) /\
  (Render_resets cos_sample sin_sample (at_time 12001) all_arrived = true /\
   exists k, (k < Render_ticks cos_sample sin_sample (at_time 12001) all_arrived)%nat /\
     fgt (B32.sub (B32.of_Z (wrapU32 (clock (at_time 12001) k)))
                  (endTime (Render_globals cos_sample sin_sample (at_time 12001) all_arrived)))
         (B32.of_Z (1000 * 5)) = true) /\
  (endTime (Render_globals cos_sample sin_sample (at_time 12001) all_arrived) =
     B32.of_Z 7000 /\
   0 <= 7000 < 2 ^ 24 /\
   (forall k : nat, 0 <= clock (at_time 12001) k < 2 ^ 24) /\
   exists k, (k < Render_ticks cos_sample sin_sample (at_time 12001) all_arrived)%nat /\
     5000 < clock (at_time 12001) k - 7000).
Proof.
  destruct (hold_start_latched_once cos_sample sin_sample) as (H1 & H2 & H3 & H4 & H5).
  assert (E5 : endTime (Render_globals cos_sample sin_sample (at_time 12001) all_arrived) =
               B32.of_Z 7000) by (vm_compute; reflexivity).
  assert (R5 : 0 <= 7000 < 2 ^ 24) by (vm_compute; split; [discriminate | reflexivity]).
  assert (C5 : forall k : nat, 0 <= clock (at_time 12001) k < 2 ^ 24)
    by (intros k; vm_compute; split; [discriminate | reflexivity]).
  assert (L1 : endGet all_arrived = true) by (vm_compute; reflexivity).
  assert (N1 : Render_resets cos_sample sin_sample (at_time 7016) all_arrived = false)
    by (vm_compute; reflexivity).
  assert (L2 : endGet one_jump = false) by (vm_compute; reflexivity).
  assert (N2 : Render_resets cos_sample sin_sample (at_time 7000) one_jump = false)
    by (vm_compute; reflexivity).
  assert (A2 : forall a, completed a (Render_globals cos_sample sin_sample (at_time 7000) one_jump) = true)
    by (intros []; vm_compute; reflexivity).
  assert (X4 : Render_resets cos_sample sin_sample (at_time 12001) all_arrived = true)
    by (vm_compute; reflexivity).
  pose proof (H3 (at_time 7000) one_jump eq_refl N2 A2) as S2.
  split; [|split; [|split]].
  - destruct (H1 (at_time 7016) all_arrived L1) as [E1 K1].
    exact (conj L1 (conj E1 (K1 N1))).
  - exact (conj L2 (conj S2 (H2 (at_time 7000) one_jump L2 S2))).
  - exact (conj X4 (H4 (at_time 12001) all_arrived X4)).
  - exact (conj E5 (conj R5 (conj C5 (H5 (at_time 12001) all_arrived 7000 X4 E5 R5 C5)))).
Defined.

(** On a machine up for [2 ^ 31] ms the latch is taken from the reading
    [uptime + 7295], and the frame read 4900 ms after it resets. *)
Lemma early_reset_counterexample :
  reachable cos_sample sin_sample late_hold /\
  endGet late_jump = false /\
  endGet late_hold = true /\
  endTime late_hold = B32.of_Z (uptime + 7295) /\
  Render_resets cos_sample sin_sample (at_time (uptime + 7295 + 4900)) late_hold = true /\
  (uptime + 7295 + 4900) - (uptime + 7295) <= 5000.
Proof.
  split; [apply reachable_run; constructor|].
  split; [vm_compute; reflexivity|].
  split; [vm_compute; reflexivity|].
  split; [vm_compute; reflexivity|].
  split; [vm_compute; reflexivity|].
  vm_compute. discriminate.
Qed.

Lemma actor0_completes_after_2200ms_witness :
  begin_ok (at_time 2216) = true /\
  completed A0
    (Render_globals cos_sample sin_sample (at_time 2216)
       (Render_globals cos_sample sin_sample (at_time 2200) (initial_globals 0))) = true /\
  I1 (Render_globals cos_sample sin_sample (at_time 2216)
        (Render_globals cos_sample sin_sample (at_time 2200) (initial_globals 0))) =
  I1 (Render_globals cos_sample sin_sample (at_time 2200) (initial_globals 0)).
Proof.
  destruct (actor0_completes_after_2200ms cos_sample sin_sample) as (_ & _ & _ & _ & H).
  exact (conj eq_refl (H (at_time 2216) eq_refl)).
Defined.

(** Two frames of 1100 ms add up to 2200 ms and leave [I1] one unit in the
    last place below the [float] nearest to -1.9: the actor still moves.  And
    after the single frame of 2200 ms that carries [I1] past -1.9 the flag is
    not yet set. *)
Lemma accumulated_2200ms_counterexample :
  I1 (sample_run [Frame (at_time 1100); Frame (at_time 2200)]) <>
    to_float (B64.opp (B64.lit 19 10)) /\
  I1_moving (sample_run [Frame (at_time 1100); Frame (at_time 2200)]) = true /\
  I1_moving (sample_run [Frame (at_time 2200)]) = false /\
  completed A0 (sample_run [Frame (at_time 2200)]) = false.
Proof.
  split; [vm_compute; discriminate|].
  repeat split; vm_compute; reflexivity.
Qed.

Lemma resize_with_zero_height_witness :
  Z.land (Z.shiftr 640 16) 65535 = 0 /\
  g_aspect (MsgProc WM_SIZE 640 (initial_globals 0)) = S754_infinity false.
Proof.
  exact (conj eq_refl (resize_with_zero_height 640 (initial_globals 0) eq_refl)).
Defined.

(** A window 640 wide and 0 high: the aspect ratio 1.6 is not kept. *)
Lemma resize_zero_height_counterexample :
  g_aspect (MsgProc WM_SIZE 640 (initial_globals 0)) <> g_aspect (initial_globals 0).
Proof. vm_compute. discriminate. Qed.

Lemma static_quads_drawn_first_witness :
  begin_ok (at_time 0) = true /\
  exists rest,
    Render_calls cos_sample sin_sample (at_time 0) (initial_globals 0) =
      [Clear; BeginScene; SetupLights; SetupMatrices (g_aspect (initial_globals 0));
       SetStreamSource g_pVB2]
      ++ static_calls ++ trail_calls (initial_globals 0)
      ++ [SetStreamSource g_pVB; SetFVF] ++ rest /\
    length (filter is_quad_draw static_calls) = 5%nat /\
    Forall (fun c => is_quad_draw c = false) rest.
Proof.
  exact (conj eq_refl
    (static_quads_drawn_first cos_sample sin_sample (at_time 0) (initial_globals 0) eq_refl)).
Defined.

(** The first frame of the program draws five flat quads, not six. *)
Lemma six_static_quads_counterexample :
  length (filter is_quad_draw
            (Render_calls cos_sample sin_sample (at_time 0) (initial_globals 0))) <> 6%nat.
Proof. vm_compute. discriminate. Qed.

Lemma trail_cursor_within_capacity_witness :
  reachable cos_sample sin_sample full_trail /\
  index full_trail = indexMax /\
  Render_resets cos_sample sin_sample (at_time 46000) full_trail = false /\
  0 <= index full_trail <= indexMax /\
  squarePos (Render_globals cos_sample sin_sample (at_time 46000) full_trail) =
    squarePos full_trail /\
  index (Render_globals cos_sample sin_sample (at_time 46000) full_trail) = indexMax.
Proof.
  assert (Hr : reachable cos_sample sin_sample full_trail)
    by apply full_trail_reachable.
  assert (Hf : index full_trail = indexMax) by (vm_compute; reflexivity).
  assert (Hn : Render_resets cos_sample sin_sample (at_time 46000) full_trail = false)
    by (vm_compute; reflexivity).
  destruct (trail_cursor_within_capacity cos_sample sin_sample full_trail
              (at_time 46000) Hr) as [Hb Hk].
  exact (conj Hr (conj Hf (conj Hn (conj Hb (Hk Hf Hn))))).
Defined.

Lemma trail_emission_once_witness :
  (crosses A0 (phase A0 (initial_globals 0)) (wrapU32 (clock (at_time 1000) 0)) = true /\
   index (initial_globals 0) < indexMax /\
   index (vars (exec (emit A0 I1_square) (at_time 1000) (Machine (initial_globals 0) 0 []))) =
     index (initial_globals 0) + 1 /\
   forall t, 0 <= t < 2 ^ 32 -> t / 250 = wrapU32 (clock (at_time 1000) 1) / 250 ->
     crosses A0
       (phase A0 (vars (exec (emit A0 I1_square) (at_time 1000)
                          (Machine (initial_globals 0) 0 [])))) t = false) /\
  (crosses A0 (phase A0 (initial_globals 0)) (wrapU32 (clock (at_time 0) 0)) = false /\
   vars (exec (emit A0 I1_square) (at_time 0) (Machine (initial_globals 0) 0 [])) =
     initial_globals 0) /\
  (indexMax <= index full_trail /\
   vars (exec (emit A0 I1_square) (at_time 46000) (Machine full_trail 0 [])) = full_trail).
Proof.
  assert (T1 : crosses A0 (phase A0 (initial_globals 0))
                 (wrapU32 (clock (at_time 1000) 0)) = true) by (vm_compute; reflexivity).
  assert (R1 : index (initial_globals 0) < indexMax) by (vm_compute; reflexivity).
  assert (T2 : crosses A0 (phase A0 (initial_globals 0))
                 (wrapU32 (clock (at_time 0) 0)) = false) by (vm_compute; reflexivity).
  assert (F3 : indexMax <= index full_trail) by (vm_compute; discriminate).
  destruct (trail_emission_once A0 I1_square (at_time 1000) (initial_globals 0) 0 [])
    as (H1 & _ & _).
  destruct (trail_emission_once A0 I1_square (at_time 0) (initial_globals 0) 0 [])
    as (_ & H2 & _).
  destruct (trail_emission_once A0 I1_square (at_time 46000) full_trail 0 [])
    as (_ & _ & H3).
  destruct (H1 T1 R1) as (I1' & _ & _ & N1).
  exact (conj (conj T1 (conj R1 (conj I1' N1)))
          (conj (conj T2 (H2 T2)) (conj F3 (H3 F3)))).
Defined.

(** With the trail full, the test of actor 0 succeeds in the next frame,
    500 ms after the last one; nothing is appended, the phase reference
    stays, and the test goes on succeeding. *)
Lemma full_trail_emission_counterexample :
  reachable cos_sample sin_sample full_trail /\
  crosses A0 (phase A0 full_trail) 46000 = true /\
  index (vars (exec (emit A0 I1_square) (at_time 46000) (Machine full_trail 0 []))) =
    index full_trail /\
  squarePos (vars (exec (emit A0 I1_square) (at_time 46000) (Machine full_trail 0 []))) =
    squarePos full_trail /\
  crosses A0
    (phase A0 (vars (exec (emit A0 I1_square) (at_time 46000) (Machine full_trail 0 []))))
    46000 = true.
Proof.
  split; [apply full_trail_reachable|].
  split; [|split; [|split]]; vm_compute; reflexivity.
Qed.

Lemma frame_depends_on_its_clock_readings_witness :
  begin_ok (at_time 5) = begin_ok fifty_one_reads /\
  (forall k, (k < 51)%nat -> clock (at_time 5) k = clock fifty_one_reads k) /\
  Render cos_sample sin_sample (at_time 5) (frame_start (initial_globals 0)) =
    Render cos_sample sin_sample fifty_one_reads (frame_start (initial_globals 0)) /\
  (Render_ticks cos_sample sin_sample (at_time 5) (initial_globals 0) <= 51)%nat.
Proof.
  assert (Hc : forall k, (k < 51)%nat -> clock (at_time 5) k = clock fifty_one_reads k).
  { intros k Hk. simpl. destruct (Nat.ltb_spec k 51); [reflexivity | lia]. }
  exact (conj eq_refl (conj Hc
    (frame_depends_on_its_clock_readings cos_sample sin_sample (at_time 5)
       fifty_one_reads (initial_globals 0) eq_refl Hc))).
Defined.

(** Two frames from the same globals whose first clock reading is the same
    2200 end in different globals when a later reading differs; and the frame
    reads the clock 49 times. *)
Lemma single_now_counterexample :
  clock (at_time 2200) 0 = clock late_second_read 0 /\
  begin_ok (at_time 2200) = begin_ok late_second_read /\
  Render_globals cos_sample sin_sample (at_time 2200) (initial_globals 0) <>
    Render_globals cos_sample sin_sample late_second_read (initial_globals 0) /\
  Render_ticks cos_sample sin_sample (at_time 2200) (initial_globals 0) = 49%nat.
Proof.
  split; [reflexivity|]. split; [reflexivity|]. split.
  - intros H. apply (f_equal I1) in H. vm_compute in H. discriminate H.
  - vm_compute. reflexivity.
Qed.

Lemma e234_flags_move_together_witness :
  reachable cos_sample sin_sample all_arrived /\
  e234_flags_agree all_arrived /\
  e234_flags_agree (Render_globals cos_sample sin_sample (at_time 7016) all_arrived) /\
  completed A7 (Render_globals cos_sample sin_sample (at_time 7016) all_arrived) = true /\
  vars (exec actor_e234 (at_time 7016) (Machine all_arrived 0 [])) =
    set_flag 9 true (set_flag 8 true (set_flag 7 true all_arrived)) /\
  completed A8 (vars (exec actor_e234 (at_time 7016) (Machine all_arrived 0 []))) = true.
Proof.
  assert (Hr : reachable cos_sample sin_sample all_arrived)
    by apply sample_run_reachable.
  assert (Hc : completed A7 all_arrived = true) by (vm_compute; reflexivity).
  assert (Hn : Render_resets cos_sample sin_sample (at_time 7016) all_arrived = false)
    by (vm_compute; reflexivity).
  assert (Hs : e234_moving all_arrived = false) by (vm_compute; reflexivity).
  assert (Hl : length (compFlag all_arrived) = 12%nat) by (vm_compute; reflexivity).
  destruct (e234_flags_move_together cos_sample sin_sample all_arrived (at_time 7016) Hr)
    as (H1 & H2 & H3 & H4).
  destruct (H4 all_arrived 0%nat [] Hs) as [H5 H6].
  exact (conj Hr (conj H1 (conj H2
    (conj (H3 A7 (or_introl eq_refl) Hc Hn)
       (conj H5 (H6 Hl A8 (or_intror (or_introl eq_refl)))))))).
Defined.

(** * More of the frame *)

(** ** The shape of a frame *)

Lemma quad_draws_app l1 l2 :
  length (filter is_quad_draw (l1 ++ l2)) =
  (length (filter is_quad_draw l1) + length (filter is_quad_draw l2))%nat.
Proof. rewrite filter_app, length_app. reflexivity. Qed.

Lemma cuboid_calls_no_quad l :
  Forall cuboid_call l -> length (filter is_quad_draw l) = 0%nat.
Proof.
  induction 1 as [|c l Hc _ IH]; [reflexivity|].
  change (c :: l) with ([c] ++ l). rewrite quad_draws_app, IH.
  destruct c; try contradiction; try reflexivity.
  simpl in Hc. destruct start; try contradiction.
  destruct count as [|p|p]; try contradiction.
  repeat (destruct p as [p|p|]; try contradiction); reflexivity.
Qed.

Lemma cuboid_calls_no_scene l :
  Forall cuboid_call l -> Forall (fun c => is_scene_call c = false) l.
Proof.
  intros H. eapply Forall_impl; [exact H|].
  intros [] Hc; try reflexivity; contradiction.
Qed.

Lemma trail_quads (sq : list square) (l : list nat) :
  length (filter is_quad_draw (flat_map (fun i => square_calls (sq !!! i)) l)) =
  length l.
Proof.
  induction l as [|i l IH]; [reflexivity|].
  cbn [flat_map]. rewrite quad_draws_app, IH.
  destruct (sq !!! i) as [[x y] a]. reflexivity.
Qed.

Lemma trail_no_scene (sq : list square) (l : list nat) :
  Forall (fun c => is_scene_call c = false)
    (flat_map (fun i => square_calls (sq !!! i)) l).
Proof.
  induction l as [|i l IH]; [constructor|].
  cbn [flat_map]. apply Forall_app. split; [|exact IH].
  destruct (sq !!! i) as [[x y] a]. repeat constructor.
Qed.

Section FrameShape.

Variables cosf sinf : float -> float.

Local Abbreviation actor_p2 := (actor_p2 cosf sinf).
Local Abbreviation actors := (actors cosf sinf).
Local Abbreviation Render := (Render cosf sinf).
Local Abbreviation Render_globals := (Render_globals cosf sinf).
Local Abbreviation Render_resets := (Render_resets cosf sinf).
Local Abbreviation Render_calls := (Render_calls cosf sinf).
Local Abbreviation Render_ticks := (Render_ticks cosf sinf).
Local Abbreviation moving := (moving cosf).
Local Abbreviation step := (step cosf sinf).
Local Abbreviation run := (run cosf sinf).
Local Abbreviation reachable := (reachable cosf sinf).
Local Abbreviation frozen_at := (frozen_at cosf).
Local Abbreviation settled := (settled cosf).

(** A frame whose [BeginScene] succeeds, cut at its actor blocks and at
    its gate. *)
Lemma Render_success e g :
  begin_ok e = true ->
  Render e (frame_start g) =
    let m1 := snd (actors e (Machine g 0 (opening_calls g))) in
    let m2 := Machine (set_pretime (B32.of_Z (wrapU32 (clock e (ticks m1)))) (vars m1))
                      (S (ticks m1)) (calls m1) in
    let m3 := snd (gate e m2) in
    (fst (gate e m2),
     Machine (vars m3) (ticks m3) (calls m3 ++ [EndScene; Present])).
Proof.
  intros Hok. unfold frame_start. unfold_Render.
  cbv [bind call BeginScene_succeeded branch get ret vars ticks calls].
  rewrite Hok, static_quads_run. cbv [vars ticks calls].
  rewrite trail_run. cbv [vars ticks calls].
  replace (((((([] ++ [Clear]) ++ [BeginScene]) ++ [SetupLights]) ++
              [SetupMatrices (g_aspect g)]) ++ [SetStreamSource g_pVB2]) ++
            static_calls) with
    ([Clear; BeginScene; SetupLights; SetupMatrices (g_aspect g);
      SetStreamSource g_pVB2] ++ static_calls) by reflexivity.
  match goal with
  | |- context [actors e (Machine g 0%nat ?l)] =>
      replace l with (opening_calls g)
        by (unfold opening_calls; rewrite <- !app_assoc; reflexivity)
  end.
  destruct (actors e (Machine g 0 (opening_calls g))) as [[] m1].
  cbv [timeGetTime modify vars ticks calls snd fst].
  destruct (gate e _) as [r m3].
  cbv [vars ticks calls snd fst]. rewrite <- app_assoc. reflexivity.
Qed.

Lemma Render_failure e g :
  begin_ok e = false ->
  Render e (frame_start g) = (false, Machine g 0 [Clear; BeginScene; Present]).
Proof.
  intros Hok. unfold frame_start. unfold_Render.
  cbv [bind call BeginScene_succeeded branch get ret vars ticks calls].
  rewrite Hok. reflexivity.
Qed.

(** The device log of a frame whose [BeginScene] succeeds. *)
Lemma Render_calls_success e g :
  begin_ok e = true ->
  exists l,
    Render_calls e g = opening_calls g ++ l ++ [EndScene; Present] /\
    Forall cuboid_call l.
Proof.
  intros Hok. unfold Render_calls, exec. rewrite (Render_success e g Hok).
  cbv zeta. cbn [snd calls].
  rewrite gate_calls. cbn [calls].
  destruct (actors_append cosf sinf e (Machine g 0 (opening_calls g))) as (l & Hl & Fl).
  exists l. split; [|exact Fl].
  rewrite Hl. cbn [calls]. rewrite <- app_assoc. reflexivity.
Qed.

(** X1.  A frame whose [BeginScene] fails is skipped: it makes the calls
    [Clear], [BeginScene] and [Present] only, reads no clock, does not reset
    and leaves every global as it was, [pretime] included, so that the step
    of the next frame spans the skipped one. *)
Theorem failed_frame_is_skipped e g :
  begin_ok e = false ->
  Render_calls e g = [Clear; BeginScene; Present] /\
  Render_ticks e g = 0%nat /\
  Render_resets e g = false /\
  Render_globals e g = g /\
  forall e', Render e' (frame_start (Render_globals e g)) = Render e' (frame_start g).
Proof.
  intros Hok.
  unfold Render_calls, Render_ticks, Render_resets, Render_globals, exec.
  rewrite (Render_failure e g Hok). repeat split.
Qed.

(** X2.  Every frame starts with [Clear] and [BeginScene] and ends with
    [Present]; [EndScene] is called, right before [Present], exactly when
    [BeginScene] succeeded; and none of the four is called in between, where
    there is nothing at all when [BeginScene] failed. *)
Theorem scene_calls_are_bracketed e g :
  exists body,
    Render_calls e g =
      [Clear; BeginScene] ++ body ++
      (if begin_ok e then [EndScene] else []) ++ [Present] /\
    Forall (fun c => is_scene_call c = false) body /\
    (begin_ok e = false -> body = []).
Proof.
  destruct (begin_ok e) eqn:Hok.
  - destruct (Render_calls_success e g Hok) as (l & -> & Fl).
    exists ([SetupLights; SetupMatrices (g_aspect g); SetStreamSource g_pVB2]
            ++ static_calls ++ trail_calls g ++ [SetStreamSource g_pVB; SetFVF] ++ l).
    split; [|split; [|discriminate]].
    + unfold opening_calls. cbn [app]. rewrite <- !app_assoc. reflexivity.
    + apply Forall_app. split; [repeat constructor|].
      apply Forall_app. split; [repeat constructor|].
      apply Forall_app. split; [apply trail_no_scene|].
      apply Forall_app. split; [repeat constructor|].
      apply cuboid_calls_no_scene, Fl.
  - exists []. unfold Render_calls, exec. rewrite (Render_failure e g Hok).
    repeat split. constructor.
Qed.

(** X3.  A frame whose [BeginScene] succeeds draws the flat quad five
    times for the static placements and once for each entry the trail holds
    when the frame starts: an entry recorded during a frame shows from the
    next frame on. *)
Theorem frame_draws_recorded_quads e g :
  begin_ok e = true ->
  length (filter is_quad_draw (Render_calls e g)) = (5 + Z.to_nat (index g))%nat.
Proof.
  intros Hok. destruct (Render_calls_success e g Hok) as (l & -> & Fl).
  unfold opening_calls. rewrite !quad_draws_app.
  rewrite (cuboid_calls_no_quad l Fl). unfold trail_calls.
  rewrite trail_quads, length_seq.
  repeat match goal with
         | |- context [length (filter ?f ?l)] =>
             let n := eval vm_compute in (length (filter f l)) in
             change (length (filter f l)) with n
         end.
  lia.
Qed.

End FrameShape.

Arguments Render_success {cosf sinf}.
Arguments Render_failure {cosf sinf}.

(** ** The cuboids of a frame *)

Lemma cuboids_app l1 l2 : cuboids (l1 ++ l2) = (cuboids l1 + cuboids l2)%nat.
Proof. unfold cuboids. rewrite filter_app, length_app. reflexivity. Qed.

Lemma cuboids_draw l w : cuboids (l ++ [SetTransform w; DrawPrimitive 0 18]) = S (cuboids l).
Proof. rewrite cuboids_app. change (cuboids [_; _]) with 1%nat. lia. Qed.

Lemma cuboids_draw_split l w :
  cuboids ((l ++ [SetTransform w]) ++ [DrawPrimitive 0 18]) = S (cuboids l).
Proof. rewrite <- app_assoc. apply cuboids_draw. Qed.

Lemma cuboids_trail (sq : list square) (l : list nat) :
  cuboids (flat_map (fun i => square_calls (sq !!! i)) l) = 0%nat.
Proof.
  induction l as [|i l IH]; [reflexivity|].
  cbn [flat_map]. rewrite cuboids_app, IH.
  destruct (sq !!! i) as [[x y] a]. reflexivity.
Qed.

(** The number of actors of a list that are moving, as a sum. *)
Lemma movers_sum (f : actor -> bool) (l : list actor) :
  length (filter (fun a => f a) l) = sum_list_with (fun a => Nat.b2n (f a)) l.
Proof.
  induction l as [|a l IH]; [reflexivity|].
  cbn [sum_list_with]. rewrite <- IH.
  rewrite filter_cons. destruct (f a); simpl; reflexivity.
Qed.

Section Cuboids.

Variables cosf sinf : float -> float.

Local Abbreviation actor_p2 := (actor_p2 cosf sinf).
Local Abbreviation actors := (actors cosf sinf).
Local Abbreviation Render := (Render cosf sinf).
Local Abbreviation Render_globals := (Render_globals cosf sinf).
Local Abbreviation Render_resets := (Render_resets cosf sinf).
Local Abbreviation Render_calls := (Render_calls cosf sinf).
Local Abbreviation Render_ticks := (Render_ticks cosf sinf).
Local Abbreviation moving := (moving cosf).
Local Abbreviation step := (step cosf sinf).
Local Abbreviation run := (run cosf sinf).
Local Abbreviation reachable := (reachable cosf sinf).
Local Abbreviation frozen_at := (frozen_at cosf).
Local Abbreviation settled := (settled cosf).
Local Abbreviation draws_movers := (draws_movers cosf).

Lemma draws_movers_bind l1 l2 (c1 c2 : M unit) :
  (forall a, In a l2 -> ~ In a l1) ->
  draws_movers l1 c1 -> draws_movers l2 c2 ->
  draws_movers (l1 ++ l2) (bind c1 (fun _ => c2)).
Proof.
  intros Hdis H1 H2 e m. unfold bind.
  destruct (H1 e m) as [C1 K1]. destruct (c1 e m) as [[] m1]. cbn [snd] in *.
  destruct (H2 e m1) as [C2 K2]. split.
  - rewrite C2, C1, sum_list_with_app.
    assert (E : forall l, (forall a, In a l -> ~ In a l1) ->
                sum_list_with (fun a => Nat.b2n (moving a (vars m1))) l =
                sum_list_with (fun a => Nat.b2n (moving a (vars m))) l).
    { induction l as [|a l IH]; intros Hl; [reflexivity|].
      cbn [sum_list_with]. rewrite K1 by (apply Hl; left; reflexivity).
      rewrite IH; [reflexivity|]. intros b Hb. apply Hl. right. exact Hb. }
    rewrite (E l2 Hdis). lia.
  - intros b Hb.
    rewrite K2 by (intros Hin; apply Hb, in_app_iff; auto).
    rewrite K1 by (intros Hin; apply Hb, in_app_iff; auto).
    reflexivity.
Qed.

Ltac block_draws :=
  let e := fresh "e" in
  let b := fresh "b" in
  let Hb := fresh "Hb" in
  intros e [[] ? ?]; split_ifs; step_block; cbn [sum_list_with Nat.b2n];
  (split;
   [ rewrite ?cuboids_draw_split; lia
   | intros b Hb; destruct b; try reflexivity;
     exfalso; apply Hb; simpl; tauto ]).

Lemma draws_actor_I1 : draws_movers [A0] actor_I1.
Proof. block_draws. Qed.

Lemma draws_actor_I2 : draws_movers [A1] actor_I2.
Proof. block_draws. Qed.

Lemma draws_actor_I3 : draws_movers [A2] actor_I3.
Proof. block_draws. Qed.

Lemma draws_actor_K1 : draws_movers [A3] actor_K1.
Proof. block_draws. Qed.

Lemma draws_actor_k2 : draws_movers [A4] actor_k2.
Proof. block_draws. Qed.

Lemma draws_actor_k3 : draws_movers [A5] actor_k3.
Proof. block_draws. Qed.

Lemma draws_actor_e1 : draws_movers [A6] actor_e1.
Proof. block_draws. Qed.

Lemma draws_actor_e234 : draws_movers [A7; A8; A9] actor_e234.
Proof. block_draws. Qed.

Lemma draws_actor_p1 : draws_movers [A10] actor_p1.
Proof. block_draws. Qed.

Lemma draws_actor_p2 : draws_movers [A11] actor_p2.
Proof. unfold_actor_p2. block_draws. Qed.

Lemma draws_actors : draws_movers all_actors actors.
Proof.
  unfold_actors.
  change all_actors with
    ([A0] ++ [A1] ++ [A2] ++ [A3] ++ [A4] ++ [A5] ++ [A6] ++ [A7; A8; A9] ++
     [A10] ++ [A11]).
  repeat (apply draws_movers_bind;
          [ intros a Ha Hin; simpl in Ha, Hin;
            repeat (destruct Ha as [<- | Ha]; [intuition discriminate|]); exact Ha
          | first [ apply draws_actor_I1 | apply draws_actor_I2 | apply draws_actor_I3
                  | apply draws_actor_K1 | apply draws_actor_k2 | apply draws_actor_k3
                  | apply draws_actor_e1 | apply draws_actor_e234
                  | apply draws_actor_p1 ]
          | ]).
  apply draws_actor_p2.
Qed.

(** X4.  A frame whose [BeginScene] succeeds draws one cuboid for each
    actor whose block still moves it when the frame starts, three for the
    block of [e234]: an actor that has passed its stop is drawn no more, and
    only the trail it left remains on screen. *)
Theorem frame_draws_moving_actors e g :
  begin_ok e = true ->
  cuboids (Render_calls e g) = length (filter (fun a => moving a g) all_actors).
Proof.
  intros Hok. unfold Render_calls, exec. rewrite (Render_success e g Hok).
  cbv zeta. cbn [snd calls]. rewrite gate_calls. cbn [calls].
  destruct (draws_actors e (Machine g 0 (opening_calls g))) as [Hc _].
  rewrite cuboids_app, Hc. cbn [calls vars].
  rewrite (movers_sum (fun a => moving a g)).
  unfold opening_calls. rewrite !cuboids_app. unfold trail_calls.
  rewrite cuboids_trail.
  repeat match goal with
         | |- context [cuboids ?l] =>
             let n := eval vm_compute in (cuboids l) in
             change (cuboids l) with n
         end.
  lia.
Qed.

End Cuboids.

(** ** The trail between two resets *)

Ltac block_extends :=
  run_block; unfold trail_extends in *; step_block; flag_facts;
  rewrite ?take_insert_ge by lia;
  repeat split; solve [assumption | lia].

Section TrailGrowth.

Variables cosf sinf : float -> float.

Local Abbreviation actor_p2 := (actor_p2 cosf sinf).
Local Abbreviation actors := (actors cosf sinf).
Local Abbreviation Render := (Render cosf sinf).
Local Abbreviation Render_globals := (Render_globals cosf sinf).
Local Abbreviation Render_resets := (Render_resets cosf sinf).
Local Abbreviation Render_calls := (Render_calls cosf sinf).
Local Abbreviation Render_ticks := (Render_ticks cosf sinf).
Local Abbreviation moving := (moving cosf).
Local Abbreviation step := (step cosf sinf).
Local Abbreviation run := (run cosf sinf).
Local Abbreviation reachable := (reachable cosf sinf).
Local Abbreviation frozen_at := (frozen_at cosf).
Local Abbreviation settled := (settled cosf).
Local Abbreviation draws_movers := (draws_movers cosf).

Lemma extends_actor_I1 e sq0 i0 k :
  triple e (fun m => trail_extends sq0 i0 k (vars m)) actor_I1
    (fun _ m => trail_extends sq0 i0 (k + 1) (vars m)).
Proof. block_extends. Qed.

Lemma extends_actor_I2 e sq0 i0 k :
  triple e (fun m => trail_extends sq0 i0 k (vars m)) actor_I2
    (fun _ m => trail_extends sq0 i0 (k + 1) (vars m)).
Proof. block_extends. Qed.

Lemma extends_actor_I3 e sq0 i0 k :
  triple e (fun m => trail_extends sq0 i0 k (vars m)) actor_I3
    (fun _ m => trail_extends sq0 i0 (k + 1) (vars m)).
Proof. block_extends. Qed.

Lemma extends_actor_K1 e sq0 i0 k :
  triple e (fun m => trail_extends sq0 i0 k (vars m)) actor_K1
    (fun _ m => trail_extends sq0 i0 (k + 1) (vars m)).
Proof. block_extends. Qed.

Lemma extends_actor_k2 e sq0 i0 k :
  triple e (fun m => trail_extends sq0 i0 k (vars m)) actor_k2
    (fun _ m => trail_extends sq0 i0 (k + 1) (vars m)).
Proof. block_extends. Qed.

Lemma extends_actor_k3 e sq0 i0 k :
  triple e (fun m => trail_extends sq0 i0 k (vars m)) actor_k3
    (fun _ m => trail_extends sq0 i0 (k + 1) (vars m)).
Proof. block_extends. Qed.

Lemma extends_actor_e1 e sq0 i0 k :
  triple e (fun m => trail_extends sq0 i0 k (vars m)) actor_e1
    (fun _ m => trail_extends sq0 i0 (k + 1) (vars m)).
Proof. block_extends. Qed.

Lemma extends_actor_e234 e sq0 i0 k :
  triple e (fun m => trail_extends sq0 i0 k (vars m)) actor_e234
    (fun _ m => trail_extends sq0 i0 (k + 3) (vars m)).
Proof. block_extends. Qed.

Lemma extends_actor_p1 e sq0 i0 k :
  triple e (fun m => trail_extends sq0 i0 k (vars m)) actor_p1
    (fun _ m => trail_extends sq0 i0 (k + 1) (vars m)).
Proof. block_extends. Qed.

Lemma extends_actor_p2 e sq0 i0 k :
  triple e (fun m => trail_extends sq0 i0 k (vars m)) actor_p2
    (fun _ m => trail_extends sq0 i0 (k + 1) (vars m)).
Proof. unfold_actor_p2. block_extends. Qed.

Lemma extends_actors e sq0 i0 :
  triple e (fun m => trail_extends sq0 i0 0 (vars m)) actors
    (fun _ m => trail_extends sq0 i0 12 (vars m)).
Proof.
  unfold_actors.
  eapply triple_bind; [apply extends_actor_I1 | intros ?].
  eapply triple_bind; [apply extends_actor_I2 | intros ?].
  eapply triple_bind; [apply extends_actor_I3 | intros ?].
  eapply triple_bind; [apply extends_actor_K1 | intros ?].
  eapply triple_bind; [apply extends_actor_k2 | intros ?].
  eapply triple_bind; [apply extends_actor_k3 | intros ?].
  eapply triple_bind; [apply extends_actor_e1 | intros ?].
  eapply triple_bind; [apply extends_actor_e234 | intros ?].
  eapply triple_bind; [apply extends_actor_p1 | intros ?].
  apply extends_actor_p2.
Qed.

Lemma extends_pretime sq0 i0 k t g :
  trail_extends sq0 i0 k g -> trail_extends sq0 i0 k (set_pretime t g).
Proof. destruct g; unfold trail_extends; step_block; auto. Qed.

Lemma extends_gate e sq0 i0 k :
  triple e (fun m => trail_extends sq0 i0 k (vars m)) gate
    (fun r m => r = false -> trail_extends sq0 i0 k (vars m)).
Proof.
  run_block; unfold trail_extends in *; step_block;
    intros; try discriminate; assumption.
Qed.

(** X5.  Between two resets the trail only grows: a frame that does not
    reset keeps every entry recorded before it, in its place, and adds at
    most twelve, one for each actor. *)
Theorem trail_is_append_only g e :
  reachable g ->
  Render_resets e g = false ->
  index g <= index (Render_globals e g) <= index g + 12 /\
  take (Z.to_nat (index g)) (squarePos (Render_globals e g)) =
    take (Z.to_nat (index g)) (squarePos g).
Proof.
  intros Hreach Hno.
  destruct (well_formed_reachable g Hreach) as (_ & _ & Hi).
  assert (H : trail_extends (squarePos g) (index g) 12 (Render_globals e g)).
  { refine (Render_triple e (trail_extends (squarePos g) (index g) 0)
              (trail_extends (squarePos g) (index g) 12)
              (fun r g' _ => r = false -> trail_extends (squarePos g) (index g) 12 g')
              (extends_actors e _ _) (extends_pretime _ _ _) (extends_gate e _ _ _)
              _ (frame_start g) _ Hno).
    - intros _ g' _ (H0 & Hb & Ht) _. repeat split; solve [assumption | lia].
    - unfold trail_extends, frame_start. cbn [vars]. repeat split; lia. }
  destruct H as (_ & Hb & Ht). split; assumption.
Qed.

End TrailGrowth.

(** ** The hold *)

Lemma set_flag_id i g : flag_at (compFlag g) i = true -> set_flag i true g = g.
Proof.
  unfold set_flag, flag_at. intros H.
  destruct (compFlag g !! i) as [[]|] eqn:E; try discriminate.
  rewrite list_insert_id by exact E. destruct g. reflexivity.
Qed.

Section Hold.

Variables cosf sinf : float -> float.

Local Abbreviation actor_p2 := (actor_p2 cosf sinf).
Local Abbreviation actors := (actors cosf sinf).
Local Abbreviation Render := (Render cosf sinf).
Local Abbreviation Render_globals := (Render_globals cosf sinf).
Local Abbreviation Render_resets := (Render_resets cosf sinf).
Local Abbreviation Render_calls := (Render_calls cosf sinf).
Local Abbreviation Render_ticks := (Render_ticks cosf sinf).
Local Abbreviation moving := (moving cosf).
Local Abbreviation step := (step cosf sinf).
Local Abbreviation run := (run cosf sinf).
Local Abbreviation reachable := (reachable cosf sinf).
Local Abbreviation frozen_at := (frozen_at cosf).
Local Abbreviation settled := (settled cosf).
Local Abbreviation draws_movers := (draws_movers cosf).

(** *** The latch is set only while every flag is *)

Lemma latched_complete_actors e a : stable e (latched_complete a) actors.
Proof.
  apply stable_actors; destruct a; run_block; unfold latched_complete in *;
    step_block; intros; repeat apply flag_at_set_true; auto.
Qed.

Lemma latched_complete_pretime a t g :
  latched_complete a g -> latched_complete a (set_pretime t g).
Proof. destruct g, a; unfold latched_complete; step_block; auto. Qed.

Lemma latched_complete_gate e a :
  triple e (fun m => latched_complete a (vars m)) gate
    (fun _ m => latched_complete a (vars m)).
Proof.
  destruct a; run_block; unfold latched_complete in *; step_block;
    flag_facts; intros; try discriminate; auto;
    match goal with
    | H : 12 <= count_flags 12 0 ?l |- flag_at ?l ?j = true =>
        apply (count_flags_full 12 0 l H j); lia
    end.
Qed.

Lemma latched_complete_reachable g a : reachable g -> latched_complete a g.
Proof.
  induction 1 as [t0 | g i Hg IH].
  - discriminate.
  - destruct i as [msg lParam | e]; simpl.
    + unfold MsgProc.
      destruct (msg =? WM_DESTROY); [exact IH|].
      destruct (msg =? WM_SIZE); [|exact IH].
      destruct g, a; unfold latched_complete in *; step_block; auto.
    + exact (Render_rule_globals e (latched_complete a)
               (fun _ => latched_complete a) g
               (latched_complete_actors e a) (latched_complete_pretime a)
               (latched_complete_gate e a) (fun _ H => H) IH).
Qed.

(** *** Blocks of actors that have stopped *)

Ltac idle_block :=
  let H1 := fresh in
  let H2 := fresh in
  intros H1 H2; cbv [bind get branch when ret]; rewrite H1, H2; reflexivity.

Lemma idle_actor_I1 e m :
  I1_moving (vars m) = false -> flag_at (compFlag (vars m)) 0 = true ->
  actor_I1 e m = (tt, m).
Proof. unfold actor_I1. idle_block. Qed.

Lemma idle_actor_I2 e m :
  I2_moving (vars m) = false -> flag_at (compFlag (vars m)) 1 = true ->
  actor_I2 e m = (tt, m).
Proof. unfold actor_I2. idle_block. Qed.

Lemma idle_actor_I3 e m :
  I3_moving (vars m) = false -> flag_at (compFlag (vars m)) 2 = true ->
  actor_I3 e m = (tt, m).
Proof. unfold actor_I3. idle_block. Qed.

Lemma idle_actor_K1 e m :
  K1_moving (vars m) = false -> flag_at (compFlag (vars m)) 3 = true ->
  actor_K1 e m = (tt, m).
Proof. unfold actor_K1. idle_block. Qed.

Lemma idle_actor_k2 e m :
  k2_moving (vars m) = false -> flag_at (compFlag (vars m)) 4 = true ->
  actor_k2 e m = (tt, m).
Proof. unfold actor_k2. idle_block. Qed.

Lemma idle_actor_k3 e m :
  k3_moving (vars m) = false -> flag_at (compFlag (vars m)) 5 = true ->
  actor_k3 e m = (tt, m).
Proof. unfold actor_k3. idle_block. Qed.

Lemma idle_actor_e1 e m :
  e1_moving (vars m) = false -> flag_at (compFlag (vars m)) 6 = true ->
  actor_e1 e m = (tt, m).
Proof. unfold actor_e1. idle_block. Qed.

Lemma idle_actor_e234 e m :
  e234_moving (vars m) = false ->
  flag_at (compFlag (vars m)) 7 = true -> flag_at (compFlag (vars m)) 8 = true ->
  flag_at (compFlag (vars m)) 9 = true ->
  actor_e234 e m = (tt, m).
Proof.
  intros H H7 H8 H9. destruct m as [g t c]. cbn [vars] in *.
  unfold actor_e234. cbv [bind get branch modify ret vars ticks calls].
  rewrite H, (set_flag_id 7 g H7), (set_flag_id 8 g H8), (set_flag_id 9 g H9).
  reflexivity.
Qed.

Lemma idle_actor_p1 e m :
  p1_moving (vars m) = false -> flag_at (compFlag (vars m)) 10 = true ->
  actor_p1 e m = (tt, m).
Proof. unfold actor_p1. idle_block. Qed.

Lemma idle_actor_p2 e m :
  p2_moving cosf (vars m) = false -> flag_at (compFlag (vars m)) 11 = true ->
  actor_p2 e m = (tt, m).
Proof. unfold_actor_p2. idle_block. Qed.

Lemma idle_actors e m :
  (forall a, completed a (vars m) = true) ->
  (forall a, moving a (vars m) = false) ->
  actors e m = (tt, m).
Proof.
  intros Hc Hm. unfold_actors. unfold bind.
  rewrite (idle_actor_I1 e m (Hm A0) (Hc A0)).
  rewrite (idle_actor_I2 e m (Hm A1) (Hc A1)).
  rewrite (idle_actor_I3 e m (Hm A2) (Hc A2)).
  rewrite (idle_actor_K1 e m (Hm A3) (Hc A3)).
  rewrite (idle_actor_k2 e m (Hm A4) (Hc A4)).
  rewrite (idle_actor_k3 e m (Hm A5) (Hc A5)).
  rewrite (idle_actor_e1 e m (Hm A6) (Hc A6)).
  rewrite (idle_actor_e234 e m (Hm A7) (Hc A7) (Hc A8) (Hc A9)).
  rewrite (idle_actor_p1 e m (Hm A10) (Hc A10)).
  apply (idle_actor_p2 e m (Hm A11) (Hc A11)).
Qed.

(** A frame of the hold: the blocks do nothing, [pretime] takes the first
    reading and the gate runs on the second. *)
Lemma hold_frame e g :
  reachable g -> (forall a, completed a g = true) -> begin_ok e = true ->
  Render e (frame_start g) =
    let m2 := Machine (set_pretime (B32.of_Z (wrapU32 (clock e 0))) g) 1
                      (opening_calls g) in
    (fst (gate e m2),
     Machine (vars (snd (gate e m2))) (ticks (snd (gate e m2)))
       (calls (snd (gate e m2)) ++ [EndScene; Present])).
Proof.
  intros Hreach Hc Hok. rewrite (Render_success e g Hok). cbv zeta.
  rewrite idle_actors; [reflexivity | exact Hc |].
  intros a. apply (settled_reachable g Hreach a (Hc a)).
Qed.

Lemma hold_gate_latched e g t c :
  (forall a, completed a g = true) -> endGet g = true ->
  gate e (Machine g t c) =
    if fgt (B32.sub (B32.of_Z (wrapU32 (clock e t))) (endTime g)) (B32.of_Z (1000 * 5))
    then (true, Machine (reset g) (S t) c)
    else (false, Machine g (S t) c).
Proof.
  intros Hc Hl. pose proof (complete_count_flags g Hc) as Hn.
  apply Z.leb_le in Hn. unfold gate.
  cbv [bind get branch when modify ret timeGetTime vars ticks calls].
  rewrite Hn, Hl. cbn [negb].
  destruct (fgt _ _); reflexivity.
Qed.

Lemma latched_frame e g :
  reachable g -> endGet g = true -> begin_ok e = true ->
  Render e (frame_start g) =
    if fgt (B32.sub (B32.of_Z (wrapU32 (clock e 1))) (endTime g)) (B32.of_Z (1000 * 5))
    then (true,
          Machine (reset (set_pretime (B32.of_Z (wrapU32 (clock e 0))) g)) 2
            (opening_calls g ++ [EndScene; Present]))
    else (false,
          Machine (set_pretime (B32.of_Z (wrapU32 (clock e 0))) g) 2
            (opening_calls g ++ [EndScene; Present])).
Proof.
  intros Hreach Hl Hok.
  assert (Hc : forall a, completed a g = true)
    by (intros a; apply (latched_complete_reachable g a Hreach Hl)).
  rewrite (hold_frame e g Hreach Hc Hok). cbv zeta.
  rewrite hold_gate_latched.
  - replace (endTime (set_pretime (B32.of_Z (wrapU32 (clock e 0))) g))
      with (endTime g) by (destruct g; reflexivity).
    destruct (fgt _ _); reflexivity.
  - intros a. specialize (Hc a). destruct g, a; exact Hc.
  - destruct g; exact Hl.
Qed.

(** X6.  On every state the program reaches, the latch of the hold is set
    only while all twelve flags are set and no block moves its actor any
    more. *)
Theorem latch_set_only_when_all_stopped g a :
  reachable g ->
  endGet g = true ->
  completed a g = true /\ moving a g = false.
Proof.
  intros Hreach Hl.
  pose proof (latched_complete_reachable g a Hreach Hl) as Hc.
  split; [exact Hc | apply (settled_reachable g Hreach a Hc)].
Qed.

(** X7.  A frame of the hold that does not reset reads the clock twice,
    makes the set-up calls, draws the static quads and the trail and nothing
    else, and changes no global but [pretime], which takes the first
    reading. *)
Theorem hold_frame_is_quiescent g e :
  reachable g ->
  endGet g = true ->
  begin_ok e = true ->
  Render_resets e g = false ->
  Render_globals e g = set_pretime (B32.of_Z (wrapU32 (clock e 0))) g /\
  Render_ticks e g = 2%nat /\
  Render_calls e g = opening_calls g ++ [EndScene; Present].
Proof.
  intros Hreach Hl Hok.
  unfold Render_resets, Render_globals, Render_ticks, Render_calls, exec.
  rewrite (latched_frame e g Hreach Hl Hok).
  destruct (fgt _ _); cbn [fst snd vars ticks calls]; [discriminate|].
  intros _. repeat split.
Qed.

(** X8.  In the hold, with the latched time and the clock below [2 ^ 24],
    a frame resets exactly when its second clock reading, the one its gate
    takes, is more than 5000 ms after the latched time. *)
Theorem reset_fires_when_due g e latched :
  reachable g ->
  endGet g = true ->
  endTime g = B32.of_Z latched ->
  0 <= latched < 2 ^ 24 ->
  begin_ok e = true ->
  0 <= clock e 1 < 2 ^ 24 ->
  Render_resets e g = (5000 <? clock e 1 - latched).
Proof.
  intros Hreach Hl Hend Hrange Hok Hclock.
  unfold Render_resets. rewrite (latched_frame e g Hreach Hl Hok).
  unfold wrapU32 at 1.
  rewrite (Z.mod_small (clock e 1))
    by (change (2 ^ 32) with 4294967296; change (2 ^ 24) with 16777216 in Hclock; lia).
  rewrite Hend, hold_test_exact by assumption.
  destruct (5000 <? clock e 1 - latched); reflexivity.
Qed.

End Hold.

Arguments latched_complete_reachable {cosf sinf}.
Arguments hold_frame {cosf sinf}.

(** ** From the stop to the flag *)

Ltac known_places :=
  cbn [block_of Nat.ltb Nat.leb] in *;
  repeat match goal with
         | H : true = true -> _ |- _ => specialize (H eq_refl)
         | H : false = true -> _ |- _ => clear H
         end.

Ltac block_stops :=
  run_block; unfold stopped_before in *; step_block; flag_facts; known_places;
  unfold indexMax in *;
  try congruence;
  (split; [rewrite ?length_insert; repeat split; solve [assumption | lia]|]);
  (split; [solve [assumption | congruence]|]);
  lazymatch goal with
  | |- false = true -> _ => let H := fresh in intros H; discriminate H
  | |- true = true -> _ =>
      intros _; flag_goal;
      solve [reflexivity | assumption | repeat apply flag_at_set_true; assumption]
  end.

Section Stopping.

Variables cosf sinf : float -> float.

Local Abbreviation actor_p2 := (actor_p2 cosf sinf).
Local Abbreviation actors := (actors cosf sinf).
Local Abbreviation Render := (Render cosf sinf).
Local Abbreviation Render_globals := (Render_globals cosf sinf).
Local Abbreviation Render_resets := (Render_resets cosf sinf).
Local Abbreviation Render_calls := (Render_calls cosf sinf).
Local Abbreviation Render_ticks := (Render_ticks cosf sinf).
Local Abbreviation moving := (moving cosf).
Local Abbreviation step := (step cosf sinf).
Local Abbreviation run := (run cosf sinf).
Local Abbreviation reachable := (reachable cosf sinf).
Local Abbreviation frozen_at := (frozen_at cosf).
Local Abbreviation settled := (settled cosf).
Local Abbreviation draws_movers := (draws_movers cosf).

Local Abbreviation stopped_before := (stopped_before cosf).

Lemma stops_actor_I1 e a :
  triple e (fun m => stopped_before a 0 (vars m)) actor_I1
    (fun _ m => stopped_before a 1 (vars m)).
Proof. destruct a; block_stops. Qed.

Lemma stops_actor_I2 e a :
  triple e (fun m => stopped_before a 1 (vars m)) actor_I2
    (fun _ m => stopped_before a 2 (vars m)).
Proof. destruct a; block_stops. Qed.

Lemma stops_actor_I3 e a :
  triple e (fun m => stopped_before a 2 (vars m)) actor_I3
    (fun _ m => stopped_before a 3 (vars m)).
Proof. destruct a; block_stops. Qed.

Lemma stops_actor_K1 e a :
  triple e (fun m => stopped_before a 3 (vars m)) actor_K1
    (fun _ m => stopped_before a 4 (vars m)).
Proof. destruct a; block_stops. Qed.

Lemma stops_actor_k2 e a :
  triple e (fun m => stopped_before a 4 (vars m)) actor_k2
    (fun _ m => stopped_before a 5 (vars m)).
Proof. destruct a; block_stops. Qed.

Lemma stops_actor_k3 e a :
  triple e (fun m => stopped_before a 5 (vars m)) actor_k3
    (fun _ m => stopped_before a 6 (vars m)).
Proof. destruct a; block_stops. Qed.

Lemma stops_actor_e1 e a :
  triple e (fun m => stopped_before a 6 (vars m)) actor_e1
    (fun _ m => stopped_before a 7 (vars m)).
Proof. destruct a; block_stops. Qed.

Lemma stops_actor_e234 e a :
  triple e (fun m => stopped_before a 7 (vars m)) actor_e234
    (fun _ m => stopped_before a 8 (vars m)).
Proof. destruct a; block_stops. Qed.

Lemma stops_actor_p1 e a :
  triple e (fun m => stopped_before a 8 (vars m)) actor_p1
    (fun _ m => stopped_before a 9 (vars m)).
Proof. destruct a; block_stops. Qed.

Lemma stops_actor_p2 e a :
  triple e (fun m => stopped_before a 9 (vars m)) actor_p2
    (fun _ m => stopped_before a 10 (vars m)).
Proof. unfold_actor_p2. destruct a; block_stops. Qed.

Lemma stops_actors e a :
  triple e (fun m => stopped_before a 0 (vars m)) actors
    (fun _ m => completed a (vars m) = true).
Proof.
  apply triple_weaken with (P' := fun m => stopped_before a 0 (vars m))
    (Q' := fun _ m => stopped_before a 10 (vars m)); [| auto |].
  - unfold_actors.
    eapply triple_bind; [apply stops_actor_I1 | intros ?].
    eapply triple_bind; [apply stops_actor_I2 | intros ?].
    eapply triple_bind; [apply stops_actor_I3 | intros ?].
    eapply triple_bind; [apply stops_actor_K1 | intros ?].
    eapply triple_bind; [apply stops_actor_k2 | intros ?].
    eapply triple_bind; [apply stops_actor_k3 | intros ?].
    eapply triple_bind; [apply stops_actor_e1 | intros ?].
    eapply triple_bind; [apply stops_actor_e234 | intros ?].
    eapply triple_bind; [apply stops_actor_p1 | intros ?].
    apply stops_actor_p2.
  - intros _ m (_ & _ & H). apply H. destruct a; reflexivity.
Qed.

Lemma completed_pretime a t g :
  completed a g = true -> completed a (set_pretime t g) = true.
Proof. destruct g, a; step_block; auto. Qed.

Lemma completed_gate e a :
  triple e (fun m => completed a (vars m) = true) gate
    (fun r m => r = false -> completed a (vars m) = true).
Proof.
  destruct a; run_block; step_block; intros; try discriminate; assumption.
Qed.

(** X9.  On every state the program reaches, a set flag means that the
    actor's block no longer moves it; and each frame that starts with an
    actor stopped sets its flag, unless it is the frame that resets: the
    flag follows the stop by one frame. *)
Theorem flag_follows_stop g e a :
  reachable g ->
  (completed a g = true -> moving a g = false) /\
  (moving a g = false -> begin_ok e = true -> Render_resets e g = false ->
   completed a (Render_globals e g) = true).
Proof.
  intros Hreach. split; [apply (settled_reachable g Hreach a)|].
  intros Hstop Hok Hno.
  refine (Render_triple e (stopped_before a 0)
            (fun g' => completed a g' = true)
            (fun r g' _ => begin_ok e = true -> r = false -> completed a g' = true)
            (stops_actors e a) (completed_pretime a) _ _ (frame_start g) _ Hok Hno).
  - intros m Hm. pose proof (completed_gate e a m Hm) as H. auto.
  - congruence.
  - split; [apply (well_formed_reachable g Hreach)|].
    split; [exact Hstop | discriminate].
Qed.

End Stopping.

(** ** Actors that have stopped *)

Section Stopped.

Variables cosf sinf : float -> float.

Local Abbreviation actor_p2 := (actor_p2 cosf sinf).
Local Abbreviation actors := (actors cosf sinf).
Local Abbreviation Render := (Render cosf sinf).
Local Abbreviation Render_globals := (Render_globals cosf sinf).
Local Abbreviation Render_resets := (Render_resets cosf sinf).
Local Abbreviation Render_calls := (Render_calls cosf sinf).
Local Abbreviation Render_ticks := (Render_ticks cosf sinf).
Local Abbreviation moving := (moving cosf).
Local Abbreviation step := (step cosf sinf).
Local Abbreviation run := (run cosf sinf).
Local Abbreviation reachable := (reachable cosf sinf).
Local Abbreviation frozen_at := (frozen_at cosf).
Local Abbreviation settled := (settled cosf).
Local Abbreviation draws_movers := (draws_movers cosf).

Local Abbreviation stopped_at := (stopped_at cosf).

Lemma stopped_at_actors e a p r : stable e (stopped_at a p r) actors.
Proof.
  apply stable_actors; destruct a; run_block; unfold stopped_at in *; step_block;
    flag_facts; subst; repeat split; congruence.
Qed.

Lemma stopped_at_pretime a p r t g :
  stopped_at a p r g -> stopped_at a p r (set_pretime t g).
Proof. destruct g, a; unfold stopped_at; step_block; auto. Qed.

Lemma stopped_at_gate e a p r :
  triple e (fun m => stopped_at a p r (vars m)) gate
    (fun res m => res = false -> stopped_at a p r (vars m)).
Proof.
  destruct a; run_block; unfold stopped_at in *; step_block;
    intros; try discriminate; assumption.
Qed.

(** X10.  An actor whose block no longer moves it stays where it is: from
    any state of the globals, a frame that does not reset leaves its
    position variables and its phase reference as they were, and its block
    still does not move it afterwards, whether its flag is set yet or not. *)
Theorem stopped_actor_stays g e a :
  moving a g = false ->
  Render_resets e g = false ->
  position a (Render_globals e g) = position a g /\
  phase a (Render_globals e g) = phase a g /\
  moving a (Render_globals e g) = false.
Proof.
  intros Hstop Hno.
  assert (Hpre : stopped_at a (position a g) (phase a g) g)
    by (repeat split; assumption).
  destruct (Render_rule_globals e _ _ g
              (stopped_at_actors e a _ _) (stopped_at_pretime a _ _)
              (stopped_at_gate e a _ _) (fun g H _ => H) Hpre Hno)
    as (Hm & Hp & Hr).
  repeat split; assumption.
Qed.

End Stopped.

(** ** The aspect ratio *)

(** The quotient of two nonzero 16-bit sizes is a positive finite
    [float]. *)
Lemma size_quotient_positive w h :
  0 < w < 65536 -> 0 < h < 65536 ->
  is_positive_finite (B32.div (B32.of_Z w) (B32.of_Z h)) = true.
Proof.
  intros Hw Hh.
  assert (Hd : forall z, 0 < z < 65536 -> 1 <= Zdigits2 z <= 16).
  { intros z Hz. destruct z as [|p|p]; try lia. unfold Zdigits2.
    pose proof (digits2_pos_bounds p) as [Lo Hi]. split; [lia|].
    destruct (Z.le_gt_cases (Zpos (digits2_pos p)) 16) as [|Hgt]; [assumption|].
    assert (2 ^ 16 <= 2 ^ (Zpos (digits2_pos p) - 1)) by (apply Z.pow_le_mono_r; lia).
    change (2 ^ 16) with 65536 in *. lia. }
  destruct (binary_normalize_exact B32.prec B32.emax ltac:(reflexivity) ltac:(reflexivity) w)
    as (m1 & e1 & H1 & D1 & E1 & _);
    [unfold B32.prec; change (2 ^ 24) with 16777216; lia|].
  destruct (binary_normalize_exact B32.prec B32.emax ltac:(reflexivity) ltac:(reflexivity) h)
    as (m2 & e2 & H2 & D2 & E2 & _);
    [unfold B32.prec; change (2 ^ 24) with 16777216; lia|].
  pose proof (Hd w Hw). pose proof (Hd h Hh).
  unfold B32.div, B32.of_Z. rewrite H1, H2.
  destruct (SFdiv_normal B32.prec B32.emax ltac:(reflexivity) ltac:(reflexivity)
              m1 e1 m2 e2 D1 D2)
    as (m & e & n & -> & _);
    unfold emin, B32.prec, B32.emax in *; try lia.
  reflexivity.
Qed.

Section Aspect.

Variables cosf sinf : float -> float.

Local Abbreviation actor_p2 := (actor_p2 cosf sinf).
Local Abbreviation actors := (actors cosf sinf).
Local Abbreviation Render := (Render cosf sinf).
Local Abbreviation Render_globals := (Render_globals cosf sinf).
Local Abbreviation Render_resets := (Render_resets cosf sinf).
Local Abbreviation Render_calls := (Render_calls cosf sinf).
Local Abbreviation Render_ticks := (Render_ticks cosf sinf).
Local Abbreviation moving := (moving cosf).
Local Abbreviation step := (step cosf sinf).
Local Abbreviation run := (run cosf sinf).
Local Abbreviation reachable := (reachable cosf sinf).
Local Abbreviation frozen_at := (frozen_at cosf).
Local Abbreviation settled := (settled cosf).
Local Abbreviation draws_movers := (draws_movers cosf).

Lemma aspect_actors e v : stable e (fun g => g_aspect g = v) actors.
Proof. apply stable_actors; run_block; assumption. Qed.

Lemma aspect_gate e v :
  triple e (fun m => g_aspect (vars m) = v) gate (fun _ m => g_aspect (vars m) = v).
Proof. run_block; assumption. Qed.

Lemma aspect_Render e g : g_aspect (Render_globals e g) = g_aspect g.
Proof.
  apply (Render_rule_globals e (fun g' => g_aspect g' = g_aspect g)
           (fun _ g' => g_aspect g' = g_aspect g) g).
  - apply aspect_actors.
  - intros t []. step_block. auto.
  - apply aspect_gate.
  - auto.
  - reflexivity.
Qed.

Lemma aspect_run g inputs :
  Forall (fun i => is_resize i = false) inputs ->
  g_aspect (run g inputs) = g_aspect g.
Proof.
  intros H. revert g. induction H as [|i inputs Hi _ IH]; intros g; [reflexivity|].
  cbn [run foldl]. change (foldl step (step g i) inputs) with (run (step g i) inputs).
  rewrite IH. destruct i as [msg lParam | e]; cbn [step].
  - simpl in Hi. unfold MsgProc. rewrite Hi.
    destruct (msg =? WM_DESTROY); reflexivity.
  - apply aspect_Render.
Qed.

(** X11.  A resize message whose height field is not 0 stores a usable
    aspect ratio: a positive finite [float] when the width field is not 0
    either, and [+0] when it is. *)
Theorem resize_with_nonzero_height lParam g :
  Z.land (Z.shiftr lParam 16) 65535 <> 0 ->
  (Z.land lParam 65535 <> 0 ->
   is_positive_finite (g_aspect (MsgProc WM_SIZE lParam g)) = true) /\
  (Z.land lParam 65535 = 0 ->
   g_aspect (MsgProc WM_SIZE lParam g) = S754_zero false).
Proof.
  intros Hh.
  pose proof (low_word_range lParam) as Rw.
  pose proof (low_word_range (Z.shiftr lParam 16)) as Rh.
  assert (E : g_aspect (MsgProc WM_SIZE lParam g) =
              B32.div (B32.of_Z (Z.land lParam 65535))
                      (B32.of_Z (Z.land (Z.shiftr lParam 16) 65535)))
    by (destruct g; reflexivity).
  rewrite E. split.
  - intros Hw. apply size_quotient_positive; lia.
  - intros ->.
    pose proof (word_size_positive (Z.land (Z.shiftr lParam 16) 65535) ltac:(lia)) as Hp.
    destruct (B32.of_Z (Z.land (Z.shiftr lParam 16) 65535)) as [| | |[] m x];
      try discriminate Hp. reflexivity.
Qed.

(** X12.  The aspect ratio a frame gives to the projection is the one the
    last resize message stored: frames and other messages leave [g_aspect]
    alone, and a frame whose [BeginScene] succeeds passes it to
    [SetupMatrices], its fourth call. *)
Theorem resize_reaches_projection g lParam inputs e :
  Forall (fun i => is_resize i = false) inputs ->
  begin_ok e = true ->
  Render_calls e (run (MsgProc WM_SIZE lParam g) inputs) !! 3%nat =
    Some (SetupMatrices
            (B32.div (B32.of_Z (Z.land lParam 65535))
                     (B32.of_Z (Z.land (Z.shiftr lParam 16) 65535)))).
Proof.
  intros Hin Hok.
  destruct (Render_calls_success cosf sinf e (run (MsgProc WM_SIZE lParam g) inputs) Hok)
    as (l & -> & _).
  unfold opening_calls. cbn [app lookup list_lookup].
  rewrite (aspect_run _ inputs Hin). destruct g; reflexivity.
Qed.

End Aspect.

Arguments aspect_Render {cosf sinf}.

(** ** After the reset *)

Section Restart.

Variables cosf sinf : float -> float.

Local Abbreviation actor_p2 := (actor_p2 cosf sinf).
Local Abbreviation actors := (actors cosf sinf).
Local Abbreviation Render := (Render cosf sinf).
Local Abbreviation Render_globals := (Render_globals cosf sinf).
Local Abbreviation Render_resets := (Render_resets cosf sinf).
Local Abbreviation Render_calls := (Render_calls cosf sinf).
Local Abbreviation Render_ticks := (Render_ticks cosf sinf).
Local Abbreviation moving := (moving cosf).
Local Abbreviation step := (step cosf sinf).
Local Abbreviation run := (run cosf sinf).
Local Abbreviation reachable := (reachable cosf sinf).
Local Abbreviation frozen_at := (frozen_at cosf).
Local Abbreviation settled := (settled cosf).
Local Abbreviation draws_movers := (draws_movers cosf).

Lemma restart_gate e a :
  triple e (fun _ => True) gate
    (fun r m => r = true ->
       completed a (vars m) = false /\
       moving a (vars m) = moving a (initial_globals 0)).
Proof.
  destruct a; run_block; intros; try discriminate;
    (split; [apply flag_at_clear_flags; simpl; lia | reflexivity]).
Qed.

(** X13.  The frame that resets leaves every flag unset and every
    terminal condition as it is at start-up, so that the blocks of actors 0
    to 10 move them again in the next frame; the arc moves again if the
    cosine of the C runtime at [D3DX_PI / 2] is at least -0.01. *)
Theorem reset_restarts_actors g e a :
  Render_resets e g = true ->
  completed a (Render_globals e g) = false /\
  moving a (Render_globals e g) = moving a (initial_globals 0) /\
  (a <> A11 -> moving a (Render_globals e g) = true) /\
  moving A11 (initial_globals 0) =
    fge (to_double (cosf (B32.div D3DX_PI (B32.of_Z 2)))) (B64.opp (B64.lit 1 100)).
Proof.
  intros Hres.
  destruct (Render_rule_globals e (fun _ => True)
              (fun r g' => r = true ->
                 completed a g' = false /\ moving a g' = moving a (initial_globals 0))
              g (everything_actors cosf sinf e) (fun _ _ _ => I) (restart_gate e a)
              ltac:(discriminate) I Hres) as [Hc Hm].
  split; [exact Hc|]. split; [exact Hm|]. split; [|reflexivity].
  intros Ha. rewrite Hm. destruct a; try congruence; vm_compute; reflexivity.
Qed.

End Restart.

(** ** The vertex buffers *)

Lemma draws_of_app src l1 l2 :
  Forall (fun c => match c with SetStreamSource _ => False | _ => True end) l1 ->
  draws_of src (l1 ++ l2) = draws_of src l1 ++ draws_of src l2.
Proof.
  induction 1 as [|c l1 Hc _ IH]; [reflexivity|].
  destruct c; try contradiction; cbn [app draws_of]; rewrite IH; reflexivity.
Qed.

Lemma draws_of_cuboid_calls src l :
  Forall cuboid_call l ->
  Forall (fun c => match c with SetStreamSource _ => False | _ => True end) l /\
  Forall (fun d => d = (src, 0, 18)) (draws_of src l).
Proof.
  induction 1 as [|c l Hc _ [IH1 IH2]]; [split; constructor|].
  destruct c; try contradiction; cbn [draws_of].
  - split; [constructor; [exact I | exact IH1] | exact IH2].
  - simpl in Hc. destruct start; try contradiction.
    destruct count as [|p|p]; try contradiction.
    repeat (destruct p as [p|p|]; try contradiction).
    split; constructor; auto.
Qed.

Lemma draws_of_trail src (sq : list square) (l : list nat) :
  Forall (fun c => match c with SetStreamSource _ => False | _ => True end)
    (flat_map (fun i => square_calls (sq !!! i)) l) /\
  Forall (fun d => d = (src, 0, 4))
    (draws_of src (flat_map (fun i => square_calls (sq !!! i)) l)).
Proof.
  induction l as [|i l [IH1 IH2]]; [split; constructor|].
  cbn [flat_map]. destruct (sq !!! i) as [[x y] a]. cbn [square_calls app draws_of].
  split; repeat constructor; assumption.
Qed.

Lemma written_beyond (l : buffer) i : (length l <= i)%nat -> written (Some l) i = false.
Proof. intros H. unfold written. rewrite lookup_ge_None_2 by exact H. reflexivity. Qed.

Lemma length_write_vertices ws b : length (write_vertices ws b) = length b.
Proof.
  unfold write_vertices. revert b. induction ws as [|w ws IH]; intros b; [reflexivity|].
  cbn [foldl]. rewrite IH, length_insert. reflexivity.
Qed.

Section Buffers.

Variables cosf sinf : float -> float.

Local Abbreviation actor_p2 := (actor_p2 cosf sinf).
Local Abbreviation actors := (actors cosf sinf).
Local Abbreviation Render := (Render cosf sinf).
Local Abbreviation Render_globals := (Render_globals cosf sinf).
Local Abbreviation Render_resets := (Render_resets cosf sinf).
Local Abbreviation Render_calls := (Render_calls cosf sinf).
Local Abbreviation Render_ticks := (Render_ticks cosf sinf).
Local Abbreviation moving := (moving cosf).
Local Abbreviation step := (step cosf sinf).
Local Abbreviation run := (run cosf sinf).
Local Abbreviation reachable := (reachable cosf sinf).
Local Abbreviation frozen_at := (frozen_at cosf).
Local Abbreviation settled := (settled cosf).
Local Abbreviation draws_movers := (draws_movers cosf).

(** X14.  Every draw of a frame is made with the vertex buffer that the
    frame itself has bound for it, whatever was bound before: the quads,
    four primitives from vertex 0, with [g_pVB2], and the cuboids, eighteen
    primitives from vertex 0, with [g_pVB]. *)
Theorem draws_use_their_buffer src e g :
  Forall (fun d => d = (Some g_pVB2, 0, 4) \/ d = (Some g_pVB, 0, 18))
    (draws_of src (Render_calls e g)).
Proof.
  destruct (begin_ok e) eqn:Hok.
  - destruct (Render_calls_success cosf sinf e g Hok) as (l & -> & Fl).
    unfold opening_calls. rewrite <- !app_assoc. cbn [app draws_of].
    destruct (draws_of_trail (Some g_pVB2) (squarePos g)
                (seq 0 (Z.to_nat (index g)))) as [T1 T2].
    destruct (draws_of_cuboid_calls (Some g_pVB) l Fl) as [C1 C2].
    repeat (constructor; [left; reflexivity|]).
    unfold trail_calls. rewrite (draws_of_app _ _ _ T1).
    apply Forall_app. split.
    + eapply Forall_impl; [exact T2 | intros d ->; left; reflexivity].
    + cbn [app draws_of]. rewrite (draws_of_app _ _ _ C1).
      apply Forall_app. split; [|constructor].
      eapply Forall_impl; [exact C2 | intros d ->; right; reflexivity].
  - unfold Render_calls, exec. rewrite (Render_failure e g Hok). constructor.
Qed.

End Buffers.

(** X15.  [InitGeometry] returns [S_OK] exactly when its four device calls
    succeed, and then it has written the vertices 0 to 23 of [g_pVB] and 0
    to 4 of [g_pVB2], within the 100 each buffer holds.  By Direct3D's rule
    for triangle strips, the cuboid draw (18 primitives from vertex 0) reads
    only vertices that were written, while the quad draw (4 primitives from
    vertex 0) reads the vertices 0 to 5, of which the last was never
    written. *)
Theorem geometry_covers_draws r :
  (fst (InitGeometry r) = S_OK <->
   create_vb r && lock_vb r && create_vb2 r && lock_vb2 r = true) /\
  (fst (InitGeometry r) = S_OK ->
   let geo := snd (InitGeometry r) in
   (forall i, written (vb geo) i = (i <? 24)%nat) /\
   (forall i, written (vb2 geo) i = (i <? 5)%nat) /\
   (forall i, In i (strip_vertices 0 18) -> written (buffer_of geo g_pVB) i = true) /\
   strip_vertices 0 4 = [0; 1; 2; 3; 4; 5]%nat /\
   written (buffer_of geo g_pVB2) 5 = false).
Proof.
  destruct r as [[] [] [] []]; (split; [split; intros H; try discriminate H; reflexivity|]);
    cbn [InitGeometry negb create_vb lock_vb create_vb2 lock_vb2 fst snd];
    intros H; try discriminate H; cbv zeta.
  assert (W1 : forall i, written (Some (write_vertices cuboid_vertices new_buffer)) i =
                         (i <? 24)%nat).
  { intros i. do 100 (destruct i as [|i]; [reflexivity|]).
    transitivity false; [|symmetry; apply Nat.ltb_ge; lia].
    apply written_beyond. rewrite length_write_vertices.
    change (length new_buffer) with 100%nat. lia. }
  assert (W2 : forall i, written (Some (write_vertices quad_vertices new_buffer)) i =
                         (i <? 5)%nat).
  { intros i. do 100 (destruct i as [|i]; [reflexivity|]).
    transitivity false; [|symmetry; apply Nat.ltb_ge; lia].
    apply written_beyond. rewrite length_write_vertices.
    change (length new_buffer) with 100%nat. lia. }
  cbn [vb vb2 buffer_of].
  split; [exact W1|]. split; [exact W2|]. split; [|split; [reflexivity|]].
  - intros i Hi. rewrite W1. apply Nat.ltb_lt.
    unfold strip_vertices in Hi. apply in_seq in Hi. simpl in Hi. lia.
  - rewrite W2. reflexivity.
Qed.

(** ** While an actor moves *)

Ltac block_runs :=
  run_block; unfold running_from in *; step_block; flag_facts; known_places;
  try congruence;
  (split; [flag_goal; assumption|]);
  lazymatch goal with
  | |- false = true -> _ => let H := fresh in intros H; discriminate H
  | |- true = true -> _ => intros _; assumption
  end.

Section Running.

Variables cosf sinf : float -> float.

Local Abbreviation actor_p2 := (actor_p2 cosf sinf).
Local Abbreviation actors := (actors cosf sinf).
Local Abbreviation Render := (Render cosf sinf).
Local Abbreviation Render_globals := (Render_globals cosf sinf).
Local Abbreviation Render_resets := (Render_resets cosf sinf).
Local Abbreviation Render_calls := (Render_calls cosf sinf).
Local Abbreviation Render_ticks := (Render_ticks cosf sinf).
Local Abbreviation moving := (moving cosf).
Local Abbreviation step := (step cosf sinf).
Local Abbreviation run := (run cosf sinf).
Local Abbreviation reachable := (reachable cosf sinf).
Local Abbreviation frozen_at := (frozen_at cosf).
Local Abbreviation settled := (settled cosf).
Local Abbreviation draws_movers := (draws_movers cosf).

Local Abbreviation running_from := (running_from cosf).

Lemma runs_actor_I1 e a :
  triple e (fun m => running_from a 0 (vars m)) actor_I1
    (fun _ m => running_from a 1 (vars m)).
Proof. destruct a; block_runs. Qed.

Lemma runs_actor_I2 e a :
  triple e (fun m => running_from a 1 (vars m)) actor_I2
    (fun _ m => running_from a 2 (vars m)).
Proof. destruct a; block_runs. Qed.

Lemma runs_actor_I3 e a :
  triple e (fun m => running_from a 2 (vars m)) actor_I3
    (fun _ m => running_from a 3 (vars m)).
Proof. destruct a; block_runs. Qed.

Lemma runs_actor_K1 e a :
  triple e (fun m => running_from a 3 (vars m)) actor_K1
    (fun _ m => running_from a 4 (vars m)).
Proof. destruct a; block_runs. Qed.

Lemma runs_actor_k2 e a :
  triple e (fun m => running_from a 4 (vars m)) actor_k2
    (fun _ m => running_from a 5 (vars m)).
Proof. destruct a; block_runs. Qed.

Lemma runs_actor_k3 e a :
  triple e (fun m => running_from a 5 (vars m)) actor_k3
    (fun _ m => running_from a 6 (vars m)).
Proof. destruct a; block_runs. Qed.

Lemma runs_actor_e1 e a :
  triple e (fun m => running_from a 6 (vars m)) actor_e1
    (fun _ m => running_from a 7 (vars m)).
Proof. destruct a; block_runs. Qed.

Lemma runs_actor_e234 e a :
  triple e (fun m => running_from a 7 (vars m)) actor_e234
    (fun _ m => running_from a 8 (vars m)).
Proof. destruct a; block_runs. Qed.

Lemma runs_actor_p1 e a :
  triple e (fun m => running_from a 8 (vars m)) actor_p1
    (fun _ m => running_from a 9 (vars m)).
Proof. destruct a; block_runs. Qed.

Lemma runs_actor_p2 e a :
  triple e (fun m => running_from a 9 (vars m)) actor_p2
    (fun _ m => running_from a 10 (vars m)).
Proof. unfold_actor_p2. destruct a; block_runs. Qed.

Lemma runs_actors e a :
  triple e (fun m => running_from a 0 (vars m)) actors
    (fun _ m => completed a (vars m) = false).
Proof.
  apply triple_weaken with (P' := fun m => running_from a 0 (vars m))
    (Q' := fun _ m => running_from a 10 (vars m)); [| auto |].
  - unfold_actors.
    eapply triple_bind; [apply runs_actor_I1 | intros ?].
    eapply triple_bind; [apply runs_actor_I2 | intros ?].
    eapply triple_bind; [apply runs_actor_I3 | intros ?].
    eapply triple_bind; [apply runs_actor_K1 | intros ?].
    eapply triple_bind; [apply runs_actor_k2 | intros ?].
    eapply triple_bind; [apply runs_actor_k3 | intros ?].
    eapply triple_bind; [apply runs_actor_e1 | intros ?].
    eapply triple_bind; [apply runs_actor_e234 | intros ?].
    eapply triple_bind; [apply runs_actor_p1 | intros ?].
    apply runs_actor_p2.
  - intros _ m [H _]. exact H.
Qed.

Lemma unset_pretime a t g :
  completed a g = false -> completed a (set_pretime t g) = false.
Proof. destruct g, a; step_block; auto. Qed.

Lemma unset_gate e a :
  triple e (fun m => completed a (vars m) = false) gate
    (fun r m => r = false /\ completed a (vars m) = false).
Proof.
  intros m Hm. rewrite (gate_idle e m (actor_id a)).
  - split; [reflexivity | exact Hm].
  - destruct a; simpl; lia.
  - exact Hm.
Qed.

(** X16.  While an actor is still moving, the sequencer runs on: a frame
    that starts with the block of some actor still moving it does not reset,
    and leaves that actor's flag unset. *)
Theorem moving_actor_holds_the_reset g e a :
  reachable g ->
  moving a g = true ->
  Render_resets e g = false /\
  completed a (Render_globals e g) = false.
Proof.
  intros Hreach Hmove.
  assert (Hflag : completed a g = false).
  { destruct (completed a g) eqn:E; [|reflexivity].
    rewrite (settled_reachable g Hreach a E) in Hmove. discriminate. }
  refine (Render_triple e (running_from a 0)
            (fun g' => completed a g' = false)
            (fun r g' _ => r = false /\ completed a g' = false)
            (runs_actors e a) (unset_pretime a) (unset_gate e a) _
            (frame_start g) _).
  - intros _ g' _ [H _]. split; [reflexivity | exact H].
  - split; [exact Hflag | intros _; exact Hmove].
Qed.

End Running.

(** ** Concrete runs of the frame *)

Lemma failed_frame_is_skipped_witness :
  begin_ok (lost_device 16) = false /\
  Render_calls cos_sample sin_sample (lost_device 16) first_arrival =
    [Clear; BeginScene; Present] /\
  Render_globals cos_sample sin_sample (lost_device 16) first_arrival = first_arrival.
Proof.
  destruct (failed_frame_is_skipped cos_sample sin_sample (lost_device 16)
              first_arrival eq_refl) as (H1 & _ & _ & H4 & _).
  exact (conj eq_refl (conj H1 H4)).
Defined.

Lemma frame_draws_recorded_quads_witness :
  begin_ok (at_time 2232) = true /\
  length (filter is_quad_draw
            (Render_calls cos_sample sin_sample (at_time 2232) first_arrival)) =
    (5 + Z.to_nat (index first_arrival))%nat.
Proof.
  exact (conj eq_refl
    (frame_draws_recorded_quads cos_sample sin_sample (at_time 2232) first_arrival
       eq_refl)).
Defined.

Lemma frame_draws_moving_actors_witness :
  begin_ok (at_time 2232) = true /\
  cuboids (Render_calls cos_sample sin_sample (at_time 2232) first_arrival) =
    length (filter (fun a => moving cos_sample a first_arrival) all_actors).
Proof.
  exact (conj eq_refl
    (frame_draws_moving_actors cos_sample sin_sample (at_time 2232) first_arrival
       eq_refl)).
Defined.

Lemma trail_is_append_only_witness :
  reachable cos_sample sin_sample first_arrival /\
  Render_resets cos_sample sin_sample (at_time 2732) first_arrival = false /\
  index first_arrival <=
    index (Render_globals cos_sample sin_sample (at_time 2732) first_arrival) <=
    index first_arrival + 12 /\
  take (Z.to_nat (index first_arrival))
    (squarePos (Render_globals cos_sample sin_sample (at_time 2732) first_arrival)) =
  take (Z.to_nat (index first_arrival)) (squarePos first_arrival).
Proof.
  assert (Hr : reachable cos_sample sin_sample first_arrival)
    by apply sample_run_reachable.
  assert (Hn : Render_resets cos_sample sin_sample (at_time 2732) first_arrival = false)
    by (vm_compute; reflexivity).
  exact (conj Hr (conj Hn
    (trail_is_append_only cos_sample sin_sample first_arrival (at_time 2732) Hr Hn))).
Defined.

Lemma latch_set_only_when_all_stopped_witness :
  reachable cos_sample sin_sample all_arrived /\
  endGet all_arrived = true /\
  completed A11 all_arrived = true /\
  moving cos_sample A11 all_arrived = false.
Proof.
  assert (Hr : reachable cos_sample sin_sample all_arrived)
    by apply sample_run_reachable.
  assert (Hl : endGet all_arrived = true) by (vm_compute; reflexivity).
  exact (conj Hr (conj Hl
    (latch_set_only_when_all_stopped cos_sample sin_sample all_arrived A11 Hr Hl))).
Defined.

Lemma hold_frame_is_quiescent_witness :
  reachable cos_sample sin_sample all_arrived /\
  endGet all_arrived = true /\
  begin_ok (at_time 7016) = true /\
  Render_resets cos_sample sin_sample (at_time 7016) all_arrived = false /\
  Render_globals cos_sample sin_sample (at_time 7016) all_arrived =
    set_pretime (B32.of_Z (wrapU32 (clock (at_time 7016) 0))) all_arrived /\
  Render_ticks cos_sample sin_sample (at_time 7016) all_arrived = 2%nat /\
  Render_calls cos_sample sin_sample (at_time 7016) all_arrived =
    opening_calls all_arrived ++ [EndScene; Present].
Proof.
  assert (Hr : reachable cos_sample sin_sample all_arrived)
    by apply sample_run_reachable.
  assert (Hl : endGet all_arrived = true) by (vm_compute; reflexivity).
  assert (Hn : Render_resets cos_sample sin_sample (at_time 7016) all_arrived = false)
    by (vm_compute; reflexivity).
  exact (conj Hr (conj Hl (conj eq_refl (conj Hn
    (hold_frame_is_quiescent cos_sample sin_sample all_arrived (at_time 7016)
       Hr Hl eq_refl Hn))))).
Defined.

Lemma reset_fires_when_due_witness :
  reachable cos_sample sin_sample all_arrived /\
  endGet all_arrived = true /\
  endTime all_arrived = B32.of_Z 7000 /\
  0 <= 7000 < 2 ^ 24 /\
  begin_ok (at_time 12001) = true /\
  0 <= clock (at_time 12001) 1 < 2 ^ 24 /\
  Render_resets cos_sample sin_sample (at_time 12001) all_arrived =
    (5000 <? clock (at_time 12001) 1 - 7000).
Proof.
  assert (Hr : reachable cos_sample sin_sample all_arrived)
    by apply sample_run_reachable.
  assert (Hl : endGet all_arrived = true) by (vm_compute; reflexivity).
  assert (R1 : 0 <= 7000 < 2 ^ 24) by (vm_compute; split; [discriminate | reflexivity]).
  assert (R2 : 0 <= clock (at_time 12001) 1 < 2 ^ 24)
    by (vm_compute; split; [discriminate | reflexivity]).
  assert (He : endTime all_arrived = B32.of_Z 7000) by (vm_compute; reflexivity).
  exact (conj Hr (conj Hl (conj He (conj R1 (conj eq_refl (conj R2
    (reset_fires_when_due cos_sample sin_sample all_arrived (at_time 12001) 7000
       Hr Hl He R1 eq_refl R2))))))).
Defined.

Lemma flag_follows_stop_witness :
  reachable cos_sample sin_sample one_jump /\
  moving cos_sample A0 one_jump = false /\
  completed A0 one_jump = false /\
  begin_ok (at_time 7000) = true /\
  Render_resets cos_sample sin_sample (at_time 7000) one_jump = false /\
  completed A0 (Render_globals cos_sample sin_sample (at_time 7000) one_jump) = true.
Proof.
  assert (Hr : reachable cos_sample sin_sample one_jump)
    by apply sample_run_reachable.
  assert (Hs : moving cos_sample A0 one_jump = false) by (vm_compute; reflexivity).
  assert (Hf : completed A0 one_jump = false) by (vm_compute; reflexivity).
  assert (Hn : Render_resets cos_sample sin_sample (at_time 7000) one_jump = false)
    by (vm_compute; reflexivity).
  destruct (flag_follows_stop cos_sample sin_sample one_jump (at_time 7000) A0 Hr)
    as [_ H].
  exact (conj Hr (conj Hs (conj Hf (conj eq_refl (conj Hn (H Hs eq_refl Hn)))))).
Defined.

Lemma stopped_actor_stays_witness :
  moving cos_sample A0 one_jump = false /\
  Render_resets cos_sample sin_sample (at_time 7000) one_jump = false /\
  position A0 (Render_globals cos_sample sin_sample (at_time 7000) one_jump) =
    position A0 one_jump /\
  phase A0 (Render_globals cos_sample sin_sample (at_time 7000) one_jump) =
    phase A0 one_jump /\
  moving cos_sample A0 (Render_globals cos_sample sin_sample (at_time 7000) one_jump) =
    false.
Proof.
  assert (Hs : moving cos_sample A0 one_jump = false) by (vm_compute; reflexivity).
  assert (Hn : Render_resets cos_sample sin_sample (at_time 7000) one_jump = false)
    by (vm_compute; reflexivity).
  exact (conj Hs (conj Hn
    (stopped_actor_stays cos_sample sin_sample one_jump (at_time 7000) A0 Hs Hn))).
Defined.

Lemma resize_with_nonzero_height_witness :
  Z.land (Z.shiftr sized_1264_761 16) 65535 <> 0 /\
  Z.land sized_1264_761 65535 <> 0 /\
  is_positive_finite (g_aspect (MsgProc WM_SIZE sized_1264_761 (initial_globals 0))) = true.
Proof.
  assert (Hh : Z.land (Z.shiftr sized_1264_761 16) 65535 <> 0)
    by (vm_compute; discriminate).
  assert (Hw : Z.land sized_1264_761 65535 <> 0) by (vm_compute; discriminate).
  destruct (resize_with_nonzero_height sized_1264_761 (initial_globals 0) Hh) as [H _].
  exact (conj Hh (conj Hw (H Hw))).
Defined.

Lemma resize_reaches_projection_witness :
  Forall (fun i => is_resize i = false) [Frame (at_time 16); Message 15 0] /\
  begin_ok (at_time 32) = true /\
  Render_calls cos_sample sin_sample (at_time 32)
    (run cos_sample sin_sample (MsgProc WM_SIZE sized_1264_761 (initial_globals 0))
       [Frame (at_time 16); Message 15 0]) !! 3%nat =
    Some (SetupMatrices
            (B32.div (B32.of_Z (Z.land sized_1264_761 65535))
                     (B32.of_Z (Z.land (Z.shiftr sized_1264_761 16) 65535)))).
Proof.
  assert (Hi : Forall (fun i => is_resize i = false)
                 [Frame (at_time 16); Message 15 0])
    by (repeat constructor).
  exact (conj Hi (conj eq_refl
    (resize_reaches_projection cos_sample sin_sample (initial_globals 0)
       sized_1264_761 [Frame (at_time 16); Message 15 0] (at_time 32)
       Hi eq_refl))).
Defined.

Lemma reset_restarts_actors_witness :
  Render_resets cos_sample sin_sample (at_time 12001) all_arrived = true /\
  completed A3 (Render_globals cos_sample sin_sample (at_time 12001) all_arrived) = false /\
  moving cos_sample A3 (Render_globals cos_sample sin_sample (at_time 12001) all_arrived) =
    true.
Proof.
  assert (Hx : Render_resets cos_sample sin_sample (at_time 12001) all_arrived = true)
    by (vm_compute; reflexivity).
  destruct (reset_restarts_actors cos_sample sin_sample all_arrived (at_time 12001) A3 Hx)
    as (H1 & _ & H3 & _).
  exact (conj Hx (conj H1 (H3 ltac:(discriminate)))).
Defined.

Lemma geometry_covers_draws_witness :
  fst (InitGeometry geometry_ok) = S_OK /\
  written (buffer_of (snd (InitGeometry geometry_ok)) g_pVB2) 5 = false /\
  written (buffer_of (snd (InitGeometry geometry_ok)) g_pVB) 19 = true.
Proof.
  destruct (geometry_covers_draws geometry_ok) as [_ H].
  destruct (H eq_refl) as (_ & _ & H3 & _ & H5).
  refine (conj eq_refl (conj H5 (H3 19%nat _))).
  unfold strip_vertices. apply in_seq. simpl. lia.
Defined.

Lemma moving_actor_holds_the_reset_witness :
  reachable cos_sample sin_sample first_arrival /\
  moving cos_sample A1 first_arrival = true /\
  Render_resets cos_sample sin_sample (at_time 2232) first_arrival = false /\
  completed A1 (Render_globals cos_sample sin_sample (at_time 2232) first_arrival) = false.
Proof.
  assert (Hr : reachable cos_sample sin_sample first_arrival)
    by apply sample_run_reachable.
  assert (Hm : moving cos_sample A1 first_arrival = true) by (vm_compute; reflexivity).
  exact (conj Hr (conj Hm
    (moving_actor_holds_the_reset cos_sample sin_sample first_arrival (at_time 2232)
       A1 Hr Hm))).
Defined.
